(** * Verification of the publishing dashboard's mail and LinkedIn adapters

  Shallow embedding of [src/utils.py] ([clean_and_split_emails],
  [clean_and_split_phones], [get_logo_path]),
  [src/graph_mail.py] (footer handling, attachments and inline images,
  single, individual and batched dispatch),
  [src/linkedin.py] ([post], [get_post_metrics],
  [get_post_metrics_advanced], [get_follower_growth]),
  [scripts/auto_analytics.py] (the two collectors and the cycle that runs
  them) and the Gmail branch of [src/ui_components.py], with the properties
  the specification states about them and further properties read off the
  code.

  Conventions of the embedding:
  - a Python [str] is the list of its Unicode code points ([pystr]);
  - a Python [dict] read with [.get(key, default)] is a [gmap] read with
    [default];
  - HTTP servers, the file system, the clock and the database are explicit
    environments: a call returns what the environment answers, and every
    effect the claims talk about is appended to an event trace;
  - Python [float] values that only come out of [/] and [*] on integers are
    exact rationals ([Q]); rounding error of the binary representation is
    outside the model;
  - tables of the interpreter and of pandas ([str.lower], [str.isdigit],
    [sort_values], the conversion of a time stamp to a date) enter as
    interfaces, with the laws a result relies on stated beside them. *)

From Stdlib Require Import ZArith NArith QArith Qround Lia List Bool String Ascii.
From Stdlib Require Import Permutation DecimalString.
From stdpp Require Import base option list gmap strings sorting.

Local Open Scope N_scope.

(** ** Python strings *)

Abbreviation pystr := (list N).

Module PyStr.

(** UTF-8 decoding of a source literal into code points. *)
Fixpoint utf8_decode (bs : list N) : pystr :=
  match bs with
  | [] => []
  | b :: r =>
      if b <? 128 then b :: utf8_decode r
      else if b <? 224 then
        match r with
        | b1 :: r1 => ((b - 192) * 64 + (b1 - 128)) :: utf8_decode r1
        | [] => []
        end
      else if b <? 240 then
        match r with
        | b1 :: b2 :: r2 =>
            ((b - 224) * 4096 + (b1 - 128) * 64 + (b2 - 128)) :: utf8_decode r2
        | _ => []
        end
      else
        match r with
        | b1 :: b2 :: b3 :: r3 =>
            ((b - 240) * 262144 + (b1 - 128) * 4096 + (b2 - 128) * 64 + (b3 - 128))
              :: utf8_decode r3
        | _ => []
        end
  end.

Definition lit (s : string) : pystr :=
  utf8_decode (map N_of_ascii (list_ascii_of_string s)).

(** Literals that hold double quotes are written with a backquote in their
    place; [litq] puts the double quote (code point 34) back. *)
Definition litq (s : string) : pystr :=
  map (fun c => if c =? 96 then 34 else c) (lit s).

(** [str.isspace] on one code point (the Unicode white space of CPython). *)
Definition isspace (c : N) : bool :=
  ((9 <=? c) && (c <=? 13)) || ((28 <=? c) && (c <=? 32))
  || (c =? 133) || (c =? 160) || (c =? 5760)
  || ((8192 <=? c) && (c <=? 8202))
  || (c =? 8232) || (c =? 8233) || (c =? 8239) || (c =? 8287) || (c =? 12288).

Fixpoint lstrip_by (p : N → bool) (s : pystr) : pystr :=
  match s with
  | c :: t => if p c then lstrip_by p t else s
  | [] => []
  end.

Definition rstrip_by (p : N → bool) (s : pystr) : pystr :=
  rev (lstrip_by p (rev s)).

Definition strip_by (p : N → bool) (s : pystr) : pystr :=
  rstrip_by p (lstrip_by p s).

(** [s.strip()] *)
Definition strip (s : pystr) : pystr := strip_by isspace s.

Definition mem (c : N) (cs : pystr) : bool := existsb (N.eqb c) cs.

(** [s.strip(chars)] *)
Definition strip_chars (cs : pystr) (s : pystr) : pystr :=
  strip_by (fun c => mem c cs) s.

(** [s.startswith(p)] *)
Fixpoint startswith (p s : pystr) : bool :=
  match p, s with
  | [], _ => true
  | a :: p', b :: s' => (a =? b) && startswith p' s'
  | _ :: _, [] => false
  end.

(** [s.endswith(p)] *)
Definition endswith (p s : pystr) : bool := startswith (rev p) (rev s).

(** [sub in s] *)
Fixpoint contains (sub s : pystr) : bool :=
  startswith sub s ||
  match s with
  | [] => false
  | _ :: t => contains sub t
  end.

(** [s.count(sub)] for a non-empty [sub]: occurrences are counted from the
    left and do not overlap; [skip] is the number of characters still covered
    by the occurrence found last. *)
Fixpoint count_from (sub : pystr) (skip : nat) (s : pystr) : nat :=
  match s with
  | [] => O
  | _ :: t =>
      match skip with
      | S k => count_from sub k t
      | O => if startswith sub s
             then S (count_from sub (length sub - 1) t)
             else count_from sub 0 t
      end
  end.

Definition count (sub s : pystr) : nat := count_from sub 0 s.

(** [s.replace(old, new)] for a non-empty [old]. *)
Fixpoint replace_from (old new : pystr) (skip : nat) (s : pystr) : pystr :=
  match s with
  | [] => []
  | c :: t =>
      match skip with
      | S k => replace_from old new k t
      | O => if startswith old s
             then new ++ replace_from old new (length old - 1) t
             else c :: replace_from old new 0 t
      end
  end.

Definition replace (old new s : pystr) : pystr := replace_from old new 0 s.

(** [s.replace(old, new, 1)] for a non-empty [old]. *)
Fixpoint replace_first (old new s : pystr) : pystr :=
  match s with
  | [] => []
  | c :: t => if startswith old s then new ++ drop (length old) s
              else c :: replace_first old new t
  end.

(** [s.split(sep)] for a one-character separator: always at least one field. *)
Fixpoint split_char (sep : N) (s : pystr) : list pystr :=
  match s with
  | [] => [[]]
  | c :: t =>
      if c =? sep then [] :: split_char sep t
      else match split_char sep t with
           | w :: ws => (c :: w) :: ws
           | [] => [[c]]
           end
  end.

(** [s.split()]: fields between runs of white space, none of them empty.
    [cur] is the field being read, reversed. *)
Fixpoint split_ws_from (cur : pystr) (s : pystr) : list pystr :=
  match s with
  | [] => match cur with [] => [] | _ => [rev cur] end
  | c :: t =>
      if isspace c
      then match cur with
           | [] => split_ws_from [] t
           | _ => rev cur :: split_ws_from [] t
           end
      else split_ws_from (c :: cur) t
  end.

Definition split_ws (s : pystr) : list pystr := split_ws_from [] s.

(** [sep.join(parts)] *)
Fixpoint join (sep : pystr) (parts : list pystr) : pystr :=
  match parts with
  | [] => []
  | [p] => p
  | p :: ps => p ++ sep ++ join sep ps
  end.

(** Case folding of [re.IGNORECASE] restricted to what an ASCII pattern
    without [i], [k] and [s] can meet: A-Z against a-z. *)
Definition ascii_fold (c : N) : N :=
  if (65 <=? c) && (c <=? 90) then c + 32 else c.

Fixpoint startswith_ci (p s : pystr) : bool :=
  match p, s with
  | [], _ => true
  | a :: p', b :: s' => (ascii_fold a =? ascii_fold b) && startswith_ci p' s'
  | _ :: _, [] => false
  end.

(** [re.search(p, s, re.IGNORECASE)] for a literal pattern: the text before
    the leftmost match, the matched text and the text after it. *)
Fixpoint search_ci (p s : pystr) : option (pystr * pystr * pystr) :=
  if startswith_ci p s
  then Some ([], take (length p) s, drop (length p) s)
  else match s with
       | [] => None
       | c :: t =>
           match search_ci p t with
           | Some (pre, m, post) => Some (c :: pre, m, post)
           | None => None
           end
       end.

(** [str(n)] for an integer. *)
Definition of_Z (z : Z) : pystr := lit (NilZero.string_of_int (Z.to_int z)).

End PyStr.

(** ** What the model takes from the Python runtime

    [str.lower] applies the Unicode case mapping, and [re.sub] expands
    escape sequences in a replacement template; both are tables of the
    interpreter, not of this repository, and enter as an interface. *)
Class PyRuntime := {
  (** [s.lower()] *)
  str_lower : pystr → pystr;
  (** [re_expand template group1]: the text [re.sub] substitutes for a match
      whose group 1 is [group1]; [None] when [re] rejects the template. *)
  re_expand : pystr → pystr → option pystr
}.

(** The two facts about [str.lower] the results below rely on: lowering twice
    is lowering once, and white space at the ends is neither created nor
    removed by lowering. *)
Class PyRuntimeLaws (R : PyRuntime) : Prop := {
  str_lower_idem : ∀ s, str_lower (str_lower s) = str_lower s;
  str_lower_strip : ∀ s, str_lower (PyStr.strip s) = PyStr.strip (str_lower s)
}.

(** A runtime restricted to ASCII letters, to run the model on examples. *)
Definition ascii_lower (s : pystr) : pystr := map PyStr.ascii_fold s.

Definition ascii_runtime : PyRuntime := {|
  str_lower := ascii_lower;
  re_expand := fun tpl g =>
    if PyStr.mem 92 (take (length tpl - 2) tpl) then None
    else Some (take (length tpl - 2) tpl ++ g)
|}.

(** ** [src/utils.py] *)

Module Utils.
Import PyStr.

(** The argument of [clean_and_split_emails] as Python sees it: the callers
    pass spreadsheet cells, which may hold something else than a string. *)
Inductive pyarg :=
| PyNone
| PyInt (z : Z)
| PyStr (s : pystr).

Definition remove_char (c : N) (s : pystr) : pystr :=
  filter (λ x, x ≠ c) s.

Definition replace_char (c d : N) (s : pystr) : pystr :=
  map (fun x => if x =? c then d else x) s.

Definition BOM : N := 65279.
Definition NBSP : N := 160.
Definition ZWSP : N := 8203.

(** Lines 255-258: invisible characters out, then [strip]. *)
Definition prepare (raw : pystr) : pystr :=
  strip (remove_char ZWSP (replace_char NBSP 32 (remove_char BOM raw))).

Definition nonempty (s : pystr) : bool :=
  match s with [] => false | _ => true end.

(** [[p.strip() for p in parts if p.strip()]] *)
Definition stripped_fields (parts : list pystr) : list pystr :=
  map strip (List.filter (fun p => nonempty (strip p)) parts).

(** Lines 265-286: the candidate addresses. *)
Definition candidates (cleaned : pystr) : list pystr :=
  if (startswith (lit "[") cleaned && endswith (lit "]") cleaned)
     || (startswith (lit "{") cleaned && endswith (lit "}") cleaned)
  then
    let inner := strip_chars (lit "[]{}") cleaned in
    let inner := remove_char 39 (remove_char 34 inner) in
    stripped_fields (split_char 44 inner)
  else
    let cleaned := replace_char 59 44 cleaned in
    let cleaned := replace_char 124 44 cleaned in
    let cleaned := replace_char 10 44 cleaned in
    let cleaned := replace_char 13 44 cleaned in
    let cleaned := replace_char 9 44 cleaned in
    stripped_fields (split_char 44 cleaned).

Section WithRuntime.
Context `{R : PyRuntime}.

(** Lines 291-300: the clean-up of one candidate. *)
Definition clean_one (email : pystr) : pystr :=
  let email := strip_chars [34; 39] email in
  let email := join [32] (split_ws email) in
  let email := strip_chars (lit "()[]{}") email in
  let email := str_lower email in
  strip email.

(** Lines 289-303. *)
Definition cleaned_emails (emails : list pystr) : list pystr :=
  List.filter (fun e => nonempty e && mem 64 e) (map clean_one emails).

(** Lines 306-311: the loop over [cleaned_emails] with its [seen] set and
    its [unique_emails] list. *)
Fixpoint unique_loop (seen : gset pystr) (unique_emails : list pystr)
    (todo : list pystr) : list pystr :=
  match todo with
  | [] => unique_emails
  | email :: rest =>
      if decide (email ∈ seen) then unique_loop seen unique_emails rest
      else unique_loop ({[email]} ∪ seen) (unique_emails ++ [email]) rest
  end.

Definition clean_and_split_emails (raw_value : pyarg) : list pystr :=
  match raw_value with
  | PyStr raw =>
      if nonempty raw then
        let cleaned := prepare raw in
        if nonempty cleaned
        then unique_loop ∅ [] (cleaned_emails (candidates cleaned))
        else []
      else []
  | _ => []
  end.

End WithRuntime.
End Utils.

(** ** Exceptions and replies shared by the adapters *)

Inductive exn :=
| ValueError | ZeroDivisionError | KeyError | IndexError | ReError
| HTTPError | FileNotFoundError | DBError.

Inductive res (A : Type) :=
| Ok (a : A)
| Raise (e : exn).
Arguments Ok {A} a.
Arguments Raise {A} e.

#[global] Instance res_ret : MRet res := @Ok.
#[global] Instance res_bind : MBind res := λ A B k m,
  match m with
  | Ok a => k a
  | Raise e => Raise e
  end.

(** Python indexing [l[i]]: a negative index counts from the end, an index
    out of range raises. *)
Definition py_index {A} (l : list A) (i : Z) : option A :=
  let n := Z.of_nat (length l) in
  if (0 <=? i)%Z then l !! Z.to_nat i
  else if (- n <=? i)%Z then l !! Z.to_nat (n + i)
  else None.

(** Python slicing [l[a:b]]. *)
Definition py_slice {A} (l : list A) (a b : Z) : list A :=
  let n := Z.of_nat (length l) in
  let norm (i : Z) := if (i <? 0)%Z then Z.max 0 (n + i) else Z.min i n in
  take (Z.to_nat (norm b - norm a)) (drop (Z.to_nat (norm a)) l).

(** ** [src/graph_mail.py] *)

Module GraphMail.
Import PyStr.

Definition FOOTER_MARKER_TEXT : pystr := lit "PIES-DE-EMAIL".
Definition FOOTER_MARKER_HTML : pystr := lit "<!-- PIES-DE-EMAIL -->".

Definition EMAIL_FOOTER : pystr := litq "
<br><br>
<!-- PIES-DE-EMAIL -->
<table
  width=`50%`
  cellpadding=`0`
  cellspacing=`0`
  border=`0`
  align=`left`
  style=`font-family: Arial, sans-serif; font-size:14px; color:#4F764D; background-color:#fafafa;`
>
  <tr>
    <td style=`padding:15px; vertical-align:top; width:60%;`>
      <strong style=`font-size:18px; color:#234926;`>Tu Nombre</strong><br>
      <span style=`color:#4F764D;`>Tu Cargo</span><br>
      <a href=`mailto:tu-email@ejemplo.com` style=`color:#4F764D; text-decoration:none;`>tu-email@ejemplo.com</a><br>
      <a href=`https://linkedin.com/in/tu-perfil` style=`color:#4F764D; text-decoration:none;`>linkedin.com/in/tu-perfil</a><br><br>
      <strong style=`color:#234926;`>Tu Empresa S.A.</strong><br>
      <span style=`color:#4F764D;`>
        Tu Dirección<br>
        Tu Ciudad, PAÍS<br>
        <a href=`https://www.tuweb.com` style=`color:#4F764D; text-decoration:none;`>www.tuweb.com</a><br>
        Tlf.: +00 000 00 00 00
      </span>
    </td>
    <td style=`padding:15px; vertical-align:top; text-align:right; width:40%;`>
      <a href=`https://www.tuweb.com` style=`text-decoration:none;`>
        <img
          src=`https://via.placeholder.com/300x100?text=Logo+Empresa`
          alt=`Logo Empresa`
          style=`display:block; width: 300px; height:auto; border:0;`
        >
      </a>
    </td>
  </tr>
  <tr>
    <td colspan=`2` style=`padding:15px;`>
      <span style=`font-size:11px; line-height:1.3; color:#4F764D;`>
        Este mensaje y sus archivos adjuntos van dirigidos exclusivamente a su destinatario, pudiendo contener
        información confidencial sometida a secreto profesional. No está permitida su reproducción o distribución sin la
        autorización expresa de la empresa. Si usted no es el destinatario final por favor elimínelo e infórmenos por esta
        vía.
      </span>
    </td>
  </tr>
</table>
".

Definition BODY_CLOSE : pystr := lit "</body>".

Definition nonempty (s : pystr) : bool :=
  match s with [] => false | _ => true end.

(** [s.replace(c, new)] for a one-character [c]. *)
Definition expand_char (c : N) (new : pystr) (s : pystr) : pystr :=
  flat_map (fun x => if x =? c then new else [x]) s.

Definition ensure_html_string (content_text : pystr) (content_html : option pystr)
    : pystr :=
  match content_html with
  | Some h =>
      if nonempty h && nonempty (strip h) then h
      else lit "<div>" ++ expand_char 10 (lit "<br>") content_text ++ lit "</div>"
  | None => lit "<div>" ++ expand_char 10 (lit "<br>") content_text ++ lit "</div>"
  end.

(** The replacement template is the footer followed by [\1]; the footer holds
    no backslash (see [EMAIL_FOOTER_plain]), so the substituted text is the
    footer followed by the matched tag. *)
Definition ensure_footer_once (html : pystr) : pystr :=
  if contains FOOTER_MARKER_TEXT html then html
  else match search_ci BODY_CLOSE html with
       | Some (pre, m, post) => pre ++ EMAIL_FOOTER ++ m ++ post
       | None => html ++ EMAIL_FOOTER
       end.

Section WithRuntime.
Context `{R : PyRuntime}.

Definition insert_inline_images_before_footer (html img_tags : pystr) : res pystr :=
  if negb (nonempty img_tags) then Ok html
  else if contains FOOTER_MARKER_HTML html
  then Ok (replace_first FOOTER_MARKER_HTML (img_tags ++ FOOTER_MARKER_HTML) html)
  else match search_ci BODY_CLOSE html with
       | Some (pre, m, post) =>
           match re_expand (img_tags ++ lit "\1") m with
           | Some r => Ok (pre ++ r ++ post)
           | None => Raise ReError
           end
       | None => Ok (html ++ img_tags)
       end.

(** The regular expression [<!--\s*PREF:IMG_SIZE:(.*?)\s*-->].
    [lazy_until_close acc s] extends the lazy group one character at a time
    (never over a newline) until white space and [-->] follow; it returns the
    group and the number of characters read up to the end of [-->]. *)
Fixpoint lazy_until_close (acc : pystr) (s : pystr) : option (pystr * nat) :=
  if startswith (lit "-->") (lstrip_by isspace s)
  then Some (rev acc,
             (length acc + (length s - length (lstrip_by isspace s)) + 3)%nat)
  else match s with
       | [] => None
       | c :: t => if c =? 10 then None else lazy_until_close (c :: acc) t
       end.

(** A match anchored at the head of [s]: the whole match and group 1. *)
Definition match_img_size_at (s : pystr) : option (pystr * pystr) :=
  if startswith (lit "<!--") s then
    let r1 := drop 4 s in
    let r2 := lstrip_by isspace r1 in
    if startswith (lit "PREF:IMG_SIZE:") r2 then
      match lazy_until_close [] (drop 14 r2) with
      | Some (g1, n) =>
          Some (take (4 + (length r1 - length r2) + 14 + n)%nat s, g1)
      | None => None
      end
    else None
  else None.

Fixpoint search_img_size (s : pystr) : option (pystr * pystr) :=
  match match_img_size_at s with
  | Some r => Some r
  | None => match s with
            | [] => None
            | _ :: t => search_img_size t
            end
  end.

Definition PREF_INLINE : pystr := lit "<!-- PREF:INLINE_IMAGES -->".

Definition extract_inline_preferences (content_html : option pystr)
    : option pystr * bool * pystr :=
  match content_html with
  | None => (None, false, lit "100%")
  | Some [] => (Some [], false, lit "100%")
  | Some html =>
      let inline_images := contains PREF_INLINE html in
      let html := if inline_images then replace PREF_INLINE [] html else html in
      match search_img_size html with
      | Some (g0, g1) => (Some (replace g0 [] html), inline_images, strip g1)
      | None => (Some html, inline_images, lit "100%")
      end
  end.

(** The file system and the random source [build_attachments_payload] reads. *)
Record files := {
  file_exists : pystr → bool;
  (** base64 text of the file's bytes; [None] when opening or reading raises *)
  file_base64 : pystr → option pystr;
  (** [str(uuid.uuid4())], by number of the call *)
  uuid4 : nat → pystr
}.

Record attachment := {
  att_name : pystr;
  att_contentType : pystr;
  att_contentBytes : pystr;
  att_isInline : bool;
  att_contentId : option pystr
}.

(** [os.path.basename] on POSIX: what follows the last slash. *)
Fixpoint until_slash (s : pystr) : pystr :=
  match s with
  | c :: t => if c =? 47 then [] else c :: until_slash t
  | [] => []
  end.

Definition basename (path : pystr) : pystr := rev (until_slash (rev path)).

Definition img_tag (cid filename img_width : pystr) : pystr :=
  litq "<br><img src=`cid:" ++ cid ++ litq "` alt=`" ++ filename
  ++ litq "` style=`width:" ++ img_width ++ litq "; height:auto;`><br>".

Definition content_type_of (ext : pystr) : pystr * bool :=
  if endswith (lit ".jpg") ext || endswith (lit ".jpeg") ext
  then (lit "image/jpeg", true)
  else if endswith (lit ".png") ext then (lit "image/png", true)
  else if endswith (lit ".gif") ext then (lit "image/gif", true)
  else if endswith (lit ".pdf") ext then (lit "application/pdf", false)
  else (lit "application/octet-stream", false).

(** The loop of [build_attachments_payload]; [n] counts the calls of
    [uuid.uuid4] so far. A missing file and a file whose reading raises are
    both skipped. *)
Fixpoint attachments_loop (fs : files) (inline_images : bool) (img_width : pystr)
    (todo : list pystr) (n : nat) (processed : list attachment) (img_tags : pystr)
    : list attachment * pystr :=
  match todo with
  | [] => (processed, img_tags)
  | filepath :: rest =>
      if negb (file_exists fs filepath)
      then attachments_loop fs inline_images img_width rest n processed img_tags
      else match file_base64 fs filepath with
           | None => attachments_loop fs inline_images img_width rest n processed img_tags
           | Some content =>
               let filename := basename filepath in
               let '(content_type, is_image) := content_type_of (str_lower filename) in
               if inline_images && is_image then
                 let cid := uuid4 fs n in
                 attachments_loop fs inline_images img_width rest (S n)
                   (processed ++ [ {| att_name := filename; att_contentType := content_type;
                                      att_contentBytes := content; att_isInline := true;
                                      att_contentId := Some cid |} ])
                   (img_tags ++ img_tag cid filename img_width)
               else
                 attachments_loop fs inline_images img_width rest n
                   (processed ++ [ {| att_name := filename; att_contentType := content_type;
                                      att_contentBytes := content; att_isInline := false;
                                      att_contentId := None |} ])
                   img_tags
           end
  end.

Definition build_attachments_payload (fs : files) (attachments : option (list pystr))
    (inline_images : bool) (img_width : pystr) : list attachment * pystr :=
  match attachments with
  | None | Some [] => ([], [])
  | Some l => attachments_loop fs inline_images img_width l 0 [] []
  end.

(** *** Configuration and token *)

Record config := {
  client_id : pystr;
  tenant_id : pystr;
  client_secret : pystr;
  sender_email : pystr
}.

Inductive batch_item := {
  (** [int(resp["id"])]; [None] when the key is missing or is no integer *)
  item_id : option Z;
  (** [resp.get("status", 500)] reads [None] as 500 *)
  item_status : option Z;
  (** [resp["body"]["error"]["message"]] when all three are there *)
  item_error_message : option pystr
}.

Inductive http_reply :=
| Response (status_code : Z) (text : pystr) (responses : option (list batch_item))
| RequestException (description : pystr).

(** Everything outside the process. [http n] answers the [n]-th
    [requests.post] of a call (from 0). *)
Record world := {
  getenv : pystr → option pystr;
  msal_installed : bool;
  (** [result["access_token"]] of [acquire_token_for_client], if present *)
  token_reply : option pystr;
  fs : files;
  http : nat → http_reply
}.

Definition truthy (v : option pystr) : bool :=
  match v with
  | Some (_ :: _) => true
  | _ => false
  end.

Definition get_graph_config (w : world) : option config :=
  match getenv w (lit "MICROSOFT_CLIENT_ID"), getenv w (lit "MICROSOFT_TENANT_ID"),
        getenv w (lit "MICROSOFT_CLIENT_SECRET"), getenv w (lit "MICROSOFT_SENDER_EMAIL") with
  | Some c, Some t, Some s, Some e =>
      if nonempty c && nonempty t && nonempty s && nonempty e
      then Some {| client_id := c; tenant_id := t; client_secret := s; sender_email := e |}
      else None
  | _, _, _, _ => None
  end.

Definition get_access_token (w : world) : option pystr :=
  if negb (msal_installed w) then None
  else match get_graph_config w with
       | None => None
       | Some _ => token_reply w
       end.

(** *** Messages, requests and the event trace *)

Record message := {
  msg_subject : pystr;
  msg_body : pystr;
  msg_toRecipients : list pystr;
  msg_ccRecipients : option (list pystr);
  msg_bccRecipients : option (list pystr);
  msg_attachments : option (list attachment)
}.

Record batch_request := {
  req_id : pystr;
  req_url : pystr;
  req_body : message
}.

Inductive event :=
| EvProgress (idx total : nat) (email : pystr)
| EvSendMail (endpoint : pystr) (m : message)
| EvBatch (endpoint : pystr) (requests : list batch_request)
| EvSleep (seconds : Q).

Definition if_nonempty {A} (l : list A) : option (list A) :=
  match l with [] => None | _ => Some l end.

Definition sendMail_endpoint (c : config) : pystr :=
  lit "https://graph.microsoft.com/v1.0/users/" ++ sender_email c ++ lit "/sendMail".

(** Lines 307-325, 420-435 and 577-592: the HTML with the inline images in
    place, and the attachments. *)
Definition html_with_images (w : world) (content_text : pystr)
    (content_html : option pystr) (attachments : option (list pystr))
    (inline_images : bool) : res (pystr * list attachment) :=
  let '(content_html, pref_inline, img_width) := extract_inline_preferences content_html in
  let inline_images := pref_inline || inline_images in
  let html := ensure_html_string content_text content_html in
  let '(processed_attachments, img_tags_to_add) :=
    build_attachments_payload (fs w) attachments inline_images img_width in
  html ← insert_inline_images_before_footer html img_tags_to_add;
  Ok (html, processed_attachments).

(** Lines 328, 436 and 593 added: the HTML every message of a call carries. *)
Definition assemble (w : world) (content_text : pystr) (content_html : option pystr)
    (attachments : option (list pystr)) (inline_images : bool)
    : res (pystr * list attachment) :=
  '(html, processed_attachments) ←
    html_with_images w content_text content_html attachments inline_images;
  Ok (ensure_footer_once html, processed_attachments).

(** *** [send_mail_graph] *)

Definition send_mail_graph (w : world) (receivers : list pystr) (subject : pystr)
    (content_text : pystr) (content_html : option pystr)
    (attachments : option (list pystr)) (cc bcc : list pystr) (inline_images : bool)
    : res bool * list event :=
  match get_graph_config w with
  | None => (Ok false, [])
  | Some config =>
      match receivers with
      | [] => (Ok false, [])
      | _ =>
          if negb (truthy (get_access_token w)) then (Ok false, [])
          else
            match assemble w content_text content_html attachments inline_images with
            | Raise e => (Raise e, [])
            | Ok (html, processed_attachments) =>
                let message := {|
                  msg_subject := subject; msg_body := html;
                  msg_toRecipients := receivers;
                  msg_ccRecipients := if_nonempty cc;
                  msg_bccRecipients := if_nonempty bcc;
                  msg_attachments := if_nonempty processed_attachments |} in
                let trace := [EvSendMail (sendMail_endpoint config) message] in
                match http w 0 with
                | Response status_code _ _ =>
                    (Ok (status_code =? 202)%Z, trace)
                | RequestException _ => (Ok false, trace)
                end
            end
      end
  end.

(** *** The result both dispatchers return *)

Record failed_email := {
  fail_email : pystr;
  fail_error : pystr
}.

Record send_result := {
  total : nat;
  successful : nat;
  failed : nat;
  successful_emails : list pystr;
  failed_emails : list failed_email
}.

Definition all_failed (receivers : list pystr) (error : pystr) : send_result := {|
  total := length receivers;
  successful := 0;
  failed := length receivers;
  successful_emails := [];
  failed_emails := map (fun e => {| fail_email := e; fail_error := error |}) receivers
|}.

(** The mutable locals of a dispatch: the two result lists, the trace, and
    the number of [requests.post] calls made. *)
Record dispatch := {
  d_successful : list pystr;
  d_failed : list failed_email;
  d_trace : list event;
  d_posts : nat
}.

Definition d_start : dispatch :=
  {| d_successful := []; d_failed := []; d_trace := []; d_posts := 0 |}.

Definition emit (e : event) (d : dispatch) : dispatch :=
  {| d_successful := d_successful d; d_failed := d_failed d;
     d_trace := d_trace d ++ [e]; d_posts := d_posts d |}.

Definition posted (d : dispatch) : dispatch :=
  {| d_successful := d_successful d; d_failed := d_failed d;
     d_trace := d_trace d; d_posts := S (d_posts d) |}.

Definition add_success (email : pystr) (d : dispatch) : dispatch :=
  {| d_successful := d_successful d ++ [email]; d_failed := d_failed d;
     d_trace := d_trace d; d_posts := d_posts d |}.

Definition add_failure (email error : pystr) (d : dispatch) : dispatch :=
  {| d_successful := d_successful d;
     d_failed := d_failed d ++ [ {| fail_email := email; fail_error := error |} ];
     d_trace := d_trace d; d_posts := d_posts d |}.

Definition result_of (n : nat) (d : dispatch) : send_result := {|
  total := n;
  successful := length (d_successful d);
  failed := length (d_failed d);
  successful_emails := d_successful d;
  failed_emails := d_failed d
|}.

(** [time.sleep]: a negative duration raises [ValueError]. *)
Definition sleep (seconds : Q) (d : dispatch) : res dispatch :=
  if Qle_bool 0 seconds then Ok (emit (EvSleep seconds) d) else Raise ValueError.

Definition single_message (subject html : pystr) (atts : list attachment)
    (receiver_email : pystr) : message := {|
  msg_subject := subject; msg_body := html;
  msg_toRecipients := [receiver_email];
  msg_ccRecipients := None; msg_bccRecipients := None;
  msg_attachments := if_nonempty atts |}.

(** *** [send_mail_graph_bulk] *)

(** Lines 449-511, one iteration per receiver; [idx] is the 1-based index of
    [enumerate]. The result pairs the locals at the moment the loop stops
    with the exception that stopped it, if any. *)
Fixpoint bulk_loop (w : world) (endpoint subject html : pystr) (atts : list attachment)
    (progress_callback : bool) (delay_between_emails : Q) (total : nat)
    (idx : nat) (todo : list pystr) (d : dispatch) : dispatch * option exn :=
  match todo with
  | [] => (d, None)
  | receiver_email :: rest =>
      let d := if progress_callback then emit (EvProgress idx total receiver_email) d else d in
      let message := single_message subject html atts receiver_email in
      let reply := http w (d_posts d) in
      let d := posted (emit (EvSendMail endpoint message) d) in
      let d :=
        match reply with
        | Response status_code text _ =>
            if (status_code =? 202)%Z then add_success receiver_email d
            else add_failure receiver_email
                   (lit "HTTP " ++ of_Z status_code ++ lit ": " ++ take 200 text) d
        | RequestException e =>
            add_failure receiver_email (lit "Error de conexión: " ++ e) d
        end in
      if (idx <? total)%nat then
        match sleep delay_between_emails d with
        | Ok d => bulk_loop w endpoint subject html atts progress_callback
                    delay_between_emails total (S idx) rest d
        | Raise e => (d, Some e)
        end
      else bulk_loop w endpoint subject html atts progress_callback
             delay_between_emails total (S idx) rest d
  end.

Definition send_mail_graph_bulk (w : world) (receivers : list pystr) (subject : pystr)
    (content_text : pystr) (content_html : option pystr)
    (attachments : option (list pystr)) (inline_images : bool)
    (progress_callback : bool) (delay_between_emails : Q)
    : res send_result * list event :=
  match receivers with
  | [] => (Ok (all_failed [] []), [])
  | _ =>
      match get_graph_config w with
      | None => (Ok (all_failed receivers (lit "Configuración incompleta")), [])
      | Some config =>
          if negb (truthy (get_access_token w))
          then (Ok (all_failed receivers (lit "No se pudo obtener token de acceso")), [])
          else
            match assemble w content_text content_html attachments inline_images with
            | Raise e => (Raise e, [])
            | Ok (html, processed_attachments) =>
                let '(d, stopped) :=
                  bulk_loop w (sendMail_endpoint config) subject html processed_attachments
                    progress_callback delay_between_emails (length receivers)
                    1 receivers d_start in
                match stopped with
                | Some e => (Raise e, d_trace d)
                | None => (Ok (result_of (length receivers) d), d_trace d)
                end
            end
      end
  end.

(** *** [send_mail_graph_batch] *)

Definition batch_endpoint : pystr := lit "https://graph.microsoft.com/v1.0/$batch".

(** Lines 613-637: the requests of one batch; [i] is the index of
    [enumerate], [email_index] the running count over all batches. *)
Fixpoint batch_requests_loop (sender subject html : pystr) (atts : list attachment)
    (progress_callback : bool) (total : nat) (batch_start : Z)
    (i : nat) (todo : list pystr) (email_index : nat) (acc : list batch_request)
    (d : dispatch) : list batch_request * nat * dispatch :=
  match todo with
  | [] => (acc, email_index, d)
  | receiver_email :: rest =>
      let email_index := S email_index in
      let d := if progress_callback
               then emit (EvProgress email_index total receiver_email) d else d in
      let request := {|
        req_id := of_Z (batch_start + Z.of_nat i);
        req_url := lit "/users/" ++ sender ++ lit "/sendMail";
        req_body := single_message subject html atts receiver_email |} in
      batch_requests_loop sender subject html atts progress_callback total batch_start
        (S i) rest email_index (acc ++ [request]) d
  end.

(** Lines 648-675: the per-request answers of a batch that came back with
    status 200, in the order the server lists them. *)
Fixpoint responses_loop (receivers : list pystr) (todo : list batch_item) (d : dispatch)
    : dispatch * option exn :=
  match todo with
  | [] => (d, None)
  | resp :: rest =>
      match item_id resp with
      | None => (d, Some KeyError)
      | Some request_id =>
          match py_index receivers request_id with
          | None => (d, Some IndexError)
          | Some receiver_email =>
              let status_code := default 500%Z (item_status resp) in
              if (status_code =? 202)%Z
              then responses_loop receivers rest (add_success receiver_email d)
              else
                let error_msg := default (lit "HTTP " ++ of_Z status_code)
                                   (item_error_message resp) in
                responses_loop receivers rest (add_failure receiver_email error_msg d)
          end
      end
  end.

Definition fail_all (emails : list pystr) (error : pystr) (d : dispatch) : dispatch :=
  foldl (fun d e => add_failure e error d) d emails.

(** Lines 608-689, one iteration per batch number. *)
Fixpoint batch_loop (w : world) (receivers : list pystr) (sender subject html : pystr)
    (atts : list attachment) (progress_callback : bool) (batch_size : Z)
    (batches_needed : Z) (todo : list nat) (email_index : nat) (d : dispatch)
    : dispatch * option exn :=
  match todo with
  | [] => (d, None)
  | batch_num :: rest =>
      let total := length receivers in
      let batch_start := (Z.of_nat batch_num * batch_size)%Z in
      let batch_end := Z.min (batch_start + batch_size) (Z.of_nat total) in
      let batch_receivers := py_slice receivers batch_start batch_end in
      let '(batch_requests, email_index, d) :=
        batch_requests_loop sender subject html atts progress_callback total batch_start
          0 batch_receivers email_index [] d in
      let reply := http w (d_posts d) in
      let d := posted (emit (EvBatch batch_endpoint batch_requests) d) in
      let '(d, stopped) :=
        match reply with
        | Response status_code text responses =>
            if (status_code =? 200)%Z
            then responses_loop receivers (default [] responses) d
            else (fail_all batch_receivers
                    (lit "Batch falló: HTTP " ++ of_Z status_code ++ lit " - " ++ take 200 text)
                    d, None)
        | RequestException e =>
            (fail_all batch_receivers (lit "Error de conexión en batch: " ++ e) d, None)
        end in
      match stopped with
      | Some e => (d, Some e)
      | None =>
          if (Z.of_nat batch_num <? batches_needed - 1)%Z then
            match sleep (1 # 2) d with
            | Ok d => batch_loop w receivers sender subject html atts progress_callback
                        batch_size batches_needed rest email_index d
            | Raise e => (d, Some e)
            end
          else batch_loop w receivers sender subject html atts progress_callback
                 batch_size batches_needed rest email_index d
      end
  end.

Definition send_mail_graph_batch (w : world) (receivers : list pystr) (subject : pystr)
    (content_text : pystr) (content_html : option pystr)
    (attachments : option (list pystr)) (inline_images : bool)
    (progress_callback : bool) (batch_size : Z)
    : res send_result * list event :=
  match receivers with
  | [] => (Ok (all_failed [] []), [])
  | _ =>
      match get_graph_config w with
      | None => (Ok (all_failed receivers (lit "Configuración incompleta")), [])
      | Some config =>
          if negb (truthy (get_access_token w))
          then (Ok (all_failed receivers (lit "No se pudo obtener token")), [])
          else
            match assemble w content_text content_html attachments inline_images with
            | Raise e => (Raise e, [])
            | Ok (html, processed_attachments) =>
                let total := Z.of_nat (length receivers) in
                if (batch_size =? 0)%Z then (Raise ZeroDivisionError, [])
                else
                  let batches_needed := ((total + batch_size - 1) / batch_size)%Z in
                  let '(d, stopped) :=
                    batch_loop w receivers (sender_email config) subject html
                      processed_attachments progress_callback batch_size batches_needed
                      (seq 0 (Z.to_nat batches_needed)) 0 d_start in
                  match stopped with
                  | Some e => (Raise e, d_trace d)
                  | None => (Ok (result_of (length receivers) d), d_trace d)
                  end
            end
      end
  end.

End WithRuntime.
End GraphMail.

(** ** [src/linkedin.py] *)

Module LinkedIn.
Import PyStr.

(** [round(x, 2)]: to the nearest hundredth, ties to the even one. *)
Definition round_half_even (q : Q) : Z :=
  let f := Qfloor q in
  match ((q - inject_Z f) ?= (1 # 2))%Q with
  | Lt => f
  | Gt => (f + 1)%Z
  | Eq => if Z.even f then f else (f + 1)%Z
  end.

Definition round2 (q : Q) : Q :=
  Qmake (round_half_even (q * 100)%Q) 100.

(** The attributes of a [LinkedInClient] the methods below read. *)
Record client := {
  author_urn : pystr;
  is_organization : bool;
  post_visibility : pystr;
  base_url : pystr
}.

(** *** [post] *)

Record media_entry := {
  media_status : pystr;
  media_asset : pystr
}.

(** The payload of [ugcPosts]; [ugc_media = None] is a [ShareContent]
    dictionary without the key ["media"]. *)
Record ugc_payload := {
  ugc_author : pystr;
  ugc_lifecycleState : pystr;
  ugc_text : pystr;
  ugc_shareMediaCategory : pystr;
  ugc_media : option (list media_entry);
  ugc_visibility : pystr
}.

Inductive post_event :=
| EvRegister (is_video : bool)
| EvUpload (upload_url file_path : pystr)
| EvUgcPost (payload : ugc_payload).

(** The LinkedIn side of [post]: the answer to the [n]-th asset registration
    (asset URN and upload URL) and to the [n]-th upload, and the answer to
    the final [ugcPosts] request (the decoded JSON, left opaque). *)
Record post_world := {
  register_reply : nat → res (pystr * pystr);
  upload_reply : nat → res unit;
  ugc_reply : res pystr
}.

(** Lines 122-125: one registration and one upload per image path; [n] is
    the number of images handled so far. *)
Fixpoint images_loop (w : post_world) (todo : list pystr) (n : nat)
    (asset_urns : list pystr) (trace : list post_event)
    : res (list pystr) * list post_event :=
  match todo with
  | [] => (Ok asset_urns, trace)
  | path :: rest =>
      let trace := trace ++ [EvRegister false] in
      match register_reply w n with
      | Raise e => (Raise e, trace)
      | Ok (asset_urn, upload_url) =>
          let trace := trace ++ [EvUpload upload_url path] in
          match upload_reply w n with
          | Raise e => (Raise e, trace)
          | Ok _ => images_loop w rest (S n) (asset_urns ++ [asset_urn]) trace
          end
      end
  end.

Definition ready (urn : pystr) : media_entry :=
  {| media_status := lit "READY"; media_asset := urn |}.

Definition text_given (v : option pystr) : bool :=
  match v with
  | Some (_ :: _) => true
  | _ => false
  end.

Definition list_given {A} (v : option (list A)) : bool :=
  match v with
  | Some (_ :: _) => true
  | _ => false
  end.

(** Lines 111-133: category and media list, with the uploads they need. *)
Definition choose_media (w : post_world) (image_paths : option (list pystr))
    (video_path : option pystr) : res (pystr * list media_entry) * list post_event :=
  if text_given video_path then
    let trace := [EvRegister true] in
    match register_reply w 0 with
    | Raise e => (Raise e, trace)
    | Ok (asset_urn, upload_url) =>
        let trace := trace ++ [EvUpload upload_url (default [] video_path)] in
        match upload_reply w 0 with
        | Raise e => (Raise e, trace)
        | Ok _ => (Ok (lit "VIDEO", [ready asset_urn]), trace)
        end
    end
  else if list_given image_paths then
    match images_loop w (default [] image_paths) 0 [] [] with
    | (Raise e, trace) => (Raise e, trace)
    | (Ok asset_urns, trace) => (Ok (lit "IMAGE", map ready asset_urns), trace)
    end
  else (Ok (lit "NONE", []), []).

Definition build_payload (c : client) (text media_category : pystr)
    (media_list : list media_entry) : ugc_payload :=
  let visibility := post_visibility c in
  let visibility :=
    if is_organization c && bool_decide (post_visibility c = lit "PUBLIC")
    then lit "PUBLIC" else visibility in
  {| ugc_author := author_urn c;
     ugc_lifecycleState := lit "PUBLISHED";
     ugc_text := text;
     ugc_shareMediaCategory := media_category;
     ugc_media := match media_list with [] => None | _ => Some media_list end;
     ugc_visibility := visibility |}.

Definition post (c : client) (w : post_world) (text : pystr)
    (image_paths : option (list pystr)) (video_path : option pystr)
    : res pystr * list post_event :=
  match choose_media w image_paths video_path with
  | (Raise e, trace) => (Raise e, trace)
  | (Ok (media_category, media_list), trace) =>
      let payload := build_payload c text media_category media_list in
      (ugc_reply w, trace ++ [EvUgcPost payload])
  end.

(** *** [get_post_metrics] *)

(** [post_ids] may be one string or a list of strings. *)
Inductive ids_arg :=
| IdsNone
| IdsStr (s : pystr)
| IdsList (l : list pystr).

(** Lines 235-239: [None] for a falsy argument, a one-element list for a
    string. *)
Definition normalise_ids (post_ids : ids_arg) : option (list pystr) :=
  match post_ids with
  | IdsNone | IdsStr [] | IdsList [] => None
  | IdsStr s => Some [s]
  | IdsList l => Some l
  end.

Definition is_share (pid : pystr) : bool := contains (lit "urn:li:share:") pid.

(** UTF-8 bytes of a code point, for [urllib.parse.quote]. *)
Definition utf8_encode (c : N) : list N :=
  if c <? 128 then [c]
  else if c <? 2048 then [192 + c / 64; 128 + c mod 64]
  else if c <? 65536 then [224 + c / 4096; 128 + (c / 64) mod 64; 128 + c mod 64]
  else [240 + c / 262144; 128 + (c / 4096) mod 64; 128 + (c / 64) mod 64; 128 + c mod 64].

Definition hex_digit (n : N) : N := if n <? 10 then 48 + n else 55 + n.

Definition quote_byte (b : N) : pystr :=
  if ((65 <=? b) && (b <=? 90)) || ((97 <=? b) && (b <=? 122))
     || ((48 <=? b) && (b <=? 57)) || mem b (lit "_.-~/")
  then [b] else [37; hex_digit (b / 16); hex_digit (b mod 16)].

(** [urllib.parse.quote(s)] *)
Definition quote (s : pystr) : pystr :=
  flat_map quote_byte (flat_map utf8_encode s).

Definition share_statistics_url (c : client) (valid_post_ids : list pystr) : pystr :=
  base_url c ++ lit "/organizationalEntityShareStatistics"
  ++ lit "?q=organizationalEntity"
  ++ lit "&organizationalEntity=" ++ quote (author_urn c)
  ++ lit "&shares=" ++ lit "List(" ++ join (lit ",") (map quote valid_post_ids) ++ lit ")".

(** One element of the answer: the share URN and its [totalShareStatistics]
    dictionary, either of which may be absent. *)
Record share_element := {
  el_share : option pystr;
  el_totalShareStatistics : option (gmap string Z)
}.

Inductive stats_reply :=
| StatsResponse (status_code : Z) (elements : list share_element)
| StatsException.

Record metrics_row := {
  row_post_id : option pystr;
  row_impresiones : Z;
  row_clics : Z;
  row_likes : Z;
  row_comentarios : Z;
  row_compartidos : Z;
  row_ER : Q
}.

(** [d.get(key, 0)] *)
Definition get0 (d : gmap string Z) (key : string) : Z := default 0%Z (d !! key).

(** Lines 275-293: the row computed for one element. *)
Definition row_of_element (item : share_element) : metrics_row :=
  let stats := default ∅ (el_totalShareStatistics item) in
  let imp := get0 stats "impressionCount" in
  let cli := get0 stats "clickCount" in
  let lik := get0 stats "likeCount" in
  let com := get0 stats "commentCount" in
  let sha := get0 stats "shareCount" in
  let er := if (0 <? imp)%Z
            then (inject_Z (lik + com + sha + cli) / inject_Z imp * 100)%Q
            else 0%Q in
  {| row_post_id := el_share item;
     row_impresiones := imp; row_clics := cli; row_likes := lik;
     row_comentarios := com; row_compartidos := sha;
     row_ER := round2 er |}.

(** Lines 243-254: the identifiers that are queried. *)
Definition valid_post_ids (post_ids : list pystr) : list pystr :=
  take 20 (List.filter is_share post_ids).

(** [get_post_metrics]: the rows of the data frame, or [None], together with
    the URLs requested. [server] answers the one GET request. *)
Definition get_post_metrics (c : client) (server : pystr → stats_reply)
    (post_ids : ids_arg) : option (list metrics_row) * list pystr :=
  match normalise_ids post_ids with
  | None => (None, [])
  | Some post_ids =>
      match List.filter is_share post_ids with
      | [] => (None, [])
      | _ =>
          let url := share_statistics_url c (valid_post_ids post_ids) in
          match server url with
          | StatsResponse status_code elements =>
              if (status_code =? 200)%Z
              then (Some (map row_of_element elements), [url])
              else (None, [url])
          | StatsException => (None, [url])
          end
      end
  end.

(** *** [get_post_metrics_advanced] *)

Record stat_element := {
  se_count : option Z;
  se_dateRange : pystr
}.

Inductive metric_reply :=
| MetricResponse (status_code : Z) (elements : list stat_element)
| MetricException.

(** The dictionary [post_metrics]: the identifier, the integer entries, and
    the [*_data] entries of a daily aggregation. *)
Record post_metrics := {
  pm_post_id : pystr;
  pm_counts : gmap string Z;
  pm_data : gmap string (Z * pystr)
}.

Record advanced_row := {
  adv_metrics : post_metrics;
  adv_ER : Q;
  adv_reach_rate : Q;
  adv_virality : Q;
  adv_total_engagement : Z
}.

Definition set_count (key : string) (v : Z) (pm : post_metrics) : post_metrics :=
  {| pm_post_id := pm_post_id pm; pm_counts := <[key := v]> (pm_counts pm);
     pm_data := pm_data pm |}.

Definition set_data (key : string) (v : Z * pystr) (pm : post_metrics) : post_metrics :=
  {| pm_post_id := pm_post_id pm; pm_counts := pm_counts pm;
     pm_data := <[key := v]> (pm_data pm) |}.

(** The metric types and their lower-case dictionary keys. *)
Definition metric_key (metric_type : string) : string :=
  if String.eqb metric_type "IMPRESSION" then "impression"
  else if String.eqb metric_type "REACTION" then "reaction"
  else if String.eqb metric_type "COMMENT" then "comment"
  else if String.eqb metric_type "RESHARE" then "reshare"
  else if String.eqb metric_type "CLICK_COUNT" then "click_count"
  else "members_reached".

Definition metrics_types (aggregation : string) : list string :=
  ["IMPRESSION"; "REACTION"; "COMMENT"; "RESHARE"; "CLICK_COUNT"]
  ++ (if String.eqb aggregation "TOTAL" then ["MEMBERS_REACHED"] else []).

(** Lines 710-729: what one answer does to [post_metrics]. *)
Definition record_metric (aggregation metric_type : string)
    (status_code : Z) (elements : list stat_element) (pm : post_metrics) : post_metrics :=
  if (status_code =? 200)%Z then
    match elements with
    | [] => pm
    | first :: _ =>
        if String.eqb aggregation "DAILY" && negb (String.eqb metric_type "MEMBERS_REACHED")
        then foldl (fun pm elem =>
                      set_data (metric_key metric_type ++ "_data")%string
                        (default 0%Z (se_count elem), se_dateRange elem) pm)
               pm elements
        else set_count (metric_key metric_type) (default 0%Z (se_count first)) pm
    end
  else set_count (metric_key metric_type) 0 pm.

(** Lines 692-729: the requests for one post; [n] numbers the GET requests of
    the whole call. *)
Fixpoint metrics_loop (server : nat → metric_reply) (aggregation : string)
    (todo : list string) (n : nat) (pm : post_metrics) : option (post_metrics * nat) :=
  match todo with
  | [] => Some (pm, n)
  | metric_type :: rest =>
      match server n with
      | MetricException => None
      | MetricResponse status_code elements =>
          metrics_loop server aggregation rest (S n)
            (record_metric aggregation metric_type status_code elements pm)
      end
  end.

(** Lines 732-754: the derived figures of one post. *)
Definition derive (pm : post_metrics) : advanced_row :=
  let impressions := get0 (pm_counts pm) "impression" in
  let members_reached := default impressions (pm_counts pm !! "members_reached") in
  let reactions := get0 (pm_counts pm) "reaction" in
  let comments := get0 (pm_counts pm) "comment" in
  let reshares := get0 (pm_counts pm) "reshare" in
  let clicks := get0 (pm_counts pm) "click_count" in
  let total_engagement := (reactions + comments + reshares + clicks)%Z in
  let rate (x : Z) := if (0 <? impressions)%Z
                      then (inject_Z x / inject_Z impressions * 100)%Q else 0%Q in
  {| adv_metrics := pm;
     adv_ER := round2 (rate total_engagement);
     adv_reach_rate := round2 (rate members_reached);
     adv_virality := round2 (rate reshares);
     adv_total_engagement := total_engagement |}.

Fixpoint posts_loop (server : nat → metric_reply) (aggregation : string)
    (todo : list pystr) (n : nat) (all_metrics : list advanced_row)
    : option (list advanced_row) :=
  match todo with
  | [] => Some all_metrics
  | post_id :: rest =>
      let pm := {| pm_post_id := post_id; pm_counts := ∅; pm_data := ∅ |} in
      match metrics_loop server aggregation (metrics_types aggregation) n pm with
      | None => None
      | Some (pm, n) =>
          posts_loop server aggregation rest n (all_metrics ++ [derive pm])
      end
  end.

Definition get_post_metrics_advanced (server : nat → metric_reply)
    (post_ids : ids_arg) (aggregation : string) : option (list advanced_row) :=
  match normalise_ids post_ids with
  | None => None
  | Some post_ids => posts_loop server aggregation (take 20 post_ids) 0 []
  end.

End LinkedIn.

(** ** [scripts/auto_analytics.py] *)

Module AutoAnalytics.
Import PyStr.

(** The two tables. Times are opaque integers. *)
Record LinkedInMetric := {
  lm_post_id : pystr;
  lm_post_date : option Z;
  lm_post_text : pystr;
  lm_post_type : pystr;
  lm_impresiones : Z;
  lm_clics : Z;
  lm_likes : Z;
  lm_comentarios : Z;
  lm_compartidos : Z;
  lm_engagement_rate : Q;
  lm_collected_at : Z
}.

Record LinkedInFollowerMetric := {
  fm_date : Z;
  fm_ganancia_organica : Z;
  fm_ganancia_pagada : Z;
  fm_ganancia_total : Z;
  fm_collected_at : Z
}.

Record database := {
  linkedin_metrics : list LinkedInMetric;
  linkedin_follower_metrics : list LinkedInFollowerMetric
}.

(** A SQLAlchemy session on a transactional database: [stored] is what is
    committed, [working] is what the open transaction sees (added and
    changed objects are flushed before each query), [db_ops] counts the
    statements sent so far. *)
Record session := {
  stored : database;
  working : database;
  db_ops : nat
}.

(** What the collectors read from outside: the clock, [strptime] with the
    format ['%Y-%m-%d %H:%M'], and which database statements fail. *)
Record environment := {
  utcnow : Z;
  strptime : pystr → option Z;
  db_fault : nat → bool
}.

(** Computations on a session that may raise. *)
Definition M (A : Type) : Type := session → res A * session.

Definition ret {A} (a : A) : M A := fun s => (Ok a, s).
Definition raise {A} (e : exn) : M A := fun s => (Raise e, s).
Definition bind {A B} (m : M A) (k : A → M B) : M B :=
  fun s => match m s with
           | (Ok a, s') => k a s'
           | (Raise e, s') => (Raise e, s')
           end.

Notation "'do' x <- m ; k" := (bind m (fun x => k))
  (at level 10, x name, m at level 99, k at level 200).
Notation "m ;> k" := (bind m (fun _ => k))
  (at level 100, k at level 200, right associativity).

(** A statement reaches the database: it fails when the environment says so. *)
Definition statement (env : environment) : M unit :=
  fun s =>
    let s' := {| stored := stored s; working := working s; db_ops := S (db_ops s) |} in
    if db_fault env (db_ops s) then (Raise DBError, s') else (Ok tt, s').

Definition update_working (f : database → database) : M unit :=
  fun s => (Ok tt, {| stored := stored s; working := f (working s); db_ops := db_ops s |}).

(** [session.commit()] *)
Definition commit (env : environment) : M unit :=
  statement env ;>
  fun s => (Ok tt, {| stored := working s; working := working s; db_ops := db_ops s |}).

(** [session.rollback()] *)
Definition rollback (s : session) : session :=
  {| stored := stored s; working := stored s; db_ops := db_ops s |}.

(** [int(x)] on a cell that may hold no number *)
Definition to_int (cell : option Z) : M Z :=
  match cell with
  | Some z => ret z
  | None => raise ValueError
  end.

(** *** [collect_linkedin_metrics] *)

(** One dictionary of [get_recent_posts_details]. *)
Record post_detail := {
  pd_post_id : pystr;
  pd_fecha : option pystr;
  pd_texto_completo : option pystr;
  pd_texto_corto : option pystr;
  pd_tipo : option pystr
}.

Record linkedin_api := {
  api_client : LinkedIn.client;
  recent_posts_details : list post_detail;
  share_server : pystr → LinkedIn.stats_reply;
  (** [get_follower_growth]: [None], or the rows of the data frame *)
  follower_growth : option (list (Z * option Z * option Z * option Z))
}.

Definition add_metric (m : LinkedInMetric) (db : database) : database :=
  {| linkedin_metrics := linkedin_metrics db ++ [m];
     linkedin_follower_metrics := linkedin_follower_metrics db |}.

Definition new_metric_of (env : environment) (post : post_detail)
    (metrics : LinkedIn.metrics_row) : LinkedInMetric :=
  let post_date :=
    match pd_fecha post with
    | Some (c :: f) => strptime env (c :: f)
    | _ => None
    end in
  {| lm_post_id := pd_post_id post;
     lm_post_date := post_date;
     lm_post_text := default (default [] (pd_texto_corto post)) (pd_texto_completo post);
     lm_post_type := default (lit "Desconocido") (pd_tipo post);
     lm_impresiones := LinkedIn.row_impresiones metrics;
     lm_clics := LinkedIn.row_clics metrics;
     lm_likes := LinkedIn.row_likes metrics;
     lm_comentarios := LinkedIn.row_comentarios metrics;
     lm_compartidos := LinkedIn.row_compartidos metrics;
     lm_engagement_rate := LinkedIn.row_ER metrics;
     lm_collected_at := utcnow env |}.

(** Lines 143-200. The query for the existing record only feeds the log; it
    is kept because it is a statement that can fail. *)
Fixpoint metrics_loop (env : environment) (df_metrics : list LinkedIn.metrics_row)
    (todo : list post_detail) (metrics_saved : nat) : M nat :=
  match todo with
  | [] => ret metrics_saved
  | post :: rest =>
      let post_id := pd_post_id post in
      match List.filter (fun r => bool_decide (LinkedIn.row_post_id r = Some post_id))
              df_metrics with
      | [] => metrics_loop env df_metrics rest metrics_saved
      | metrics :: _ =>
          statement env ;>
          update_working (add_metric (new_metric_of env post metrics)) ;>
          metrics_loop env df_metrics rest (S metrics_saved)
      end
  end.

(** The [try] block of [collect_linkedin_metrics]. *)
Definition collect_linkedin_metrics_try (env : environment) (api : linkedin_api)
    : M nat :=
  match recent_posts_details api with
  | [] => ret 0%nat
  | posts_data =>
      let post_ids := map pd_post_id posts_data in
      match fst (LinkedIn.get_post_metrics (api_client api) (share_server api)
                   (LinkedIn.IdsList post_ids)) with
      | None | Some [] => ret 0%nat
      | Some df_metrics =>
          do metrics_saved <- metrics_loop env df_metrics posts_data 0;
          commit env ;>
          ret metrics_saved
      end
  end.

(** The whole function: [except Exception] rolls back and returns 0. *)
Definition collect_linkedin_metrics (env : environment) (api : linkedin_api)
    (s : session) : nat * session :=
  match collect_linkedin_metrics_try env api s with
  | (Ok n, s') => (n, s')
  | (Raise _, s') => (0%nat, rollback s')
  end.

(** *** [collect_follower_growth] *)

(** [filter_by(date=fecha).first()]: the position of the first record of that
    day, if there is one. *)
Fixpoint find_day (fecha : Z) (l : list LinkedInFollowerMetric) : option nat :=
  match l with
  | [] => None
  | r :: t => if (fm_date r =? fecha)%Z then Some 0%nat else S <$> find_day fecha t
  end.

Definition alter_follower (i : nat) (f : LinkedInFollowerMetric → LinkedInFollowerMetric)
    (db : database) : database :=
  {| linkedin_metrics := linkedin_metrics db;
     linkedin_follower_metrics := alter f i (linkedin_follower_metrics db) |}.

Definition add_follower (r : LinkedInFollowerMetric) (db : database) : database :=
  {| linkedin_metrics := linkedin_metrics db;
     linkedin_follower_metrics := linkedin_follower_metrics db ++ [r] |}.

Definition set_organica (v : Z) (r : LinkedInFollowerMetric) : LinkedInFollowerMetric :=
  {| fm_date := fm_date r; fm_ganancia_organica := v;
     fm_ganancia_pagada := fm_ganancia_pagada r; fm_ganancia_total := fm_ganancia_total r;
     fm_collected_at := fm_collected_at r |}.

Definition set_pagada (v : Z) (r : LinkedInFollowerMetric) : LinkedInFollowerMetric :=
  {| fm_date := fm_date r; fm_ganancia_organica := fm_ganancia_organica r;
     fm_ganancia_pagada := v; fm_ganancia_total := fm_ganancia_total r;
     fm_collected_at := fm_collected_at r |}.

Definition set_total (v : Z) (r : LinkedInFollowerMetric) : LinkedInFollowerMetric :=
  {| fm_date := fm_date r; fm_ganancia_organica := fm_ganancia_organica r;
     fm_ganancia_pagada := fm_ganancia_pagada r; fm_ganancia_total := v;
     fm_collected_at := fm_collected_at r |}.

Definition set_collected_at (v : Z) (r : LinkedInFollowerMetric) : LinkedInFollowerMetric :=
  {| fm_date := fm_date r; fm_ganancia_organica := fm_ganancia_organica r;
     fm_ganancia_pagada := fm_ganancia_pagada r; fm_ganancia_total := fm_ganancia_total r;
     fm_collected_at := v |}.

(** Lines 235-258. *)
Fixpoint growth_loop (env : environment)
    (todo : list (Z * option Z * option Z * option Z)) (records_saved : nat) : M nat :=
  match todo with
  | [] => ret records_saved
  | (fecha, organica, pagada, total) :: rest =>
      statement env ;>
      fun s =>
        match find_day fecha (linkedin_follower_metrics (working s)) with
        | Some i =>
            (do o <- to_int organica;
             update_working (alter_follower i (set_organica o)) ;>
             do p <- to_int pagada;
             update_working (alter_follower i (set_pagada p)) ;>
             do t <- to_int total;
             update_working (alter_follower i (set_total t)) ;>
             update_working (alter_follower i (set_collected_at (utcnow env))) ;>
             growth_loop env rest records_saved) s
        | None =>
            (do o <- to_int organica;
             do p <- to_int pagada;
             do t <- to_int total;
             update_working (add_follower
               {| fm_date := fecha; fm_ganancia_organica := o; fm_ganancia_pagada := p;
                  fm_ganancia_total := t; fm_collected_at := utcnow env |}) ;>
             growth_loop env rest (S records_saved)) s
        end
  end.

(** The [try] block of [collect_follower_growth]. *)
Definition collect_follower_growth_try (env : environment) (api : linkedin_api)
    : M nat :=
  match follower_growth api with
  | None | Some [] => ret 0%nat
  | Some df_growth =>
      do records_saved <- growth_loop env df_growth 0;
      commit env ;>
      ret records_saved
  end.

Definition collect_follower_growth (env : environment) (api : linkedin_api)
    (s : session) : nat * session :=
  match collect_follower_growth_try env api s with
  | (Ok n, s') => (n, s')
  | (Raise _, s') => (0%nat, rollback s')
  end.

End AutoAnalytics.

(** ** [src/utils.py], further functions *)

(** [c.isdigit()] on one code point is a table of the interpreter; it enters
    as an interface. *)
Class PyChars := {
  str_isdigit : N → bool
}.

Module UtilsMore.
Import PyStr Utils.

Section WithChars.
Context `{D : PyChars}.

(** Lines 224-225: quotes and brackets off both ends, then white space. *)
Definition clean_phone (phone : pystr) : pystr :=
  strip (strip_chars (litq "`'()[]{}") phone).

(** Lines 222-229: [any(c.isdigit() for c in phone)] is the test. *)
Definition cleaned_phones (phones : list pystr) : list pystr :=
  List.filter (fun p => nonempty p && existsb str_isdigit p) (map clean_phone phones).

(** Lines 186-237. The first part, up to the list of candidates, is the text
    of [clean_and_split_emails] word for word; so is the last loop. *)
Definition clean_and_split_phones (raw_value : pyarg) : list pystr :=
  match raw_value with
  | PyStr raw =>
      if nonempty raw then
        let cleaned := prepare raw in
        if nonempty cleaned
        then unique_loop ∅ [] (cleaned_phones (candidates cleaned))
        else []
      else []
  | _ => []
  end.

End WithChars.

(** [s.split(sep)[0]]: the text before the first [sep]. *)
Fixpoint before_first (sep s : pystr) : pystr :=
  if startswith sep s then []
  else match s with
       | [] => []
       | c :: t => c :: before_first sep t
       end.

Section WithRuntime.
Context `{R : PyRuntime}.

(** Lines 375-383. *)
Definition get_logo_path (platform_name : pystr) : pystr :=
  let base_platform := before_first (lit " (") platform_name in
  lit "assets/logos/" ++ str_lower base_platform ++ lit ".png".

End WithRuntime.
End UtilsMore.

(** ** [src/linkedin.py], [get_follower_growth] *)

(** What the model takes from pandas: [df.sort_values(by)] on a column of
    dates (its default sorting algorithm promises no order among equal
    keys), and [pd.to_datetime(ms, unit='ms').date()] as a day number,
    [None] when pandas raises for a time out of its range. *)
Class Pandas := {
  sort_values : ∀ {A : Type}, (A → Z) → list A → list A;
  to_date : Z → option Z
}.


Module FollowerGrowth.

(** One element of the answer: [timeRange.start] and the two gains, each of
    which may be missing. *)
Record growth_element := {
  ge_start : option Z;
  ge_organic : option Z;
  ge_paid : option Z
}.

Inductive growth_reply :=
| GrowthResponse (status_code : Z) (elements : list growth_element)
| GrowthException.

(** A row of the data frame before and after the running sum is added. *)
Record growth_gain := {
  fecha : Z;
  ganancia_organica : Z;
  ganancia_pagada : Z;
  ganancia_total : Z
}.

Record growth_row := {
  gain : growth_gain;
  seguidores_acumulados : Z
}.

Section WithPandas.
Context `{P : Pandas}.

(** Lines 881-898: the rows for the elements that have a start time;
    [None] when a date cannot be built. *)
Fixpoint gains_loop (elements : list growth_element) (data : list growth_gain)
    : option (list growth_gain) :=
  match elements with
  | [] => Some data
  | elem :: rest =>
      let start_ms := default 0%Z (ge_start elem) in
      if (start_ms =? 0)%Z then gains_loop rest data
      else match to_date start_ms with
           | None => None
           | Some date =>
               let organic := default 0%Z (ge_organic elem) in
               let paid := default 0%Z (ge_paid elem) in
               let total_gain := (organic + paid)%Z in
               gains_loop rest
                 (data ++ [ {| fecha := date; ganancia_organica := organic;
                               ganancia_pagada := paid;
                               ganancia_total := total_gain |} ])
           end
  end.

(** [df['ganancia_total'].cumsum()] *)
Fixpoint cumsum (acc : Z) (l : list growth_gain) : list growth_row :=
  match l with
  | [] => []
  | g :: t =>
      let acc := (acc + ganancia_total g)%Z in
      {| gain := g; seguidores_acumulados := acc |} :: cumsum acc t
  end.

(** Lines 862-911, given the answer to the one request. *)
Definition get_follower_growth (reply : growth_reply) : option (list growth_row) :=
  match reply with
  | GrowthResponse status_code elements =>
      if (status_code =? 200)%Z then
        match gains_loop elements [] with
        | None => None
        | Some [] => None
        | Some data => Some (cumsum 0 (sort_values fecha data))
        end
      else None
  | GrowthException => None
  end.

End WithPandas.
End FollowerGrowth.

(** ** [scripts/auto_analytics.py], [run_analytics_cycle] *)

Module AnalyticsCycle.
Import AutoAnalytics.


End AnalyticsCycle.

(** ** [src/ui_components.py], the Gmail branch of [display_posts] *)

Module UIComponents.
Import GraphMail.

Section WithRuntime.
Context `{R : PyRuntime}.

(** Lines 462-478: [envio_exitoso] after the branch, and what went out.
    [send_mail] is [send_mail_graph]. *)
Definition publish_gmail (w : world) (contacts : list pystr) (asunto text : pystr)
    (content_html : option pystr) (all_attachments : list pystr) (inline_opt : bool)
    : bool * list event :=
  if (1 <? length contacts)%nat then
    match send_mail_graph_batch w contacts asunto text content_html
            (Some all_attachments) inline_opt false 20 with
    | (Ok result, trace) => ((0 <? successful result)%nat, trace)
    | (Raise _, trace) => (false, trace)
    end
  else
    match send_mail_graph w contacts asunto text content_html
            (Some all_attachments) [] [] inline_opt with
    | (Ok _, trace) => (true, trace)
    | (Raise _, trace) => (false, trace)
    end.

End WithRuntime.
End UIComponents.

(** * Properties *)

Import PyStr.

(** ** Facts about the string operations *)

Section StringFacts.

Lemma startswith_app (p s t : pystr) :
  startswith p s = true → startswith p (s ++ t) = true.
Proof.
  revert s. induction p as [|a p IH]; intros [|b s]; simpl; try done.
  intros [-> H]%andb_true_iff. by rewrite IH.
Qed.

(** A pattern that matches at the head of [a ++ c :: b] and does not hold
    [c] lies inside [a]. *)
Lemma startswith_before_sep (p a b : pystr) (c : N) :
  mem c p = false → startswith p (a ++ c :: b) = true →
  startswith p a = true ∧ (length p ≤ length a)%nat.
Proof.
  revert a. induction p as [|x p IH]; intros a Hc H.
  - split; [done | simpl; lia].
  - simpl in Hc. apply orb_false_iff in Hc as [Hx Hp].
    destruct a as [|y a]; simpl in H.
    + apply andb_true_iff in H as [H _]. apply N.eqb_eq in H. subst.
      by rewrite N.eqb_refl in Hx.
    + apply andb_true_iff in H as [Hxy H].
      destruct (IH a Hp H) as [H1 H2]. simpl. rewrite Hxy, H1. split; [done | lia].
Qed.

Lemma contains_cons (sub : pystr) (c : N) (s : pystr) :
  contains sub (c :: s) = startswith sub (c :: s) || contains sub s.
Proof. reflexivity. Qed.

Lemma contains_app_l (sub a b : pystr) :
  contains sub a = true → contains sub (a ++ b) = true.
Proof.
  induction a as [|x a IH].
  - simpl. rewrite orb_false_r. intros H. destruct sub; [|done].
    destruct b; reflexivity.
  - change ((x :: a) ++ b) with (x :: (a ++ b)). rewrite !contains_cons.
    intros [H|H]%orb_true_iff.
    + apply (startswith_app _ _ b) in H.
      change ((x :: a) ++ b) with (x :: (a ++ b)) in H. by rewrite H.
    + rewrite (IH H). apply orb_true_r.
Qed.

Lemma contains_app_r (sub a b : pystr) :
  contains sub b = true → contains sub (a ++ b) = true.
Proof.
  intros H. induction a as [|x a IH]; [done|].
  change ((x :: a) ++ b) with (x :: (a ++ b)).
  rewrite contains_cons, IH. apply orb_true_r.
Qed.

Lemma contains_app_false (sub a b : pystr) :
  contains sub (a ++ b) = false →
  contains sub a = false ∧ contains sub b = false.
Proof.
  intros H. split.
  - destruct (contains sub a) eqn:E; [|done].
    by rewrite (contains_app_l _ _ b E) in H.
  - destruct (contains sub b) eqn:E; [|done].
    by rewrite (contains_app_r _ a _ E) in H.
Qed.

Lemma count_from_cons0 (sub : pystr) (c : N) (t : pystr) :
  count_from sub 0 (c :: t) =
  if startswith sub (c :: t) then S (count_from sub (length sub - 1) t)
  else count_from sub 0 t.
Proof. reflexivity. Qed.

(** No occurrence, nothing to count. *)
Lemma count_absent (sub s : pystr) :
  contains sub s = false → count sub s = 0%nat.
Proof.
  unfold count. induction s as [|c s IH]; [done|].
  rewrite contains_cons, count_from_cons0.
  intros [-> H]%orb_false_iff. auto.
Qed.

(** An occurrence is counted. *)
Lemma count_present (sub s : pystr) :
  sub ≠ [] → contains sub s = true → (1 ≤ count sub s)%nat.
Proof.
  intros Hsub. unfold count. induction s as [|c s IH].
  - destruct sub; done.
  - rewrite contains_cons, count_from_cons0.
    destruct (startswith sub (c :: s)); simpl; [lia | auto].
Qed.

(** Counting splits at a character the pattern does not hold. *)
Lemma count_from_app_sep (sub a b : pystr) (c : N) (k : nat) :
  mem c sub = false → (k ≤ length a)%nat →
  count_from sub k (a ++ c :: b) =
  (count_from sub k a + count_from sub 0 (c :: b))%nat.
Proof.
  intros Hc. revert k. induction a as [|x a IH]; intros k Hk.
  - simpl in Hk. by replace k with 0%nat by lia.
  - destruct k as [|k].
    + change ((x :: a) ++ c :: b) with (x :: (a ++ c :: b)).
      rewrite !count_from_cons0.
      destruct (startswith sub (x :: (a ++ c :: b))) eqn:E.
      * destruct (startswith_before_sep sub (x :: a) b c Hc E) as [E1 HL].
        rewrite E1, IH; [done | simpl in HL; lia].
      * destruct (startswith sub (x :: a)) eqn:E1.
        { apply (startswith_app _ _ (c :: b)) in E1.
          change ((x :: a) ++ c :: b) with (x :: (a ++ c :: b)) in E1. congruence. }
        apply IH. lia.
    + simpl. apply IH. simpl in Hk. lia.
Qed.

Lemma search_ci_split (p s pre m post : pystr) :
  search_ci p s = Some (pre, m, post) → s = pre ++ m ++ post.
Proof.
  revert pre. induction s as [|c s IH]; intros pre; simpl.
  - destruct (startswith_ci p []); [|done].
    intros [= <- <- <-]. by destruct p.
  - destruct (startswith_ci p (c :: s)).
    + intros [= <- <- <-]. simpl. by rewrite take_drop.
    + destruct (search_ci p s) as [[[pre' m'] post']|]; [|done].
      intros [= <- <- <-]. simpl. f_equal. by apply IH.
Qed.

End StringFacts.

(** ** The footer *)

Section Footer.
Import GraphMail.

Definition NEWLINE : N := 10.

Lemma marker_nonempty : FOOTER_MARKER_TEXT ≠ [].
Proof. by vm_compute. Qed.

Lemma marker_no_newline : mem NEWLINE FOOTER_MARKER_TEXT = false.
Proof. by vm_compute. Qed.

(** The template handed to [re.sub] has no escape sequence in it. *)
Lemma EMAIL_FOOTER_plain : mem 92 EMAIL_FOOTER = false.
Proof. by vm_compute. Qed.

(** The footer is one line break, text with the marker once, one line break. *)
Lemma EMAIL_FOOTER_shape :
  ∃ inner, EMAIL_FOOTER = NEWLINE :: inner ++ [NEWLINE]
           ∧ count FOOTER_MARKER_TEXT (NEWLINE :: inner) = 1%nat.
Proof.
  exists (removelast (tail EMAIL_FOOTER)). split; by vm_compute.
Qed.

Lemma count_skip_newline (s : pystr) :
  count FOOTER_MARKER_TEXT (NEWLINE :: s) = count FOOTER_MARKER_TEXT s.
Proof. reflexivity. Qed.

(** Putting the footer between two texts without marker gives one marker. *)
Lemma count_footer_between (pre post : pystr) :
  contains FOOTER_MARKER_TEXT (pre ++ post) = false →
  count FOOTER_MARKER_TEXT (pre ++ EMAIL_FOOTER ++ post) = 1%nat.
Proof.
  intros [Hpre Hpost]%contains_app_false.
  destruct EMAIL_FOOTER_shape as (inner & -> & Hone).
  unfold count in *.
  change (pre ++ (NEWLINE :: inner ++ [NEWLINE]) ++ post)
    with (pre ++ NEWLINE :: ((inner ++ [NEWLINE]) ++ post)).
  rewrite count_from_app_sep by (apply marker_no_newline || lia).
  fold (count FOOTER_MARKER_TEXT pre). rewrite (count_absent _ _ Hpre).
  replace (NEWLINE :: (inner ++ [NEWLINE]) ++ post)
    with ((NEWLINE :: inner) ++ NEWLINE :: post)
    by (simpl; by rewrite <- app_assoc).
  rewrite count_from_app_sep by (apply marker_no_newline || lia).
  rewrite Hone.
  fold (count FOOTER_MARKER_TEXT (NEWLINE :: post)).
  by rewrite count_skip_newline, (count_absent _ _ Hpost).
Qed.

Lemma footer_has_marker : contains FOOTER_MARKER_TEXT EMAIL_FOOTER = true.
Proof. by vm_compute. Qed.

(** What [ensure_footer_once] does to an HTML text without marker: the footer
    goes in at one place, everything else stays. *)
Lemma ensure_footer_once_absent (html : pystr) :
  contains FOOTER_MARKER_TEXT html = false →
  ∃ pre post, html = pre ++ post
              ∧ ensure_footer_once html = pre ++ EMAIL_FOOTER ++ post.
Proof.
  intros H. unfold ensure_footer_once. rewrite H.
  destruct (search_ci BODY_CLOSE html) as [[[pre m] post]|] eqn:E.
  - exists pre, (m ++ post). split; [by apply search_ci_split in E | done].
  - exists html, []. by rewrite !app_nil_r.
Qed.

Lemma ensure_footer_once_present (html : pystr) :
  contains FOOTER_MARKER_TEXT html = true → ensure_footer_once html = html.
Proof. intros H. unfold ensure_footer_once. by rewrite H. Qed.

Lemma ensure_footer_once_contains (html : pystr) :
  contains FOOTER_MARKER_TEXT (ensure_footer_once html) = true.
Proof.
  destruct (contains FOOTER_MARKER_TEXT html) eqn:E.
  - by rewrite ensure_footer_once_present.
  - destruct (ensure_footer_once_absent html E) as (pre & post & _ & ->).
    apply contains_app_r, contains_app_l, footer_has_marker.
Qed.

Lemma ensure_footer_once_count (html : pystr) :
  count FOOTER_MARKER_TEXT (ensure_footer_once html)
  = Nat.max 1 (count FOOTER_MARKER_TEXT html).
Proof.
  destruct (contains FOOTER_MARKER_TEXT html) eqn:E.
  - rewrite ensure_footer_once_present by done.
    pose proof (count_present _ _ marker_nonempty E). lia.
  - destruct (ensure_footer_once_absent html E) as (pre & post & Hs & ->).
    rewrite (count_absent _ _ E). subst html.
    by rewrite count_footer_between.
Qed.

End Footer.

(** ** The footer in the message of [send_mail_graph] *)

Section FooterInMessage.
Import GraphMail.
Context `{R : PyRuntime}.

(** Whatever [send_mail_graph] posts carries the HTML of [assemble]. *)
Lemma send_mail_graph_body (w : world) receivers subject content_text content_html
    attachments cc bcc inline_images endpoint (m : message) :
  EvSendMail endpoint m ∈
    (send_mail_graph w receivers subject content_text content_html attachments
       cc bcc inline_images).2 →
  ∃ html atts,
    html_with_images w content_text content_html attachments inline_images
      = Ok (html, atts)
    ∧ msg_body m = ensure_footer_once html.
Proof.
  unfold send_mail_graph, assemble.
  destruct (get_graph_config w); [|by intros ?%elem_of_nil].
  destruct receivers; [by intros ?%elem_of_nil|].
  destruct (negb _); [by intros ?%elem_of_nil|].
  destruct (html_with_images _ _ _ _ _) as [[html atts]|e]; simpl;
    [|by intros ?%elem_of_nil].
  intros Hin. exists html, atts. split; [done|].
  destruct (http w 0); simpl in Hin;
    apply list_elem_of_singleton in Hin; by inversion Hin.
Qed.

End FooterInMessage.

(** A world in which everything is configured and every request is accepted. *)
Definition accepting_world : GraphMail.world := {|
  GraphMail.getenv := fun _ => Some (lit "set");
  GraphMail.msal_installed := true;
  GraphMail.token_reply := Some (lit "token");
  GraphMail.fs := {| GraphMail.file_exists := fun _ => false;
                     GraphMail.file_base64 := fun _ => None;
                     GraphMail.uuid4 := fun _ => [] |};
  GraphMail.http := fun _ => GraphMail.Response 202 [] None
|}.

Definition two_markers : pystr := lit "<p>PIES-DE-EMAIL</p><p>PIES-DE-EMAIL</p>".

Example send_mail_graph_plain_text :
  ∃ endpoint m,
    (@GraphMail.send_mail_graph ascii_runtime accepting_world [lit "ana@example.org"]
       (lit "Hola") (lit "linea 1") None None [] [] false).2
      = [GraphMail.EvSendMail endpoint m]
    ∧ count GraphMail.FOOTER_MARKER_TEXT (GraphMail.msg_body m) = 1%nat.
Proof. eexists _, _. split; [reflexivity | by vm_compute]. Qed.

(** C4, refuted as stated: an HTML body that already holds the marker twice
    is sent unchanged, so the message of [send_mail_graph] holds two markers
    and not exactly one. *)
Lemma footer_marker_not_always_once :
  ¬ (∀ (R : PyRuntime) (w : GraphMail.world) receivers subject content_text content_html
       attachments cc bcc inline_images endpoint (m : GraphMail.message),
       GraphMail.EvSendMail endpoint m ∈
         (GraphMail.send_mail_graph w receivers subject content_text content_html
            attachments cc bcc inline_images).2 →
       count GraphMail.FOOTER_MARKER_TEXT (GraphMail.msg_body m) = 1%nat).
Proof.
  intros H.
  pose (m := {| GraphMail.msg_subject := lit "Hola"; GraphMail.msg_body := two_markers;
                GraphMail.msg_toRecipients := [lit "ana@example.org"];
                GraphMail.msg_ccRecipients := None; GraphMail.msg_bccRecipients := None;
                GraphMail.msg_attachments := None |}).
  specialize (H ascii_runtime accepting_world [lit "ana@example.org"] (lit "Hola") []
                (Some two_markers) None [] [] false
                (GraphMail.sendMail_endpoint
                   {| GraphMail.client_id := lit "set"; GraphMail.tenant_id := lit "set";
                      GraphMail.client_secret := lit "set";
                      GraphMail.sender_email := lit "set" |}) m).
  assert (count GraphMail.FOOTER_MARKER_TEXT (GraphMail.msg_body m) = 2%nat) as H2
    by (by vm_compute).
  rewrite H in H2; [discriminate|].
  vm_compute. apply list_elem_of_here.
Qed.

(** C4, amended. [ensure_footer_once] leaves an HTML text that holds the
    marker as it is and puts the footer into one that does not, at one place
    and with exactly one marker as the result; the message body of
    [send_mail_graph] is [ensure_footer_once] of the HTML with the inline
    images, so it holds the marker at least once, and exactly once unless
    that HTML already held it more than once; [ensure_footer_once] applied to
    its own output changes nothing. *)
Theorem ensure_footer_once_amended `{R : PyRuntime} :
  (∀ html, contains GraphMail.FOOTER_MARKER_TEXT html = true →
           GraphMail.ensure_footer_once html = html)
  ∧ (∀ html, contains GraphMail.FOOTER_MARKER_TEXT html = false →
       (∃ pre post, html = pre ++ post
          ∧ GraphMail.ensure_footer_once html = pre ++ GraphMail.EMAIL_FOOTER ++ post)
       ∧ count GraphMail.FOOTER_MARKER_TEXT (GraphMail.ensure_footer_once html) = 1%nat)
  ∧ (∀ (w : GraphMail.world) receivers subject content_text content_html attachments
       cc bcc inline_images endpoint (m : GraphMail.message),
       GraphMail.EvSendMail endpoint m ∈
         (GraphMail.send_mail_graph w receivers subject content_text content_html
            attachments cc bcc inline_images).2 →
       ∃ html atts,
         GraphMail.html_with_images w content_text content_html attachments inline_images
           = Ok (html, atts)
         ∧ GraphMail.msg_body m = GraphMail.ensure_footer_once html
         ∧ count GraphMail.FOOTER_MARKER_TEXT (GraphMail.msg_body m)
           = Nat.max 1 (count GraphMail.FOOTER_MARKER_TEXT html))
  ∧ (∀ html, GraphMail.ensure_footer_once (GraphMail.ensure_footer_once html)
             = GraphMail.ensure_footer_once html).
Proof.
  split; [apply ensure_footer_once_present|].
  split.
  { intros html H. split; [by apply ensure_footer_once_absent|].
    rewrite ensure_footer_once_count, (count_absent _ _ H). done. }
  split.
  { intros w receivers subject content_text content_html attachments cc bcc
      inline_images endpoint m Hin.
    destruct (send_mail_graph_body _ _ _ _ _ _ _ _ _ _ _ Hin) as (html & atts & H1 & H2).
    exists html, atts. split; [done|]. split; [done|].
    rewrite H2. apply ensure_footer_once_count. }
  intros html. apply ensure_footer_once_present, ensure_footer_once_contains.
Qed.

(** ** [clean_and_split_emails] *)

Section CleanEmails.
Import Utils.
Context `{R : PyRuntime}.

(** The addresses the input holds, in the order of the input, repetitions
    included: what the last loop of the function walks over. *)
Definition addresses_found (raw_value : pyarg) : list pystr :=
  match raw_value with
  | PyStr raw => cleaned_emails (candidates (prepare raw))
  | _ => []
  end.

(** [x] comes before [y] in [l]. *)
Definition before (x y : pystr) (l : list pystr) : Prop :=
  sublist [x; y] l.

(** In [l], the first [x] comes at a point where no [y] has been seen. *)
Definition first_seen_before (x y : pystr) (l : list pystr) : Prop :=
  ∃ l1 l2, l = l1 ++ x :: l2 ∧ (x ∉ l1) ∧ (y ∉ l1).

Lemma before_snoc (x y e : pystr) (l : list pystr) :
  before x y (l ++ [e]) → before x y l ∨ (x ∈ l ∧ y = e).
Proof.
  unfold before. intros (l1 & l2 & Heq & H1 & H2)%sublist_app_r.
  destruct l1 as [|a [|b l1]]; simpl in Heq.
  - subst l2. apply sublist_length in H2. simpl in H2. lia.
  - injection Heq as <- <-. right. split.
    + by apply singleton_sublist_l.
    + apply singleton_sublist_l in H2. by apply list_elem_of_singleton in H2.
  - injection Heq as <- <- Hnil. symmetry in Hnil.
    apply app_eq_nil in Hnil as [-> ->]. by left.
Qed.

(** The invariant of the loop: [unique_emails] holds the addresses walked so
    far ([walked]), each once, in the order in which they were first seen. *)
Lemma unique_loop_invariant (todo walked unique_emails : list pystr)
    (seen : gset pystr) :
  NoDup unique_emails →
  (∀ x, x ∈ seen ↔ x ∈ unique_emails) →
  (∀ x, x ∈ unique_emails ↔ x ∈ walked) →
  (∀ x y, before x y unique_emails → first_seen_before x y walked) →
  let result := unique_loop seen unique_emails todo in
  NoDup result
  ∧ (∀ x, x ∈ result ↔ x ∈ walked ++ todo)
  ∧ (∀ x y, before x y result → first_seen_before x y (walked ++ todo)).
Proof.
  revert walked unique_emails seen.
  induction todo as [|email todo IH]; intros walked unique_emails seen Hnd Hseen Hel Hord.
  - simpl. rewrite app_nil_r. done.
  - simpl. replace (walked ++ email :: todo) with ((walked ++ [email]) ++ todo)
      by (by rewrite <- app_assoc).
    destruct (decide (email ∈ seen)) as [Hin|Hout].
    + apply IH; [done | done | |].
      * intros x. rewrite elem_of_app, list_elem_of_singleton, Hel.
        split; [tauto|]. intros [?| ->]; [done|]. apply Hel, Hseen, Hin.
      * intros x y Hb. destruct (Hord x y Hb) as (l1 & l2 & -> & ? & ?).
        exists l1, (l2 ++ [email]). by rewrite <- app_assoc.
    + assert (email ∉ walked) as Hnew by (rewrite <- Hel, <- Hseen; done).
      apply IH.
      * apply NoDup_app. split; [done|]. split; [|apply NoDup_singleton].
        intros x Hx ->%list_elem_of_singleton. apply Hout, Hseen, Hx.
      * intros x. rewrite elem_of_union, elem_of_singleton, elem_of_app,
          list_elem_of_singleton, Hseen. tauto.
      * intros x. rewrite !elem_of_app, Hel. done.
      * intros x y [Hb | [Hx ->]]%before_snoc.
        { destruct (Hord x y Hb) as (l1 & l2 & -> & ? & ?).
          exists l1, (l2 ++ [email]). by rewrite <- app_assoc. }
        apply Hel in Hx.
        apply list_elem_of_split_l in Hx as (l1 & l2 & -> & Hx).
        exists l1, (l2 ++ [email]). rewrite <- app_assoc. split; [done|].
        split; [done|]. intros Hy. apply Hnew. apply elem_of_app. by left.
Qed.

Lemma clean_and_split_emails_unfold (raw_value : pyarg) :
  clean_and_split_emails raw_value = unique_loop ∅ [] (addresses_found raw_value).
Proof.
  destruct raw_value as [| |raw]; try done.
  unfold clean_and_split_emails, addresses_found.
  destruct raw as [|c raw]; [by vm_compute|].
  simpl nonempty. cbv iota.
  destruct (prepare (c :: raw)) as [|d cleaned] eqn:E; [by vm_compute | done].
Qed.

(** Every address kept has passed the test of line 302. *)
Lemma cleaned_emails_checked (emails : list pystr) (e : pystr) :
  e ∈ cleaned_emails emails →
  mem 64 e = true ∧ ∃ x, e = strip (str_lower x).
Proof.
  unfold cleaned_emails. rewrite list_elem_of_In, filter_In, <- list_elem_of_In.
  intros [Hin [_ Hat]%andb_true_iff]. split; [done|].
  apply list_elem_of_fmap in Hin as (x & -> & _). unfold clean_one. eauto.
Qed.

(** *** Inputs without any address *)

Definition blank_char (c : N) : Prop :=
  isspace c = true ∨ c = BOM ∨ c = ZWSP.

Lemma lstrip_by_all (p : N → bool) (s : pystr) :
  Forall (λ c, p c = true) s → lstrip_by p s = [].
Proof. induction 1 as [|c s Hc _ IH]; simpl; [done | by rewrite Hc]. Qed.

Lemma strip_all_space (s : pystr) :
  Forall (λ c, isspace c = true) s → strip s = [].
Proof. intros H. unfold strip, strip_by. by rewrite (lstrip_by_all _ _ H). Qed.

Lemma prepare_blank (raw : pystr) :
  Forall blank_char raw → prepare raw = [].
Proof.
  intros H. apply strip_all_space.
  unfold remove_char, replace_char.
  apply Forall_forall. intros c.
  rewrite list_elem_of_filter, list_elem_of_fmap.
  intros [Hz (x & -> & [Hb Hx]%list_elem_of_filter)].
  rewrite Forall_forall in H. specialize (H x Hx).
  destruct (x =? NBSP) eqn:E; [done|].
  destruct H as [?|[?|?]]; done.
Qed.

Definition blank_input (raw_value : pyarg) : Prop :=
  match raw_value with
  | PyStr raw => Forall blank_char raw
  | _ => True
  end.

(** C8. The list [clean_and_split_emails] returns has no repetition, holds
    exactly the addresses found in the input, in the order in which each was
    first found; every element is its own lower-case form and holds [@]; an
    argument that is no string, or a string of white space, byte-order marks
    and zero-width spaces only (the empty one included), gives the empty
    list. *)
Theorem clean_and_split_emails_correct `{!PyRuntimeLaws R} (raw_value : pyarg) :
  let result := clean_and_split_emails raw_value in
  NoDup result
  ∧ (∀ x, x ∈ result ↔ x ∈ addresses_found raw_value)
  ∧ (∀ x y, before x y result → first_seen_before x y (addresses_found raw_value))
  ∧ Forall (λ e, str_lower e = e ∧ mem 64 e = true) result
  ∧ (blank_input raw_value → result = []).
Proof.
  intros result. subst result. rewrite clean_and_split_emails_unfold.
  destruct (unique_loop_invariant (addresses_found raw_value) [] [] ∅)
    as (Hnd & Hel & Hord).
  { constructor. }
  { intros x. rewrite elem_of_empty, elem_of_nil. done. }
  { done. }
  { intros x y Hb. apply sublist_nil_r in Hb. done. }
  simpl in Hel, Hord.
  split; [done|]. split; [done|]. split; [done|]. split.
  - apply Forall_forall. intros e He. apply Hel in He.
    assert (mem 64 e = true ∧ ∃ x, e = strip (str_lower x)) as [Hat [x ->]].
    { destruct raw_value; simpl in He; try by apply elem_of_nil in He.
      by apply cleaned_emails_checked in He. }
    split; [|done].
    by rewrite str_lower_strip, str_lower_idem.
  - intros Hblank. destruct raw_value as [| |raw]; try done.
    simpl in Hblank. unfold addresses_found.
    rewrite (prepare_blank raw Hblank). by vm_compute.
Qed.

End CleanEmails.

(** The ASCII runtime satisfies the two laws. *)
Ltac decide_comparisons :=
  repeat (match goal with
          | |- context [?a <=? ?b] => destruct (N.leb_spec a b)
          | |- context [?a =? ?b] => destruct (N.eqb_spec a b)
          end; simpl in *; try lia).

Lemma ascii_fold_idem (c : N) : ascii_fold (ascii_fold c) = ascii_fold c.
Proof. unfold ascii_fold. decide_comparisons; done. Qed.

Lemma isspace_ascii_fold (c : N) : isspace (ascii_fold c) = isspace c.
Proof.
  unfold ascii_fold.
  destruct (N.leb_spec 65 c), (N.leb_spec c 90); simpl; try done.
  unfold isspace. decide_comparisons; done.
Qed.

Lemma lstrip_by_map (f : N → N) (p : N → bool) (s : pystr) :
  (∀ c, p (f c) = p c) → lstrip_by p (map f s) = map f (lstrip_by p s).
Proof.
  intros Hp. induction s as [|c s IH]; simpl; [done|].
  rewrite Hp. by destruct (p c).
Qed.

Lemma strip_by_map (f : N → N) (p : N → bool) (s : pystr) :
  (∀ c, p (f c) = p c) → strip_by p (map f s) = map f (strip_by p s).
Proof.
  intros Hp. unfold strip_by, rstrip_by.
  by rewrite lstrip_by_map, <- map_rev, lstrip_by_map, map_rev.
Qed.

Lemma ascii_runtime_laws : PyRuntimeLaws ascii_runtime.
Proof.
  split; simpl; unfold ascii_lower.
  - intros s. rewrite map_map. apply map_ext. intros c. apply ascii_fold_idem.
  - intros s. unfold strip. symmetry. apply strip_by_map, isspace_ascii_fold.
Qed.

Definition sample_cell : Utils.pyarg :=
  Utils.PyStr (lit "  Bea@Example.org; ana@example.org , bea@example.ORG | (x) ").

Example clean_and_split_emails_sample :
  @Utils.clean_and_split_emails ascii_runtime sample_cell
  = [lit "bea@example.org"; lit "ana@example.org"].
Proof. by vm_compute. Qed.

Lemma clean_and_split_emails_witness :
  PyRuntimeLaws ascii_runtime
  ∧ (let result := @Utils.clean_and_split_emails ascii_runtime sample_cell in
     NoDup result
     ∧ (∀ x, x ∈ result ↔ x ∈ @addresses_found ascii_runtime sample_cell)
     ∧ (∀ x y, before x y result →
               first_seen_before x y (@addresses_found ascii_runtime sample_cell))
     ∧ Forall (λ e, @str_lower ascii_runtime e = e ∧ mem 64 e = true) result
     ∧ (blank_input sample_cell → result = [])).
Proof.
  split; [exact ascii_runtime_laws|].
  exact (@clean_and_split_emails_correct ascii_runtime ascii_runtime_laws sample_cell).
Defined.

(** ** Dispatch: what the two loops do to the locals *)

Section Dispatch.
Import GraphMail.
Context `{R : PyRuntime}.

(** The addresses the [sendMail] requests of a trace go to, in the order in
    which the requests are built; a batch contributes its requests in order. *)
Definition request_targets (ev : event) : list pystr :=
  match ev with
  | EvSendMail _ m => msg_toRecipients m
  | EvBatch _ requests => flat_map (λ r, msg_toRecipients (req_body r)) requests
  | _ => []
  end.

Definition targets (trace : list event) : list pystr :=
  flat_map request_targets trace.

(** The trace without the calls of the progress callback. *)
Definition is_request_or_sleep (ev : event) : bool :=
  match ev with
  | EvProgress _ _ _ => false
  | _ => true
  end.

Definition wire (trace : list event) : list event :=
  List.filter is_request_or_sleep trace.

(** [sep] between any two consecutive elements of [l]. *)
Fixpoint intersperse {A} (sep : A) (l : list A) : list A :=
  match l with
  | [] => []
  | [x] => [x]
  | x :: t => x :: sep :: intersperse sep t
  end.

(** The elements of [l] whose position, counted from [i], satisfies [p]. *)
Fixpoint select {A} (p : nat → bool) (i : nat) (l : list A) : list A :=
  match l with
  | [] => []
  | x :: t => if p i then x :: select p (S i) t else select p (S i) t
  end.

(** The server took the message. *)
Definition accepted (reply : http_reply) : bool :=
  match reply with
  | Response status_code _ _ => (status_code =? 202)%Z
  | RequestException _ => false
  end.

Definition emails_of (d : dispatch) : list pystr :=
  d_successful d ++ map fail_email (d_failed d).

Lemma targets_app (t1 t2 : list event) : targets (t1 ++ t2) = targets t1 ++ targets t2.
Proof. unfold targets. by rewrite flat_map_app. Qed.

Lemma wire_app (t1 t2 : list event) : wire (t1 ++ t2) = wire t1 ++ wire t2.
Proof. unfold wire. by rewrite List.filter_app. Qed.


(** *** One iteration of [send_mail_graph_bulk] *)

Section Bulk.
Variables (w : world) (endpoint subject html : pystr) (atts : list attachment).
Variables (progress_callback : bool) (delay : Q) (total : nat).

Definition send_event (receiver_email : pystr) : event :=
  EvSendMail endpoint (single_message subject html atts receiver_email).

(** The locals after the request for [receiver_email] has been answered. *)
Definition bulk_step (idx : nat) (receiver_email : pystr) (d : dispatch) : dispatch :=
  let d0 := if progress_callback then emit (EvProgress idx total receiver_email) d else d in
  let d1 := posted (emit (send_event receiver_email) d0) in
  match http w (d_posts d0) with
  | Response status_code text _ =>
      if (status_code =? 202)%Z then add_success receiver_email d1
      else add_failure receiver_email
             (lit "HTTP " ++ of_Z status_code ++ lit ": " ++ take 200 text) d1
  | RequestException e =>
      add_failure receiver_email (lit "Error de conexión: " ++ e) d1
  end.

Local Notation "'loop'" :=
  (bulk_loop w endpoint subject html atts progress_callback delay total).

Lemma bulk_loop_cons (idx : nat) (r : pystr) (rest : list pystr) (d : dispatch) :
  loop idx (r :: rest) d =
  if (idx <? total)%nat then
    match sleep delay (bulk_step idx r d) with
    | Ok d' => loop (S idx) rest d'
    | Raise e => (bulk_step idx r d, Some e)
    end
  else loop (S idx) rest (bulk_step idx r d).
Proof. reflexivity. Qed.

Lemma bulk_step_posts idx r d : d_posts (bulk_step idx r d) = S (d_posts d).
Proof.
  unfold bulk_step. destruct progress_callback; simpl;
    destruct (http w (d_posts d)) as [s ? ?|?]; simpl; try done;
    by destruct (s =? 202)%Z.
Qed.

Lemma bulk_step_trace idx r d :
  d_trace (bulk_step idx r d) =
  d_trace d ++ (if progress_callback then [EvProgress idx total r] else [])
            ++ [send_event r].
Proof.
  unfold bulk_step. destruct progress_callback; simpl;
    destruct (http w (d_posts d)) as [s ? ?|?]; simpl;
    try destruct (s =? 202)%Z; simpl; by rewrite <- ?app_assoc, ?app_nil_r.
Qed.

Lemma bulk_step_successful idx r d :
  d_successful (bulk_step idx r d) =
  d_successful d ++ (if accepted (http w (d_posts d)) then [r] else []).
Proof.
  unfold bulk_step, accepted. destruct progress_callback; simpl;
    destruct (http w (d_posts d)) as [s ? ?|?]; simpl;
    try destruct (s =? 202)%Z; simpl; by rewrite ?app_nil_r.
Qed.

Lemma bulk_step_failed idx r d :
  map fail_email (d_failed (bulk_step idx r d)) =
  map fail_email (d_failed d) ++ (if accepted (http w (d_posts d)) then [] else [r]).
Proof.
  unfold bulk_step, accepted. destruct progress_callback; simpl;
    destruct (http w (d_posts d)) as [s ? ?|?]; simpl;
    try destruct (s =? 202)%Z; simpl; by rewrite ?map_app, ?app_nil_r.
Qed.

Lemma sleep_Ok (seconds : Q) (d d' : dispatch) :
  sleep seconds d = Ok d' → d' = emit (EvSleep seconds) d.
Proof. unfold sleep. destruct (Qle_bool 0 seconds); by intros [= <-]. Qed.

Lemma sleep_Raise (seconds : Q) (d : dispatch) (e : exn) :
  sleep seconds d = Raise e → Qle_bool 0 seconds = false.
Proof. unfold sleep. by destruct (Qle_bool 0 seconds). Qed.

(** What the loop has done when it stops, with or without an exception:
    [walked] is the part of [todo] whose requests were made. *)
Lemma bulk_loop_spec (todo : list pystr) :
  ∀ idx d d' stopped, loop idx todo d = (d', stopped) →
  ∃ walked,
    walked `prefix_of` todo
    ∧ (stopped = None → walked = todo)
    ∧ (stopped ≠ None → Qle_bool 0 delay = false)
    ∧ d_posts d' = (d_posts d + length walked)%nat
    ∧ targets (d_trace d') = targets (d_trace d) ++ walked
    ∧ d_successful d' =
        d_successful d ++ select (λ i, accepted (http w i)) (d_posts d) walked
    ∧ map fail_email (d_failed d') =
        map fail_email (d_failed d)
        ++ select (λ i, negb (accepted (http w i))) (d_posts d) walked.
Proof.
  induction todo as [|r rest IH]; intros idx d d' stopped Hloop.
  - injection Hloop as <- <-. exists []. simpl. rewrite !app_nil_r, Nat.add_0_r. done.
  - rewrite bulk_loop_cons in Hloop.
    assert (∀ d1 d2 st, (d1 = bulk_step idx r d ∨ d1 = emit (EvSleep delay) (bulk_step idx r d)) →
              loop (S idx) rest d1 = (d2, st) →
              ∃ walked, walked `prefix_of` r :: rest
                ∧ (st = None → walked = r :: rest)
                ∧ (st ≠ None → Qle_bool 0 delay = false)
                ∧ d_posts d2 = (d_posts d + length walked)%nat
                ∧ targets (d_trace d2) = targets (d_trace d) ++ walked
                ∧ d_successful d2 = d_successful d
                    ++ select (λ i, accepted (http w i)) (d_posts d) walked
                ∧ map fail_email (d_failed d2) = map fail_email (d_failed d)
                    ++ select (λ i, negb (accepted (http w i))) (d_posts d) walked) as Hnext.
    { intros d1 d2 st Hd1 Hrest.
      destruct (IH _ _ _ _ Hrest) as (walked & Hpre & Hall & Hneg & Hp & Ht & Hs & Hf).
      assert (d_posts d1 = S (d_posts d) ∧ d_successful d1 = d_successful (bulk_step idx r d)
              ∧ d_failed d1 = d_failed (bulk_step idx r d)
              ∧ targets (d_trace d1) = targets (d_trace d) ++ [r]) as (E1 & E2 & E3 & E4).
      { destruct Hd1 as [-> | ->]; simpl; rewrite ?bulk_step_posts, ?bulk_step_trace,
          ?targets_app; destruct progress_callback; simpl; by rewrite ?app_nil_r. }
      exists (r :: walked). split; [by apply prefix_cons|].
      split; [intros ->; by rewrite Hall|]. split; [done|].
      rewrite Hp, Ht, Hs, Hf, E1, E2, E3, E4, bulk_step_successful, bulk_step_failed.
      simpl. split; [lia|]. rewrite <- !app_assoc. simpl.
      destruct (accepted (http w (d_posts d))); simpl; by rewrite ?app_nil_r. }
    destruct (idx <? total)%nat.
    + destruct (sleep delay (bulk_step idx r d)) as [d1|e] eqn:Hs.
      * apply sleep_Ok in Hs. eapply Hnext; [by right | done].
      * injection Hloop as <- <-. apply sleep_Raise in Hs.
        exists [r]. split; [apply prefix_cons, prefix_nil|].
        split; [done|]. split; [done|].
        rewrite bulk_step_posts, bulk_step_trace, !targets_app, bulk_step_successful,
          bulk_step_failed. simpl.
        split; [lia|].
        destruct progress_callback, (accepted (http w (d_posts d))); simpl;
          by rewrite ?app_nil_r.
    + eapply Hnext; [by left | done].
Qed.



End Bulk.
End Dispatch.

(** ** The batches of [send_mail_graph_batch] *)

Section BatchPlan.
Variable A : Type.
Variables (receivers : list A) (batch_size : Z).

(** Line 605. *)
Definition batches_needed : Z :=
  ((Z.of_nat (length receivers) + batch_size - 1) / batch_size)%Z.

(** Lines 609-611: the receivers of batch number [k]. *)
Definition batch_of (k : nat) : list A :=
  let batch_start := (Z.of_nat k * batch_size)%Z in
  let batch_end := Z.min (batch_start + batch_size) (Z.of_nat (length receivers)) in
  py_slice receivers batch_start batch_end.

(** The batches the loop of line 608 goes through. *)
Definition batch_plan : list (list A) :=
  map batch_of (seq 0 (Z.to_nat batches_needed)).

Hypothesis batch_size_positive : (0 < batch_size)%Z.

Lemma batch_of_take_drop (k : nat) :
  batch_of k = take (Z.to_nat batch_size) (drop (k * Z.to_nat batch_size) receivers).
Proof.
  unfold batch_of, py_slice.
  set (n := length receivers). remember (Z.to_nat batch_size) as b eqn:Eb.
  assert (batch_size = Z.of_nat b) as Hbs by lia. rewrite Hbs.
  assert (0 < b)%nat as Hb by lia.
  replace (Z.of_nat k * Z.of_nat b)%Z with (Z.of_nat (k * b)) by lia.
  destruct (Z.ltb_spec (Z.of_nat (k * b)) 0); [lia|].
  destruct (Z.ltb_spec (Z.min (Z.of_nat (k * b) + Z.of_nat b) (Z.of_nat n)) 0); [lia|].
  destruct (Nat.le_gt_cases (k * b) n) as [Hle|Hgt].
  - replace (Z.to_nat (Z.min (Z.of_nat (k * b)) (Z.of_nat n))) with (k * b)%nat by lia.
    replace (Z.to_nat _) with (Nat.min b (n - k * b)) by lia.
    apply list_eq. intros i.
    rewrite !lookup_take. rewrite !lookup_drop.
    destruct (decide (i < b)%nat), (decide (i < Nat.min b (n - k * b))%nat);
      try done; try lia.
    rewrite lookup_ge_None_2; [done | fold n; lia].
  - rewrite !drop_ge by (fold n; lia). by rewrite !take_nil.
Qed.

Lemma concat_chunks (b m : nat) :
  concat (map (λ k, take b (drop (k * b) receivers)) (seq 0 m)) = take (m * b) receivers.
Proof.
  induction m as [|m IH]; [by rewrite take_0|].
  rewrite seq_S, map_app, concat_app, IH. simpl. rewrite app_nil_r.
  rewrite take_take_drop. f_equal. lia.
Qed.

(** The number of batches is the least [n] with [total <= n * batch_size]. *)
Lemma batches_needed_ceiling :
  (Z.of_nat (length receivers) ≤ batches_needed * batch_size)%Z
  ∧ ((batches_needed - 1) * batch_size < Z.of_nat (length receivers)
     ∨ receivers = [] ∧ batches_needed = 0%Z)%Z.
Proof.
  unfold batches_needed. set (n := Z.of_nat (length receivers)).
  pose proof (Z.div_mod (n + batch_size - 1) batch_size ltac:(lia)) as Hdm.
  pose proof (Z.mod_pos_bound (n + batch_size - 1) batch_size batch_size_positive) as Hm.
  split; [nia|].
  destruct receivers as [|x l] eqn:E.
  - right. split; [done|]. subst n. simpl.
    apply Z.div_small. lia.
  - left. subst n. simpl length in *. nia.
Qed.

Lemma batches_needed_nonneg : (0 ≤ batches_needed)%Z.
Proof. unfold batches_needed. apply Z.div_pos; lia. Qed.

(** The batches, one after the other, are the receivers. *)
Lemma batch_plan_concat : concat batch_plan = receivers.
Proof.
  unfold batch_plan.
  rewrite (map_ext _ _ batch_of_take_drop), concat_chunks.
  apply take_ge. pose proof batches_needed_ceiling as [H _].
  pose proof batches_needed_nonneg. nia.
Qed.

Lemma batch_plan_length : length batch_plan = Z.to_nat batches_needed.
Proof. unfold batch_plan. by rewrite length_map, length_seq. Qed.


End BatchPlan.
Arguments batches_needed {A} receivers batch_size.
Arguments batch_of {A} receivers batch_size k.
Arguments batch_plan {A} receivers batch_size.

Example batch_plan_sample :
  batch_plan [1; 2; 3; 4; 5; 6; 7] 3 = [[1; 2; 3]; [4; 5; 6]; [7]].
Proof. reflexivity. Qed.

(** ** Dispatch: the loop over the batches *)

Section BatchLoop.
Import GraphMail.
Context `{R : PyRuntime}.
Variables (w : world) (receivers : list pystr) (sender subject html : pystr).
Variables (atts : list attachment) (progress_callback : bool) (batch_size : Z).

(** The target lists of the batch requests of a trace. *)
Definition batches_of (trace : list event) : list (list pystr) :=
  omap (λ ev, match ev with
              | EvBatch _ requests =>
                  Some (flat_map (λ r, msg_toRecipients (req_body r)) requests)
              | _ => None
              end) trace.

(** The number of requests in each batch request of a trace. *)
Definition request_counts (trace : list event) : list nat :=
  omap (λ ev, match ev with
              | EvBatch _ requests => Some (length requests)
              | _ => None
              end) trace.

Lemma request_counts_app (t1 t2 : list event) :
  request_counts (t1 ++ t2) = request_counts t1 ++ request_counts t2.
Proof. unfold request_counts. by rewrite omap_app. Qed.

Lemma batches_of_app (t1 t2 : list event) :
  batches_of (t1 ++ t2) = batches_of t1 ++ batches_of t2.
Proof. unfold batches_of. by rewrite omap_app. Qed.

Definition request_receivers (requests : list batch_request) : list pystr :=
  flat_map (λ r, msg_toRecipients (req_body r)) requests.

(** Building the requests of a batch: one request per receiver, in order;
    only the progress callback is heard of. *)
Lemma batch_requests_loop_spec (batch_start : Z) (todo : list pystr) :
  ∀ i email_index acc d,
  let '(requests, email_index', d') :=
    batch_requests_loop sender subject html atts progress_callback (length receivers)
      batch_start i todo email_index acc d in
  request_receivers requests = request_receivers acc ++ todo
  ∧ length requests = (length acc + length todo)%nat
  ∧ email_index' = (email_index + length todo)%nat
  ∧ d_posts d' = d_posts d ∧ d_successful d' = d_successful d
  ∧ d_failed d' = d_failed d
  ∧ batches_of (d_trace d') = batches_of (d_trace d)
  ∧ request_counts (d_trace d') = request_counts (d_trace d)
  ∧ wire (d_trace d') = wire (d_trace d).
Proof.
  induction todo as [|r rest IH]; intros i email_index acc d.
  - simpl. rewrite app_nil_r, !Nat.add_0_r. by repeat split.
  - simpl.
    match goal with
    | |- context [batch_requests_loop _ _ _ _ _ _ _ ?i' rest ?e' ?a' ?d'] =>
        specialize (IH i' e' a' d');
        destruct (batch_requests_loop sender subject html atts progress_callback
                    (length receivers) batch_start i' rest e' a' d')
          as [[requests ei] d2]
    end.
    destruct IH as (H1 & H2 & H3 & H4 & H5 & H6 & H7 & H8 & H9).
    rewrite H1, H2, H3, H4, H5, H6, H7, H8, H9.
    unfold request_receivers. rewrite flat_map_app, length_app. simpl.
    rewrite <- app_assoc. simpl.
    destruct progress_callback; simpl;
      rewrite ?batches_of_app, ?request_counts_app, ?wire_app, ?app_nil_r;
      repeat split; try done; lia.
Qed.

Lemma fail_all_spec (emails : list pystr) (error : pystr) :
  ∀ d, d_successful (fail_all emails error d) = d_successful d
       ∧ map fail_email (d_failed (fail_all emails error d))
         = map fail_email (d_failed d) ++ emails
       ∧ d_trace (fail_all emails error d) = d_trace d
       ∧ d_posts (fail_all emails error d) = d_posts d.
Proof.
  unfold fail_all.
  induction emails as [|e emails IH]; intros d; simpl.
  - by rewrite app_nil_r.
  - destruct (IH (add_failure e error d)) as (-> & -> & -> & ->). simpl.
    rewrite map_app, <- app_assoc. done.
Qed.

(** The receiver a listed answer stands for, if the answer has a usable
    [id]. *)
Definition resolve (resp : batch_item) : option pystr :=
  match item_id resp with
  | Some request_id => py_index receivers request_id
  | None => None
  end.

(** Going through the answers of a batch: each usable answer files its
    receiver under one of the two lists; an unusable one raises. *)
Lemma responses_loop_spec (todo : list batch_item) :
  ∀ d d' stopped, responses_loop receivers todo d = (d', stopped) →
  d_trace d' = d_trace d ∧ d_posts d' = d_posts d
  ∧ (Forall (λ resp, is_Some (resolve resp)) todo →
     stopped = None ∧ emails_of d' ≡ₚ emails_of d ++ omap resolve todo).
Proof.
  induction todo as [|resp rest IH]; intros d d' stopped Hloop.
  - injection Hloop as <- <-. simpl. by rewrite app_nil_r.
  - simpl in Hloop.
    destruct (item_id resp) as [request_id|] eqn:Eid.
    2:{ injection Hloop as <- <-. split; [done|]. split; [done|].
        intros [[? Hx] _]%Forall_cons. unfold resolve in Hx. by rewrite Eid in Hx. }
    destruct (py_index receivers request_id) as [receiver_email|] eqn:Eidx.
    2:{ injection Hloop as <- <-. split; [done|]. split; [done|].
        intros [[? Hx] _]%Forall_cons. unfold resolve in Hx.
        by rewrite Eid, Eidx in Hx. }
    assert (omap resolve (resp :: rest) = receiver_email :: omap resolve rest) as ->.
    { simpl. unfold resolve at 1. by rewrite Eid, Eidx. }
    destruct (default 500%Z (item_status resp) =? 202)%Z;
      destruct (IH _ _ _ Hloop) as (-> & -> & Hrest); simpl;
      (split; [done|]); (split; [done|]);
      intros [_ Hall]%Forall_cons; destruct (Hrest Hall) as [-> Hperm];
      (split; [done|]); rewrite Hperm; unfold emails_of; simpl.
    + solve_Permutation.
    + rewrite map_app. simpl. solve_Permutation.
Qed.

(** *** One iteration *)

Definition built (batch_num : nat) (email_index : nat) (d : dispatch) :=
  batch_requests_loop sender subject html atts progress_callback (length receivers)
    (Z.of_nat batch_num * batch_size) 0 (batch_of receivers batch_size batch_num)
    email_index [] d.

(** The locals after the answer to batch [batch_num] has been read. *)
Definition answered (batch_num : nat) (email_index : nat) (d : dispatch)
    : dispatch * option exn :=
  let '(batch_requests, _, d1) := built batch_num email_index d in
  let d2 := posted (emit (EvBatch batch_endpoint batch_requests) d1) in
  match http w (d_posts d1) with
  | Response status_code text responses =>
      if (status_code =? 200)%Z
      then responses_loop receivers (default [] responses) d2
      else (fail_all (batch_of receivers batch_size batch_num)
              (lit "Batch falló: HTTP " ++ of_Z status_code ++ lit " - " ++ take 200 text)
              d2, None)
  | RequestException e =>
      (fail_all (batch_of receivers batch_size batch_num)
         (lit "Error de conexión en batch: " ++ e) d2, None)
  end.

Local Notation "'loop'" :=
  (batch_loop w receivers sender subject html atts progress_callback batch_size
     (batches_needed receivers batch_size)).

Lemma batch_loop_cons (batch_num : nat) (rest : list nat) (email_index : nat)
    (d : dispatch) :
  loop (batch_num :: rest) email_index d =
  match answered batch_num email_index d with
  | (d3, Some e) => (d3, Some e)
  | (d3, None) =>
      let email_index' := (built batch_num email_index d).1.2 in
      if (Z.of_nat batch_num <? batches_needed receivers batch_size - 1)%Z
      then loop rest email_index' (emit (EvSleep (1 # 2)) d3)
      else loop rest email_index' d3
  end.
Proof.
  unfold answered, built, batch_of. simpl.
  destruct (batch_requests_loop _ _ _ _ _ _ _ _ _ _ _ _) as [[requests ei] d1].
  simpl. destruct (http w (d_posts d1)) as [s t rs|e]; simpl.
  - destruct (s =? 200)%Z; simpl.
    + destruct (responses_loop _ _ _) as [d3 [e|]]; done.
    + done.
  - done.
Qed.

(** The answer to batch [k] lists every request of the batch once: the
    [id]s are those of the batch, in any order. *)
Definition covers (k : nat) (responses : list batch_item) : Prop :=
  map item_id responses ≡ₚ
  map (λ i, Some (Z.of_nat i))
      (seq (k * Z.to_nat batch_size) (length (batch_of receivers batch_size k))).

(** The [n]-th request, if answered with status 200, is answered in full. *)
Definition answered_in_full (n k : nat) : Prop :=
  match http w n with
  | Response 200 _ responses => covers k (default [] responses)
  | _ => True
  end.

Hypothesis batch_size_positive : (0 < batch_size)%Z.

Lemma resolve_batch_ids (k : nat) :
  map (λ i, py_index receivers (Z.of_nat i))
      (seq (k * Z.to_nat batch_size) (length (batch_of receivers batch_size k)))
  = map Some (batch_of receivers batch_size k).
Proof.
  rewrite batch_of_take_drop by done.
  set (b := Z.to_nat batch_size). set (s := (k * b)%nat).
  apply list_eq. intros i.
  change (map ?f ?l) with (f <$> l).
  rewrite !list_lookup_fmap, lookup_take, lookup_drop, length_take, length_drop.
  destruct (decide (i < b)%nat) as [Hi|Hi].
  - destruct (receivers !! (s + i)%nat) as [x|] eqn:E.
    + apply lookup_lt_Some in E as Hlt.
      rewrite lookup_seq_lt by lia. simpl.
      unfold py_index.
      destruct (Z.leb_spec 0 (Z.of_nat (s + i))); [|lia].
      by rewrite Nat2Z.id, E.
    + apply lookup_ge_None in E.
      by rewrite lookup_seq_ge by lia.
  - by rewrite lookup_seq_ge by lia.
Qed.

Lemma omap_id_map {A B} (f : A → option B) (l : list A) :
  omap id (map f l) = omap f l.
Proof.
  induction l as [|x l IH]; simpl; [done|].
  destruct (f x); [f_equal|]; exact IH.
Qed.

Lemma omap_id_Some {A} (l : list A) : omap id (map Some l) = l.
Proof. induction l as [|x l IH]; simpl; [done|]. f_equal. exact IH. Qed.

Lemma covers_resolve (k : nat) (responses : list batch_item) :
  covers k responses →
  Forall (λ resp, is_Some (resolve resp)) responses
  ∧ omap resolve responses ≡ₚ batch_of receivers batch_size k.
Proof.
  unfold covers. intros Hperm.
  assert (map resolve responses ≡ₚ map Some (batch_of receivers batch_size k)) as H.
  { rewrite <- resolve_batch_ids.
    replace (map resolve responses)
      with (map (λ o : option Z, o ≫= py_index receivers) (map item_id responses)).
    2:{ rewrite map_map. apply map_ext. intros resp. unfold resolve.
        by destruct (item_id resp). }
    rewrite Hperm, !map_map. done. }
  split.
  - apply Forall_forall. intros resp Hin.
    assert (resolve resp ∈ map Some (batch_of receivers batch_size k)) as Hx.
    { rewrite <- H. apply list_elem_of_fmap. eauto. }
    apply list_elem_of_fmap in Hx as (x & -> & _). eauto.
  - rewrite <- omap_id_map, H. by rewrite omap_id_Some.
Qed.

(** The answered batch: one more request, the batch on the wire, and, if the
    answer was complete, every receiver of the batch filed once. *)
Lemma answered_spec (k email_index : nat) (d d3 : dispatch) (stopped : option exn) :
  answered k email_index d = (d3, stopped) →
  d_posts d3 = S (d_posts d)
  ∧ batches_of (d_trace d3) = batches_of (d_trace d) ++ [batch_of receivers batch_size k]
  ∧ request_counts (d_trace d3) =
      request_counts (d_trace d) ++ [length (batch_of receivers batch_size k)]
  ∧ wire (d_trace d3) =
      wire (d_trace d)
      ++ [EvBatch batch_endpoint (built k email_index d).1.1]
  ∧ request_receivers (built k email_index d).1.1 = batch_of receivers batch_size k
  ∧ (answered_in_full (d_posts d) k →
     stopped = None ∧ emails_of d3 ≡ₚ emails_of d ++ batch_of receivers batch_size k).
Proof.
  unfold answered, answered_in_full.
  pose proof (batch_requests_loop_spec (Z.of_nat k * batch_size)
                (batch_of receivers batch_size k) 0 email_index [] d) as Hb.
  fold (built k email_index d) in Hb.
  destruct (built k email_index d) as [[requests ei] d1].
  destruct Hb as (Hreq & Hlen & _ & Hp & Hs & Hf & Hbo & Hrc & Hw).
  simpl in Hreq, Hlen.
  cbv beta iota zeta. rewrite Hp.
  assert (emails_of d1 = emails_of d) as He by (unfold emails_of; by rewrite Hs, Hf).
  assert (∀ trace, trace = d_trace d1 ++ [EvBatch batch_endpoint requests] →
            batches_of trace = batches_of (d_trace d) ++ [batch_of receivers batch_size k]
            ∧ request_counts trace =
                request_counts (d_trace d) ++ [length (batch_of receivers batch_size k)]
            ∧ wire trace = wire (d_trace d) ++ [EvBatch batch_endpoint requests]) as Htrace.
  { intros trace ->.
    rewrite batches_of_app, request_counts_app, wire_app, Hbo, Hrc, Hw. simpl.
    fold (request_receivers requests). by rewrite Hreq, Hlen. }
  cbn [fst snd].
  destruct (http w (d_posts d)) as [s t rs|e].
  - destruct (Z.eqb_spec s 200) as [->|Hne].
    + intros Hloop. apply responses_loop_spec in Hloop as (Ht & Hpp & Hfull).
      destruct (Htrace _ Ht) as (-> & -> & ->).
      split; [rewrite Hpp; simpl; by rewrite Hp|]. split; [done|]. split; [done|]. split; [done|]. split; [done|].
      intros Hc. destruct (covers_resolve _ _ Hc) as [Hall Hperm].
      destruct (Hfull Hall) as [-> ->]. split; [done|].
      unfold emails_of in *. simpl. by rewrite Hs, Hf, Hperm.
    + intros [<- <-]%pair_eq.
      destruct (fail_all_spec (batch_of receivers batch_size k)
                  (lit "Batch falló: HTTP " ++ of_Z s ++ lit " - " ++ take 200 t)
                  (posted (emit (EvBatch batch_endpoint requests) d1)))
        as (E1 & E2 & E3 & E4).
      destruct (Htrace _ E3) as (-> & -> & ->).
      split; [rewrite E4; simpl; by rewrite Hp|]. split; [done|]. split; [done|]. split; [done|]. split; [done|].
      intros _. split; [done|].
      unfold emails_of. rewrite E1, E2. simpl. by rewrite Hs, Hf, app_assoc.
  - intros [<- <-]%pair_eq.
    destruct (fail_all_spec (batch_of receivers batch_size k)
                (lit "Error de conexión en batch: " ++ e)
                (posted (emit (EvBatch batch_endpoint requests) d1)))
      as (E1 & E2 & E3 & E4).
    destruct (Htrace _ E3) as (-> & -> & ->).
    split; [rewrite E4; simpl; by rewrite Hp|]. split; [done|]. split; [done|]. split; [done|]. split; [done|].
    intros _. split; [done|].
    unfold emails_of. rewrite E1, E2. simpl. by rewrite Hs, Hf, app_assoc.
Qed.


End BatchLoop.

(** ** The two dispatchers as a whole *)

Section Dispatchers.
Import GraphMail.
Context `{R : PyRuntime}.

(** Configuration and token are there. *)
Definition ready (w : world) : Prop :=
  is_Some (get_graph_config w) ∧ truthy (get_access_token w) = true.




(** The ways a call of [send_mail_graph_bulk] can go. *)
Lemma bulk_run (w : world) (receivers : list pystr) subject content_text content_html
    attachments inline_images progress_callback (delay : Q) :
  let run := send_mail_graph_bulk w receivers subject content_text content_html
               attachments inline_images progress_callback delay in
  (∃ error, (receivers = [] ∨ ¬ ready w)
            ∧ run = (Ok (all_failed receivers error), []))
  ∨ (∃ e, assemble w content_text content_html attachments inline_images = Raise e
          ∧ run = (Raise e, []))
  ∨ (∃ config html atts d stopped,
       get_graph_config w = Some config
       ∧ assemble w content_text content_html attachments inline_images = Ok (html, atts)
       ∧ bulk_loop w (sendMail_endpoint config) subject html atts progress_callback
           delay (length receivers) 1 receivers d_start = (d, stopped)
       ∧ run = (match stopped with
                | Some e => Raise e
                | None => Ok (result_of (length receivers) d)
                end, d_trace d)).
Proof.
  intros run. subst run. unfold send_mail_graph_bulk, ready.
  destruct receivers as [|r0 rest]; [left; eexists; eauto|].
  destruct (get_graph_config w) as [config|] eqn:Hconfig.
  2:{ left. eexists. split; [|done]. right. by intros [?%is_Some_None _]. }
  destruct (truthy (get_access_token w)); simpl negb; cbv iota.
  2:{ left. eexists. split; [|done]. right. by intros [_ ?]. }
  destruct (assemble w content_text content_html attachments inline_images)
    as [[html atts]|e] eqn:Hasm; [|right; left; eauto].
  right. right.
  destruct (bulk_loop _ _ _ _ _ _ _ _ _ _ _) as [d stopped] eqn:Hloop.
  exists config, html, atts, d, stopped. by destruct stopped.
Qed.

(** The ways a call of [send_mail_graph_batch] with a positive [batch_size]
    can go. *)
Lemma batch_run (w : world) (receivers : list pystr) subject content_text content_html
    attachments inline_images progress_callback (batch_size : Z) :
  (0 < batch_size)%Z →
  let run := send_mail_graph_batch w receivers subject content_text content_html
               attachments inline_images progress_callback batch_size in
  (∃ error, (receivers = [] ∨ ¬ ready w)
            ∧ run = (Ok (all_failed receivers error), []))
  ∨ (∃ e, assemble w content_text content_html attachments inline_images = Raise e
          ∧ run = (Raise e, []))
  ∨ (∃ config html atts d stopped,
       get_graph_config w = Some config
       ∧ assemble w content_text content_html attachments inline_images = Ok (html, atts)
       ∧ batch_loop w receivers (sender_email config) subject html atts progress_callback
           batch_size (batches_needed receivers batch_size)
           (seq 0 (Z.to_nat (batches_needed receivers batch_size))) 0 d_start
         = (d, stopped)
       ∧ run = (match stopped with
                | Some e => Raise e
                | None => Ok (result_of (length receivers) d)
                end, d_trace d)).
Proof.
  intros Hbs run. subst run. unfold send_mail_graph_batch, ready.
  destruct receivers as [|r0 rest]; [left; eexists; eauto|].
  destruct (get_graph_config w) as [config|] eqn:Hconfig.
  2:{ left. eexists. split; [|done]. right. by intros [?%is_Some_None _]. }
  destruct (truthy (get_access_token w)); simpl negb; cbv iota.
  2:{ left. eexists. split; [|done]. right. by intros [_ ?]. }
  destruct (assemble w content_text content_html attachments inline_images)
    as [[html atts]|e] eqn:Hasm; [|right; left; eauto].
  right. right.
  destruct (Z.eqb_spec batch_size 0); [lia|].
  fold (batches_needed (r0 :: rest) batch_size).
  destruct (batch_loop _ _ _ _ _ _ _ _ _ _ _ _) as [d stopped] eqn:Hloop.
  exists config, html, atts, d, stopped. by destruct stopped.
Qed.




(** C5. The [sendMail] requests of [send_mail_graph_bulk] go to the first
    receivers of the list, one request per entry and in the order of the
    list, so no entry is sent to twice. When a result comes back, either no
    request was made and every receiver is reported as failed, or every
    receiver got exactly one request, those whose request was not accepted
    with status 202 are the ones reported as failed, and the others the ones
    reported as successful. *)
Theorem bulk_one_request_per_receiver (w : world) receivers subject content_text
    content_html attachments inline_images progress_callback (delay : Q) :
  let run := send_mail_graph_bulk w receivers subject content_text content_html
               attachments inline_images progress_callback delay in
  targets run.2 `prefix_of` receivers
  ∧ (NoDup receivers → NoDup (targets run.2))
  ∧ (∀ r, run.1 = Ok r →
       (targets run.2 = [] ∧ successful_emails r = []
        ∧ map fail_email (failed_emails r) = receivers)
       ∨ (targets run.2 = receivers
          ∧ successful_emails r = select (λ i, accepted (http w i)) 0 receivers
          ∧ map fail_email (failed_emails r)
            = select (λ i, negb (accepted (http w i))) 0 receivers)).
Proof.
  intros run.
  assert (targets run.2 `prefix_of` receivers
          ∧ (∀ r, run.1 = Ok r →
               (targets run.2 = [] ∧ successful_emails r = []
                ∧ map fail_email (failed_emails r) = receivers)
               ∨ (targets run.2 = receivers
                  ∧ successful_emails r = select (λ i, accepted (http w i)) 0 receivers
                  ∧ map fail_email (failed_emails r)
                    = select (λ i, negb (accepted (http w i))) 0 receivers))) as [Hpre Hres].
  { subst run.
    destruct (bulk_run w receivers subject content_text content_html attachments
                inline_images progress_callback delay)
      as [(error & _ & ->) | [(e & He & ->) | (config & html & atts & d & stopped
                                                & _ & _ & Hloop & ->)]]; simpl.
    - split; [apply prefix_nil|]. intros r [= <-]. left. simpl.
      by rewrite map_map, map_id.
    - split; [apply prefix_nil|]. by intros r ?.
    - apply bulk_loop_spec in Hloop as (walked & Hpre & Hall & _ & _ & Ht & Hs & Hf).
      simpl in Ht, Hs, Hf. rewrite Ht. split; [done|].
      intros r Hr. destruct stopped; [done|]. injection Hr as <-. right. simpl.
      by rewrite Hs, Hf, (Hall eq_refl). }
  split; [done|]. split; [|done].
  intros Hnd. destruct Hpre as [tl Htl]. rewrite Htl in Hnd.
  by apply NoDup_app in Hnd as [? _].
Qed.


End Dispatchers.

(** *** The dispatchers on concrete worlds *)

Definition three_receivers : list pystr :=
  [lit "ana@example.org"; lit "bea@example.org"; lit "carl@example.org"].


(** A server that takes the first and the third message and refuses the
    second. *)
Definition moody_world : GraphMail.world := {|
  GraphMail.getenv := GraphMail.getenv accepting_world;
  GraphMail.msal_installed := true;
  GraphMail.token_reply := Some (lit "token");
  GraphMail.fs := GraphMail.fs accepting_world;
  GraphMail.http := fun n => if Nat.eqb n 1 then GraphMail.Response 500 (lit "no") None
                             else GraphMail.Response 202 [] None
|}.

Example bulk_on_moody_world :
  (@GraphMail.send_mail_graph_bulk ascii_runtime moody_world three_receivers
     (lit "Hola") (lit "texto") None None false false 2).1
  = Ok {| GraphMail.total := 3; GraphMail.successful := 2; GraphMail.failed := 1;
          GraphMail.successful_emails := [lit "ana@example.org"; lit "carl@example.org"];
          GraphMail.failed_emails :=
            [ {| GraphMail.fail_email := lit "bea@example.org";
                 GraphMail.fail_error := lit "HTTP 500: no" |} ] |}.
Proof. by vm_compute. Qed.

(** A negative delay stops the dispatch after the first request. *)
Example bulk_negative_delay :
  let run := @GraphMail.send_mail_graph_bulk ascii_runtime accepting_world three_receivers
               (lit "Hola") (lit "texto") None None false false (-1) in
  run.1 = Raise ValueError ∧ targets run.2 = [lit "ana@example.org"].
Proof. by vm_compute. Qed.


Definition seven_receivers : list pystr :=
  map (λ c, c :: lit "@example.org") (lit "abcdefg").

Example batch_plan_of_seven :
  batch_plan seven_receivers 3
  = [ [lit "a@example.org"; lit "b@example.org"; lit "c@example.org"];
      [lit "d@example.org"; lit "e@example.org"; lit "f@example.org"];
      [lit "g@example.org"] ].
Proof. by vm_compute. Qed.

Example batches_sent_for_seven :
  batches_of (@GraphMail.send_mail_graph_batch ascii_runtime accepting_world seven_receivers
                (lit "Hola") (lit "texto") None None false true 3).2
  = batch_plan seven_receivers 3.
Proof. by vm_compute. Qed.



Definition plain_html : pystr :=
  GraphMail.ensure_footer_once (lit "<div>texto</div>").


(** A server that answers every batch of three in full, last request first,
    and refuses the request with [id] 4. *)
Definition item (id : Z) : GraphMail.batch_item := {|
  GraphMail.item_id := Some id;
  GraphMail.item_status := Some (if (id =? 4)%Z then 400%Z else 202%Z);
  GraphMail.item_error_message := None
|}.

Definition thorough_world : GraphMail.world := {|
  GraphMail.getenv := GraphMail.getenv accepting_world;
  GraphMail.msal_installed := true;
  GraphMail.token_reply := Some (lit "token");
  GraphMail.fs := GraphMail.fs accepting_world;
  GraphMail.http := fun n =>
    GraphMail.Response 200 []
      (Some (match n with
             | 0%nat => [item 2; item 1; item 0]
             | 1%nat => [item 5; item 4; item 3]
             | _ => [item 6]
             end))
|}.


Example batch_on_thorough_world :
  ∃ r, (@GraphMail.send_mail_graph_batch ascii_runtime thorough_world seven_receivers
          (lit "Hola") (lit "texto") None None false false 3).1 = Ok r
       ∧ GraphMail.successful_emails r
         = [lit "c@example.org"; lit "b@example.org"; lit "a@example.org";
            lit "f@example.org"; lit "d@example.org"; lit "g@example.org"]
       ∧ map GraphMail.fail_email (GraphMail.failed_emails r) = [lit "e@example.org"].
Proof. eexists. by vm_compute. Qed.


(** ** [LinkedInClient.get_post_metrics] and [get_post_metrics_advanced] *)

Section Metrics.
Import LinkedIn.


Lemma round2_zero : (round2 0 == 0)%Q.
Proof. by vm_compute. Qed.



Lemma posts_loop_rows server aggregation (todo : list pystr) :
  ∀ n all_metrics rows, posts_loop server aggregation todo n all_metrics = Some rows →
  ∀ row, row ∈ rows → row ∈ all_metrics ∨ ∃ pm, row = derive pm.
Proof.
  induction todo as [|post_id rest IH]; intros n all_metrics rows; cbn [posts_loop].
  - intros [= <-] row Hrow. by left.
  - destruct (metrics_loop server aggregation (metrics_types aggregation) n _)
      as [[pm n']|]; [|done].
    intros H row Hrow. destruct (IH _ _ _ H row Hrow) as [Hin | Hd]; [|by right].
    apply elem_of_app in Hin as [Hin | Hin%list_elem_of_singleton]; [by left|].
    right. eauto.
Qed.


End Metrics.


Definition organisation : LinkedIn.client := {|
  LinkedIn.author_urn := lit "urn:li:organization:1";
  LinkedIn.is_organization := true;
  LinkedIn.post_visibility := lit "PUBLIC";
  LinkedIn.base_url := lit "https://api.linkedin.com/rest"
|}.

Definition busy_share : LinkedIn.share_element := {|
  LinkedIn.el_share := Some (lit "urn:li:share:2");
  LinkedIn.el_totalShareStatistics :=
    Some (<["impressionCount" := 800%Z]> (<["likeCount" := 1%Z]> ∅))
|}.

Example ER_of_busy_share :
  LinkedIn.row_ER (LinkedIn.row_of_element busy_share) = (12 # 100)%Q.
Proof. by vm_compute. Qed.



(** ** Which posts [get_post_metrics] asks for *)

Section WhichPosts.
Import LinkedIn.



End WhichPosts.

Example get_post_metrics_mixed :
  (LinkedIn.get_post_metrics organisation (fun _ => LinkedIn.StatsException)
     (LinkedIn.IdsList [lit "urn:li:ugcPost:7"; lit "urn:li:share:8"])).2
  = [lit "https://api.linkedin.com/rest/organizationalEntityShareStatistics?q=organizationalEntity&organizationalEntity=urn%3Ali%3Aorganization%3A1&shares=List(urn%3Ali%3Ashare%3A8)"].
Proof. by vm_compute. Qed.

Example get_post_metrics_truncates :
  length (LinkedIn.valid_post_ids (replicate 25 (lit "urn:li:share:8"))) = 20%nat.
Proof. by vm_compute. Qed.

(** ** [LinkedInClient.post] *)

Section Post.
Import LinkedIn.

(** The events of handling one image: its registration and its upload. *)
Definition image_events (item : pystr * (pystr * pystr)) : list post_event :=
  let '(path, (asset_urn, upload_url)) := item in
  [EvRegister false; EvUpload upload_url path].

(** The image loop, when it gets through: one registration per path, taken
    in order from the server's answers. *)
Lemma images_loop_spec (w : post_world) (todo : list pystr) :
  ∀ n asset_urns trace asset_urns' trace',
  images_loop w todo n asset_urns trace = (Ok asset_urns', trace') →
  ∃ regs : list (pystr * pystr),
    length regs = length todo
    ∧ (∀ i r, regs !! i = Some r → register_reply w (n + i) = Ok r)
    ∧ asset_urns' = asset_urns ++ map fst regs
    ∧ trace' = trace ++ flat_map image_events (zip todo regs).
Proof.
  induction todo as [|path rest IH]; intros n asset_urns trace asset_urns' trace'; simpl.
  - intros [= <- <-]. exists []. simpl. rewrite !app_nil_r. by repeat split.
  - destruct (register_reply w n) as [[asset_urn upload_url]|] eqn:Hreg; [|done].
    destruct (upload_reply w n) as [[]|]; [|done].
    intros H. apply IH in H as (regs & Hlen & Hregs & -> & ->).
    exists ((asset_urn, upload_url) :: regs). simpl.
    split; [by rewrite Hlen|]. split.
    + intros [|i] r; simpl.
      * intros [= <-]. by rewrite Nat.add_0_r.
      * intros Hi. replace (n + S i)%nat with (S n + i)%nat by lia. by apply Hregs.
    + rewrite <- !app_assoc. done.
Qed.

(** The image loop gets through when every registration and every upload
    does. *)
Lemma images_loop_completes (w : post_world) (todo : list pystr) :
  (∀ n, ∃ r, register_reply w n = Ok r) → (∀ n, upload_reply w n = Ok tt) →
  ∀ n asset_urns trace, ∃ asset_urns' trace',
    images_loop w todo n asset_urns trace = (Ok asset_urns', trace').
Proof.
  intros Hreg Hup. induction todo as [|path rest IH]; intros n asset_urns trace; simpl.
  - eauto.
  - destruct (Hreg n) as [[asset_urn upload_url] ->]. rewrite Hup. apply IH.
Qed.

Definition is_ugc_post (ev : post_event) : bool :=
  match ev with
  | EvUgcPost _ => true
  | _ => false
  end.

Lemma images_loop_no_post (w : post_world) (todo : list pystr) :
  ∀ n asset_urns trace result trace',
  images_loop w todo n asset_urns trace = (result, trace') →
  forallb (λ ev, negb (is_ugc_post ev)) trace = true →
  forallb (λ ev, negb (is_ugc_post ev)) trace' = true.
Proof.
  induction todo as [|path rest IH]; intros n asset_urns trace result trace'; simpl.
  - by intros [= <- <-].
  - destruct (register_reply w n) as [[asset_urn upload_url]|].
    + destruct (upload_reply w n) as [[]|].
      * intros H Ht. apply IH in H; [done|]. rewrite !forallb_app, Ht. done.
      * intros [= <- <-] Ht. rewrite !forallb_app, Ht. done.
    + intros [= <- <-] Ht. rewrite !forallb_app, Ht. done.
Qed.

(** What [choose_media] decides and does. *)
Lemma choose_media_spec (w : post_world) (image_paths : option (list pystr))
    (video_path : option pystr) result trace :
  choose_media w image_paths video_path = (result, trace) →
  forallb (λ ev, negb (is_ugc_post ev)) trace = true
  ∧ ∀ media_category media_list, result = Ok (media_category, media_list) →
      (text_given video_path = true →
       ∃ asset_urn upload_url,
         register_reply w 0 = Ok (asset_urn, upload_url)
         ∧ media_category = lit "VIDEO" ∧ media_list = [ready asset_urn]
         ∧ trace = [EvRegister true; EvUpload upload_url (default [] video_path)])
      ∧ (text_given video_path = false → list_given image_paths = true →
         ∃ regs : list (pystr * pystr),
           length regs = length (default [] image_paths)
           ∧ (∀ i r, regs !! i = Some r → register_reply w i = Ok r)
           ∧ regs ≠ []
           ∧ media_category = lit "IMAGE"
           ∧ media_list = map (λ r, ready r.1) regs
           ∧ trace = flat_map image_events (zip (default [] image_paths) regs))
      ∧ (text_given video_path = false → list_given image_paths = false →
         media_category = lit "NONE" ∧ media_list = [] ∧ trace = []).
Proof.
  unfold choose_media.
  destruct (text_given video_path) eqn:Hv.
  - destruct (register_reply w 0) as [[asset_urn upload_url]|];
      [|by intros [<- <-]%pair_eq].
    destruct (upload_reply w 0) as [[]|]; [|by intros [<- <-]%pair_eq].
    intros [<- <-]%pair_eq. split; [done|].
    intros ? ? [= <- <-]. split; [|by split].
    intros _. exists asset_urn, upload_url. by repeat split.
  - destruct (list_given image_paths) eqn:Hi.
    + destruct (images_loop w (default [] image_paths) 0 [] [])
        as [[asset_urns|e] trace0] eqn:Hloop.
      * intros [<- <-]%pair_eq.
        split; [by apply (images_loop_no_post _ _ _ _ _ _ _ Hloop)|].
        intros ? ? [= <- <-]. split; [done|]. split; [|done].
        intros _ _. apply images_loop_spec in Hloop as (regs & Hlen & Hregs & -> & ->).
        exists regs. split; [done|]. split; [done|]. split.
        { intros ->. destruct image_paths as [[|? ?]|]; done. }
        simpl. by rewrite map_map.
      * intros [<- <-]%pair_eq.
        split; [by apply (images_loop_no_post _ _ _ _ _ _ _ Hloop)|]. done.
    + intros [<- <-]%pair_eq. split; [done|].
      intros ? ? [= <- <-]. by repeat split.
Qed.

Lemma no_post_in (trace : list post_event) (payload : ugc_payload) :
  forallb (λ ev, negb (is_ugc_post ev)) trace = true → EvUgcPost payload ∉ trace.
Proof.
  intros H Hin. rewrite forallb_forall in H.
  apply list_elem_of_In in Hin. by apply H in Hin.
Qed.

(** C10. Whatever [post] sends to [ugcPosts]: with a [video_path] the
    category is VIDEO, the only upload is the video and the media list is the
    one asset registered for it, whatever [image_paths] holds; with image
    paths and no video the category is IMAGE and the media list has, in the
    order of the paths, the asset registered for each image, each image being
    uploaded to the URL of its own registration; with neither the category is
    NONE and the payload has no media key. The payload is sent whenever every
    registration and upload succeeds. *)
Theorem post_media_selection (c : client) (w : post_world) (text : pystr)
    (image_paths : option (list pystr)) (video_path : option pystr) :
  let trace := (post c w text image_paths video_path).2 in
  (∀ payload, EvUgcPost payload ∈ trace →
     (text_given video_path = true →
      ∃ asset_urn upload_url,
        register_reply w 0 = Ok (asset_urn, upload_url)
        ∧ ugc_shareMediaCategory payload = lit "VIDEO"
        ∧ ugc_media payload = Some [ready asset_urn]
        ∧ trace = [EvRegister true; EvUpload upload_url (default [] video_path);
                   EvUgcPost payload])
     ∧ (text_given video_path = false → list_given image_paths = true →
        ∃ regs : list (pystr * pystr),
          length regs = length (default [] image_paths)
          ∧ (∀ i r, regs !! i = Some r → register_reply w i = Ok r)
          ∧ ugc_shareMediaCategory payload = lit "IMAGE"
          ∧ ugc_media payload = Some (map (λ r, ready r.1) regs)
          ∧ trace = flat_map image_events (zip (default [] image_paths) regs)
                    ++ [EvUgcPost payload])
     ∧ (text_given video_path = false → list_given image_paths = false →
        ugc_shareMediaCategory payload = lit "NONE"
        ∧ ugc_media payload = None
        ∧ trace = [EvUgcPost payload]))
  ∧ ((∀ n, ∃ r, register_reply w n = Ok r) → (∀ n, upload_reply w n = Ok tt) →
     ∃ payload, EvUgcPost payload ∈ trace).
Proof.
  intros trace. subst trace. unfold post.
  destruct (choose_media w image_paths video_path) as [result trace] eqn:Hc.
  pose proof (choose_media_spec _ _ _ _ _ Hc) as [Hno Hok].
  split.
  - intros payload Hin.
    destruct result as [[media_category media_list]|e]; simpl in Hin.
    2:{ by apply no_post_in in Hin. }
    apply elem_of_app in Hin as [Hin | Hin%list_elem_of_singleton];
      [by apply no_post_in in Hin|].
    injection Hin as ->.
    destruct (Hok _ _ eq_refl) as (Hvideo & Himages & Hnone). simpl.
    split; [|split].
    + intros Hv. destruct (Hvideo Hv) as (asset_urn & upload_url & ? & -> & -> & ->).
      exists asset_urn, upload_url. by repeat split.
    + intros Hv Hi.
      destruct (Himages Hv Hi) as (regs & ? & ? & Hne & -> & -> & ->).
      exists regs. repeat split; try done. simpl.
      destruct regs; done.
    + intros Hv Hi. destruct (Hnone Hv Hi) as (-> & -> & ->). by repeat split.
  - intros Hreg Hup.
    assert (∃ ok, result = Ok ok) as [[media_category media_list] ->].
    { revert Hc. unfold choose_media.
      destruct (text_given video_path).
      - destruct (Hreg 0%nat) as [[asset_urn upload_url] ->]. rewrite Hup.
        intros [<- _]%pair_eq. eauto.
      - destruct (list_given image_paths).
        + destruct (images_loop_completes w (default [] image_paths) Hreg Hup 0 [] [])
            as (asset_urns & trace0 & ->).
          intros [<- _]%pair_eq. eauto.
        + intros [<- _]%pair_eq. eauto. }
    simpl. eexists. apply elem_of_app. right. apply list_elem_of_here.
Qed.

End Post.

Definition helpful_linkedin : LinkedIn.post_world := {|
  LinkedIn.register_reply := fun n =>
    Ok (lit "urn:li:digitalmediaAsset:" ++ of_Z (Z.of_nat n),
        lit "https://upload.example/" ++ of_Z (Z.of_nat n));
  LinkedIn.upload_reply := fun _ => Ok tt;
  LinkedIn.ugc_reply := Ok (lit "{}")
|}.

Example post_video_and_images :
  (LinkedIn.post organisation helpful_linkedin (lit "Hola")
     (Some [lit "a.png"; lit "b.png"]) (Some (lit "clip.mp4"))).2
  = [LinkedIn.EvRegister true;
     LinkedIn.EvUpload (lit "https://upload.example/0") (lit "clip.mp4");
     LinkedIn.EvUgcPost
       {| LinkedIn.ugc_author := lit "urn:li:organization:1";
          LinkedIn.ugc_lifecycleState := lit "PUBLISHED";
          LinkedIn.ugc_text := lit "Hola";
          LinkedIn.ugc_shareMediaCategory := lit "VIDEO";
          LinkedIn.ugc_media :=
            Some [LinkedIn.ready (lit "urn:li:digitalmediaAsset:0")];
          LinkedIn.ugc_visibility := lit "PUBLIC" |}].
Proof. by vm_compute. Qed.

Example post_two_images :
  ∃ payload,
    (LinkedIn.post organisation helpful_linkedin (lit "Hola")
       (Some [lit "a.png"; lit "b.png"]) None).2
    = [LinkedIn.EvRegister false;
       LinkedIn.EvUpload (lit "https://upload.example/0") (lit "a.png");
       LinkedIn.EvRegister false;
       LinkedIn.EvUpload (lit "https://upload.example/1") (lit "b.png");
       LinkedIn.EvUgcPost payload]
    ∧ LinkedIn.ugc_media payload
      = Some [LinkedIn.ready (lit "urn:li:digitalmediaAsset:0");
              LinkedIn.ready (lit "urn:li:digitalmediaAsset:1")].
Proof. eexists. split; by vm_compute. Qed.

(** ** The collectors of [auto_analytics.py] *)

Section Collectors.
Import AutoAnalytics.

(** A computation that never touches what is committed. *)
Definition keeps_stored {A} (m : M A) : Prop :=
  ∀ s result s', m s = (result, s') → stored s' = stored s.

Lemma keeps_stored_ret {A} (a : A) : keeps_stored (ret a).
Proof. by intros s result s' [= <- <-]. Qed.

Lemma keeps_stored_raise {A} (e : exn) : keeps_stored (@raise A e).
Proof. by intros s result s' [= <- <-]. Qed.

Lemma keeps_stored_bind {A B} (m : M A) (k : A → M B) :
  keeps_stored m → (∀ a, keeps_stored (k a)) → keeps_stored (bind m k).
Proof.
  intros Hm Hk s result s'. unfold bind.
  destruct (m s) as [[a|e] s1] eqn:E.
  - intros H. apply Hk in H. apply Hm in E. congruence.
  - intros [= <- <-]. by apply Hm in E.
Qed.

Lemma keeps_stored_statement (env : environment) : keeps_stored (statement env).
Proof.
  intros s result s'. unfold statement.
  destruct (db_fault env (db_ops s)); by intros [= <- <-].
Qed.

Lemma keeps_stored_update (f : database → database) : keeps_stored (update_working f).
Proof. by intros s result s' [= <- <-]. Qed.

Lemma keeps_stored_to_int (cell : option Z) : keeps_stored (to_int cell).
Proof. destruct cell; [apply keeps_stored_ret | apply keeps_stored_raise]. Qed.

Create HintDb stored.
#[local] Hint Resolve keeps_stored_ret keeps_stored_raise keeps_stored_statement
  keeps_stored_update keeps_stored_to_int : stored.

Ltac keeps := repeat (apply keeps_stored_bind; [|intros ?]); eauto with stored.

Lemma metrics_loop_keeps_stored env df_metrics (todo : list post_detail) :
  ∀ metrics_saved, keeps_stored (metrics_loop env df_metrics todo metrics_saved).
Proof.
  induction todo as [|post rest IH]; intros metrics_saved; simpl.
  - apply keeps_stored_ret.
  - destruct (List.filter _ df_metrics); [apply IH|]. keeps.
Qed.

Lemma growth_loop_keeps_stored env (todo : list (Z * option Z * option Z * option Z)) :
  ∀ records_saved, keeps_stored (growth_loop env todo records_saved).
Proof.
  induction todo as [|[[[fecha organica] pagada] total] rest IH];
    intros records_saved; simpl.
  - apply keeps_stored_ret.
  - apply keeps_stored_bind; [apply keeps_stored_statement|]. intros _ s.
    destruct (find_day fecha (linkedin_follower_metrics (working s))); revert s; keeps.
Qed.

(** A loop followed by [commit]: if it raises, nothing was committed. *)
Lemma commit_after_keeps_stored (env : environment) (loop : M nat)
    (s s' : session) (e : exn) :
  keeps_stored loop →
  (do n <- loop; commit env ;> ret n) s = (Raise e, s') →
  stored s' = stored s.
Proof.
  intros Hloop. unfold bind at 1.
  destruct (loop s) as [[n|e1] s1] eqn:E1; apply Hloop in E1.
  - unfold bind, commit, bind.
    destruct (statement env s1) as [[[]|e2] s2] eqn:E2;
      apply keeps_stored_statement in E2; [done|].
    intros [= <- <-]. congruence.
  - intros [= <- <-]. done.
Qed.

(** C6. When the [try] block of [collect_linkedin_metrics] or of
    [collect_follower_growth] raises — a database statement or the commit
    fails, or a cell cannot be converted — the function rolls the session
    back and returns 0, and the committed tables are what they were before
    the call: nothing the call added or changed is kept. *)
Theorem collectors_roll_back :
  (∀ (env : environment) (api : linkedin_api) (s s' : session) (e : exn),
     collect_linkedin_metrics_try env api s = (Raise e, s') →
     collect_linkedin_metrics env api s = (0%nat, rollback s')
     ∧ stored (rollback s') = stored s
     ∧ working (rollback s') = stored s)
  ∧ (∀ (env : environment) (api : linkedin_api) (s s' : session) (e : exn),
       collect_follower_growth_try env api s = (Raise e, s') →
       collect_follower_growth env api s = (0%nat, rollback s')
       ∧ stored (rollback s') = stored s
       ∧ working (rollback s') = stored s).
Proof.
  split; intros env api s s' e Htry.
  - assert (stored s' = stored s) as Hstored.
    { revert Htry. unfold collect_linkedin_metrics_try.
      destruct (recent_posts_details api) as [|p posts]; [done|].
      destruct (LinkedIn.get_post_metrics _ _ _).1 as [[|row rows]|]; try done.
      apply commit_after_keeps_stored, metrics_loop_keeps_stored. }
    unfold collect_linkedin_metrics. rewrite Htry. by simpl.
  - assert (stored s' = stored s) as Hstored.
    { revert Htry. unfold collect_follower_growth_try.
      destruct (follower_growth api) as [[|row rows]|]; try done.
      apply commit_after_keeps_stored, growth_loop_keeps_stored. }
    unfold collect_follower_growth. rewrite Htry. by simpl.
Qed.

End Collectors.

(** Two days of follower figures, the second one without a usable total, on
    a database that already holds the first day. *)
Definition two_days : AutoAnalytics.linkedin_api := {|
  AutoAnalytics.api_client := organisation;
  AutoAnalytics.recent_posts_details := [];
  AutoAnalytics.share_server := fun _ => LinkedIn.StatsException;
  AutoAnalytics.follower_growth :=
    Some [(1, Some 5, Some 0, Some 5); (2, Some 1, Some 1, None)]%Z
|}.

Definition quiet_environment : AutoAnalytics.environment := {|
  AutoAnalytics.utcnow := 100;
  AutoAnalytics.strptime := fun _ => None;
  AutoAnalytics.db_fault := fun _ => false
|}.

Definition one_day_stored : AutoAnalytics.session :=
  let db := {| AutoAnalytics.linkedin_metrics := [];
               AutoAnalytics.linkedin_follower_metrics :=
                 [ {| AutoAnalytics.fm_date := 1; AutoAnalytics.fm_ganancia_organica := 2;
                      AutoAnalytics.fm_ganancia_pagada := 0;
                      AutoAnalytics.fm_ganancia_total := 2;
                      AutoAnalytics.fm_collected_at := 50 |} ] |} in
  {| AutoAnalytics.stored := db; AutoAnalytics.working := db; AutoAnalytics.db_ops := 0 |}.

(** The first day is updated in the session, the second day raises, and the
    rollback leaves the stored table as it was. *)
Example follower_growth_rolls_back :
  ∃ s', AutoAnalytics.collect_follower_growth quiet_environment two_days one_day_stored
        = (0%nat, s')
        ∧ AutoAnalytics.stored s' = AutoAnalytics.stored one_day_stored
        ∧ AutoAnalytics.working s' = AutoAnalytics.stored one_day_stored.
Proof. eexists. by vm_compute. Qed.

Example follower_growth_try_raises :
  ∃ s', AutoAnalytics.collect_follower_growth_try quiet_environment two_days one_day_stored
        = (Raise ValueError, s')
        ∧ AutoAnalytics.working s' ≠ AutoAnalytics.stored one_day_stored.
Proof. eexists. split; [by vm_compute | by vm_compute]. Qed.

(** One recent post with statistics, and a database whose second statement
    (the commit) fails. *)
Definition one_post : AutoAnalytics.linkedin_api := {|
  AutoAnalytics.api_client := organisation;
  AutoAnalytics.recent_posts_details :=
    [ {| AutoAnalytics.pd_post_id := lit "urn:li:share:2";
         AutoAnalytics.pd_fecha := None;
         AutoAnalytics.pd_texto_completo := Some (lit "Hola");
         AutoAnalytics.pd_texto_corto := None;
         AutoAnalytics.pd_tipo := None |} ];
  AutoAnalytics.share_server := fun _ => LinkedIn.StatsResponse 200 [busy_share];
  AutoAnalytics.follower_growth := None
|}.

Definition failing_commit : AutoAnalytics.environment := {|
  AutoAnalytics.utcnow := 100;
  AutoAnalytics.strptime := fun _ => None;
  AutoAnalytics.db_fault := fun n => Nat.eqb n 1
|}.

Example linkedin_metrics_saved :
  (AutoAnalytics.collect_linkedin_metrics quiet_environment one_post one_day_stored).1
  = 1%nat.
Proof. by vm_compute. Qed.

Example linkedin_metrics_roll_back :
  ∃ s', AutoAnalytics.collect_linkedin_metrics failing_commit one_post one_day_stored
        = (0%nat, s')
        ∧ AutoAnalytics.stored s' = AutoAnalytics.stored one_day_stored
        ∧ AutoAnalytics.working s' = AutoAnalytics.stored one_day_stored.
Proof. eexists. by vm_compute. Qed.

Lemma collectors_roll_back_witness :
  ∃ s' e,
    AutoAnalytics.collect_linkedin_metrics_try failing_commit one_post one_day_stored
      = (Raise e, s')
    ∧ AutoAnalytics.collect_linkedin_metrics failing_commit one_post one_day_stored
      = (0%nat, AutoAnalytics.rollback s')
    ∧ AutoAnalytics.stored (AutoAnalytics.rollback s')
      = AutoAnalytics.stored one_day_stored
    ∧ AutoAnalytics.working (AutoAnalytics.rollback s')
      = AutoAnalytics.stored one_day_stored.
Proof.
  eexists _, _.
  assert (AutoAnalytics.collect_linkedin_metrics_try failing_commit one_post one_day_stored
          = (Raise DBError, (AutoAnalytics.collect_linkedin_metrics_try failing_commit
                               one_post one_day_stored).2)) as Htry by (by vm_compute).
  split; [exact Htry|].
  exact (proj1 collectors_roll_back failing_commit one_post one_day_stored _ _ Htry).
Defined.

(** * Further properties of [graph_mail.py] *)

Section DispatchEdges.
Import GraphMail.
Context `{R : PyRuntime}.

(** [send_mail_graph]: nothing is sent, and [False] comes back, when the
    configuration, the receivers or the token are missing; otherwise exactly
    one message goes out, addressed to all receivers at once, with copies
    only when there are any, and the answer is [True] exactly for status 202. *)
Theorem send_mail_graph_outcome (w : world) receivers subject content_text content_html
    attachments cc bcc inline_images :
  let run := send_mail_graph w receivers subject content_text content_html attachments
               cc bcc inline_images in
  (receivers = [] ∨ ¬ ready w → run = (Ok false, []))
  ∧ (∀ e, receivers ≠ [] → ready w →
       assemble w content_text content_html attachments inline_images = Raise e →
       run = (Raise e, []))
  ∧ (∀ config html atts, receivers ≠ [] → truthy (get_access_token w) = true →
       get_graph_config w = Some config →
       assemble w content_text content_html attachments inline_images = Ok (html, atts) →
       run = (Ok (accepted (http w 0)),
              [EvSendMail (sendMail_endpoint config)
                 {| msg_subject := subject; msg_body := html;
                    msg_toRecipients := receivers;
                    msg_ccRecipients := if_nonempty cc;
                    msg_bccRecipients := if_nonempty bcc;
                    msg_attachments := if_nonempty atts |}])).
Proof.
  intros run. subst run. unfold send_mail_graph, ready. split; [|split].
  - intros Hwhy. destruct (get_graph_config w) as [config|] eqn:Hc; [|done].
    destruct receivers as [|r0 rest]; [done|].
    destruct Hwhy as [? | Hnot]; [done|].
    destruct (truthy (get_access_token w)); [|done].
    destruct Hnot. split; [by eexists | done].
  - intros e Hne [[config Hc] Ht] Hasm. rewrite Hc, Ht, Hasm.
    by destruct receivers.
  - intros config html atts Hne Ht Hc Hasm. rewrite Hc, Ht, Hasm.
    destruct receivers as [|r0 rest]; [done|]. simpl.
    unfold accepted. by destruct (http w 0).
Qed.

(** The error text the dispatchers report for every receiver when they
    cannot start. *)
Definition not_ready_error (w : world) (token_error : pystr) : pystr :=
  match get_graph_config w with
  | None => lit "Configuración incompleta"
  | Some _ => token_error
  end.

(** Without configuration or token, [send_mail_graph_bulk] and
    [send_mail_graph_batch] send nothing and report every receiver as failed,
    all with the same error: the missing configuration first, the missing
    token otherwise. This comes before anything else is looked at, so not
    even a [batch_size] of 0 or a negative delay raises. *)
Theorem dispatch_not_ready (w : world) receivers subject content_text content_html
    attachments inline_images progress_callback (delay : Q) (batch_size : Z) :
  ¬ ready w →
  send_mail_graph_bulk w receivers subject content_text content_html attachments
    inline_images progress_callback delay
  = (Ok (all_failed receivers
           (match receivers with
            | [] => []
            | _ => not_ready_error w (lit "No se pudo obtener token de acceso")
            end)), [])
  ∧ send_mail_graph_batch w receivers subject content_text content_html attachments
      inline_images progress_callback batch_size
    = (Ok (all_failed receivers
             (match receivers with
              | [] => []
              | _ => not_ready_error w (lit "No se pudo obtener token")
              end)), []).
Proof.
  intros Hnot. unfold send_mail_graph_bulk, send_mail_graph_batch, not_ready_error, ready in *.
  destruct receivers as [|r0 rest]; [done|].
  destruct (get_graph_config w) as [config|]; [|done].
  destruct (truthy (get_access_token w)); [|done].
  destruct Hnot. split; [by eexists | done].
Qed.

(** A [batch_size] that is not positive: 0 raises [ZeroDivisionError] before
    any request; with a negative one and at least two receivers no batch is
    planned at all, so nothing is sent and the result names nobody, neither
    as successful nor as failed. *)
Theorem batch_size_not_positive (w : world) receivers subject content_text content_html
    attachments inline_images progress_callback (batch_size : Z) html atts :
  ready w → receivers ≠ [] →
  assemble w content_text content_html attachments inline_images = Ok (html, atts) →
  let run := send_mail_graph_batch w receivers subject content_text content_html
               attachments inline_images progress_callback batch_size in
  (batch_size = 0%Z → run = (Raise ZeroDivisionError, []))
  ∧ ((batch_size < 0)%Z → (2 ≤ length receivers)%nat →
     run = (Ok {| total := length receivers; successful := 0; failed := 0;
                  successful_emails := []; failed_emails := [] |}, [])).
Proof.
  intros [[config Hc] Ht] Hne Hasm run. subst run.
  unfold send_mail_graph_batch. rewrite Hc, Ht, Hasm.
  destruct receivers as [|r0 rest]; [done|]. cbn [negb].
  split.
  - by intros ->.
  - intros Hbs Hlen. destruct (Z.eqb_spec batch_size 0) as [|Hnz0]; [lia|].
    apply Nat2Z.inj_le in Hlen.
    set (m := Z.of_nat (length (r0 :: rest))) in *.
    assert ((m + batch_size - 1) / batch_size ≤ 0)%Z as Hq.
    { pose proof (Z.div_mod (m + batch_size - 1) batch_size Hnz0) as Hdm.
      pose proof (Z.mod_neg_bound (m + batch_size - 1) batch_size ltac:(lia)) as Hm.
      nia. }
    replace (Z.to_nat ((m + batch_size - 1) / batch_size)) with 0%nat by lia.
    done.
Qed.

End DispatchEdges.

(** ** What goes over the wire, message by message *)

Section Messages.
Import GraphMail.
Context `{R : PyRuntime}.

(** The messages an event carries. *)
Definition messages_of (ev : event) : list message :=
  match ev with
  | EvSendMail _ m => [m]
  | EvBatch _ requests => map req_body requests
  | _ => []
  end.

(** The calls of the progress callback in a trace: index, total, address. *)
Definition progress_of (trace : list event) : list (nat * nat * pystr) :=
  omap (λ ev, match ev with
              | EvProgress idx total email => Some (idx, total, email)
              | _ => None
              end) trace.

(** The receivers numbered from [idx] on. *)
Fixpoint numbered (total idx : nat) (l : list pystr) : list (nat * nat * pystr) :=
  match l with
  | [] => []
  | r :: t => (idx, total, r) :: numbered total (S idx) t
  end.

Lemma progress_of_app (t1 t2 : list event) :
  progress_of (t1 ++ t2) = progress_of t1 ++ progress_of t2.
Proof. unfold progress_of. by rewrite omap_app. Qed.

Lemma numbered_app (total idx : nat) (l1 l2 : list pystr) :
  numbered total idx (l1 ++ l2)
  = numbered total idx l1 ++ numbered total (idx + length l1) l2.
Proof.
  revert idx. induction l1 as [|r l1 IH]; intros idx; simpl.
  - by rewrite Nat.add_0_r.
  - rewrite IH. do 3 f_equal. lia.
Qed.

Section Loops.
Variables (w : world) (receivers : list pystr) (sender endpoint subject html : pystr).
Variables (atts : list attachment) (progress_callback : bool).

(** A message to one receiver, built from the subject, HTML and attachments
    of the call. *)
Definition individual (m : message) : Prop :=
  ∃ r, r ∈ receivers ∧ m = single_message subject html atts r.

Definition carries_individual (ev : event) : Prop :=
  Forall individual (messages_of ev).

Lemma bulk_loop_messages (delay : Q) (total : nat) (todo : list pystr) :
  ∀ idx d d' stopped,
  bulk_loop w endpoint subject html atts progress_callback delay total idx todo d
    = (d', stopped) →
  todo ⊆ receivers →
  Forall carries_individual (d_trace d) → Forall carries_individual (d_trace d').
Proof.
  induction todo as [|r rest IH]; intros idx d d' stopped Hloop Hsub Hd.
  - by apply pair_eq in Hloop as [<- _].
  - rewrite bulk_loop_cons in Hloop.
    assert (r ∈ receivers) as Hr by (apply Hsub; left).
    assert (rest ⊆ receivers) as Hrest by (intros x Hx; apply Hsub; by right).
    assert (Forall carries_individual
              (d_trace (bulk_step w endpoint subject html atts progress_callback total
                          idx r d))) as Hstep.
    { rewrite bulk_step_trace. apply Forall_app. split; [done|].
      apply Forall_app. split.
      - destruct progress_callback; repeat constructor.
      - repeat constructor. by exists r. }
    destruct (idx <? total)%nat.
    + destruct (sleep delay _) as [d1|e] eqn:Hs.
      * apply sleep_Ok in Hs. subst d1. apply (IH _ _ _ _ Hloop Hrest). simpl.
        apply Forall_app. split; [done|]. repeat constructor.
      * by apply pair_eq in Hloop as [<- _].
    + by apply (IH _ _ _ _ Hloop Hrest).
Qed.

Lemma bulk_loop_progress (delay : Q) (total : nat) (todo : list pystr) :
  ∀ idx d d',
  bulk_loop w endpoint subject html atts progress_callback delay total idx todo d
    = (d', None) →
  progress_of (d_trace d') =
  progress_of (d_trace d) ++ (if progress_callback then numbered total idx todo else []).
Proof.
  induction todo as [|r rest IH]; intros idx d d' Hloop.
  - apply pair_eq in Hloop as [<- _]. simpl. destruct progress_callback; by rewrite app_nil_r.
  - rewrite bulk_loop_cons in Hloop.
    assert (progress_of (d_trace (bulk_step w endpoint subject html atts progress_callback
                                    total idx r d))
            = progress_of (d_trace d)
              ++ (if progress_callback then [(idx, total, r)] else [])) as Hstep.
    { rewrite bulk_step_trace, !progress_of_app.
      destruct progress_callback; simpl; by rewrite ?app_nil_r. }
    destruct (idx <? total)%nat.
    + destruct (sleep delay _) as [d1|e] eqn:Hs; [|done].
      apply sleep_Ok in Hs. subst d1. rewrite (IH _ _ _ Hloop). simpl.
      rewrite progress_of_app, Hstep. simpl. rewrite app_nil_r, <- app_assoc.
      by destruct progress_callback.
    + rewrite (IH _ _ _ Hloop), Hstep, <- app_assoc. by destruct progress_callback.
Qed.

(** The requests of one batch: individual messages to the sender's
    [sendMail], and one call of the callback per receiver. *)
Lemma batch_requests_loop_messages (batch_start : Z) (todo : list pystr) :
  ∀ i email_index acc d,
  let '(requests, _, d') :=
    batch_requests_loop sender subject html atts progress_callback (length receivers)
      batch_start i todo email_index acc d in
  (todo ⊆ receivers → Forall (λ req, individual (req_body req)) acc →
   Forall (λ req, individual (req_body req)) requests)
  ∧ (Forall carries_individual (d_trace d) → Forall carries_individual (d_trace d'))
  ∧ progress_of (d_trace d') =
      progress_of (d_trace d)
      ++ (if progress_callback then numbered (length receivers) (S email_index) todo
          else []).
Proof.
  induction todo as [|r rest IH]; intros i email_index acc d.
  - simpl. split; [done|]. split; [done|]. destruct progress_callback; by rewrite app_nil_r.
  - simpl.
    match goal with
    | |- context [batch_requests_loop _ _ _ _ _ _ _ ?i' rest ?e' ?a' ?d'] =>
        specialize (IH i' e' a' d');
        destruct (batch_requests_loop sender subject html atts progress_callback
                    (length receivers) batch_start i' rest e' a' d')
          as [[requests ei] d2]
    end.
    destruct IH as (H1 & H2 & H3). split; [|split].
    + intros Hsub Hacc. apply H1.
      { intros x Hx. apply Hsub. by right. }
      apply Forall_app. split; [done|].
      repeat constructor. exists r. split; [apply Hsub; left | done].
    + intros Hd. apply H2. destruct progress_callback; [|done]. simpl.
      apply Forall_app. split; [done|]. repeat constructor.
    + rewrite H3. destruct progress_callback; simpl; [|done].
      rewrite progress_of_app. simpl. by rewrite <- app_assoc.
Qed.

Lemma responses_loop_stops (todo : list batch_item) :
  ∀ d d' stopped, responses_loop receivers todo d = (d', stopped) →
  Exists (λ resp, resolve receivers resp = None) todo →
  stopped = Some KeyError ∨ stopped = Some IndexError.
Proof.
  induction todo as [|resp rest IH]; intros d d' stopped Hloop Hex.
  - by apply Exists_nil in Hex.
  - simpl in Hloop. unfold resolve in Hex.
    destruct (item_id resp) as [request_id|] eqn:Eid.
    2:{ apply pair_eq in Hloop as [_ <-]. by left. }
    destruct (py_index receivers request_id) as [receiver_email|] eqn:Eidx.
    2:{ apply pair_eq in Hloop as [_ <-]. by right. }
    apply Exists_cons in Hex as [Hhere | Hrest].
    { by rewrite Eid, Eidx in Hhere. }
    destruct (default 500%Z (item_status resp) =? 202)%Z; by apply (IH _ _ _ Hloop).
Qed.

Variable batch_size : Z.

Local Notation "'bloop'" :=
  (batch_loop w receivers sender subject html atts progress_callback batch_size
     (batches_needed receivers batch_size)).

Lemma py_slice_subseteq {A} (l : list A) (a b : Z) : py_slice l a b ⊆ l.
Proof.
  unfold py_slice. intros x Hx.
  apply elem_of_take in Hx as (i & Hx & _). rewrite lookup_drop in Hx.
  by apply list_elem_of_lookup_2 in Hx.
Qed.

(** The trace after the answer to a batch: the callbacks of its receivers,
    then the one batch request. *)
Lemma answered_trace (k email_index : nat) (d d3 : dispatch) (stopped : option exn) :
  answered w receivers sender subject html atts progress_callback batch_size
    k email_index d = (d3, stopped) →
  d_trace d3 =
    d_trace (built receivers sender subject html atts progress_callback batch_size
               k email_index d).2
    ++ [EvBatch batch_endpoint
          (built receivers sender subject html atts progress_callback batch_size
             k email_index d).1.1].
Proof.
  unfold answered.
  destruct (built _ _ _ _ _ _ _ _ _ _) as [[requests ei] d1]. cbn [fst snd].
  destruct (http w (d_posts d1)) as [s t rs|e].
  - destruct (s =? 200)%Z.
    + intros Hloop. by apply responses_loop_spec in Hloop as (-> & _ & _).
    + intros [<- _]%pair_eq. by destruct (fail_all_spec (batch_of receivers batch_size k)
        (lit "Batch falló: HTTP " ++ of_Z s ++ lit " - " ++ take 200 t)
        (posted (emit (EvBatch batch_endpoint requests) d1))) as (_ & _ & -> & _).
  - intros [<- _]%pair_eq. by destruct (fail_all_spec (batch_of receivers batch_size k)
      (lit "Error de conexión en batch: " ++ e)
      (posted (emit (EvBatch batch_endpoint requests) d1))) as (_ & _ & -> & _).
Qed.

(** A batch answered with status 200 by a list that holds an unusable [id]
    stops the dispatch. *)
Lemma answered_stops (k email_index : nat) (d : dispatch) t rs :
  http w (d_posts d) = Response 200 t rs →
  Exists (λ resp, resolve receivers resp = None) (default [] rs) →
  ∃ d3 e, answered w receivers sender subject html atts progress_callback batch_size
            k email_index d = (d3, Some e)
          ∧ (e = KeyError ∨ e = IndexError).
Proof.
  intros Hhttp Hex. unfold answered.
  pose proof (batch_requests_loop_spec receivers sender subject html atts progress_callback
                (Z.of_nat k * batch_size) (batch_of receivers batch_size k) 0
                email_index [] d) as Hb.
  fold (built receivers sender subject html atts progress_callback batch_size
          k email_index d) in Hb.
  destruct (built _ _ _ _ _ _ _ _ _ _) as [[requests ei] d1].
  destruct Hb as (_ & _ & _ & Hp & _). rewrite Hp, Hhttp. simpl.
  destruct (responses_loop receivers (default [] rs) _) as [d3 st] eqn:Hloop.
  destruct (responses_loop_stops _ _ _ _ Hloop Hex) as [-> | ->]; eauto.
Qed.

Lemma batch_loop_messages (todo : list nat) :
  ∀ email_index d d' stopped, bloop todo email_index d = (d', stopped) →
  Forall carries_individual (d_trace d) → Forall carries_individual (d_trace d').
Proof.
  induction todo as [|k rest IH]; intros email_index d d' stopped Hloop Hd.
  - by apply pair_eq in Hloop as [<- _].
  - rewrite batch_loop_cons in Hloop.
    destruct (answered _ _ _ _ _ _ _ _ k email_index d) as [d3 st] eqn:Ha.
    apply answered_trace in Ha.
    assert (Forall carries_individual (d_trace d3)) as Hd3.
    { rewrite Ha. unfold built.
      pose proof (batch_requests_loop_messages (Z.of_nat k * batch_size)
                    (batch_of receivers batch_size k) 0 email_index [] d) as Hb.
      destruct (batch_requests_loop _ _ _ _ _ _ _ _ _ _ _ _) as [[requests ei] d1].
      destruct Hb as (H1 & H2 & _). cbn [fst snd].
      apply Forall_app. split; [by apply H2|].
      repeat constructor. unfold carries_individual. simpl.
      apply Forall_fmap. apply H1; [apply py_slice_subseteq | constructor]. }
    destruct st as [e|]; [by apply pair_eq in Hloop as [<- _]|].
    cbn zeta in Hloop.
    destruct (Z.of_nat k <? _)%Z; apply (IH _ _ _ _ Hloop); [|done].
    simpl. apply Forall_app. split; [done|]. repeat constructor.
Qed.

Hypothesis batch_size_positive : (0 < batch_size)%Z.

(** A dispatch that ran to the end: the callbacks, and the batch requests
    with the pauses between them. *)
Lemma batch_loop_complete (m : nat) :
  ∀ k email_index d d',
  (k + m)%nat = Z.to_nat (batches_needed receivers batch_size) →
  bloop (seq k m) email_index d = (d', None) →
  progress_of (d_trace d') =
    progress_of (d_trace d)
    ++ (if progress_callback
        then numbered (length receivers) (S email_index)
               (concat (map (batch_of receivers batch_size) (seq k m)))
        else [])
  ∧ ∃ batch_events,
      wire (d_trace d') = wire (d_trace d) ++ intersperse (EvSleep (1 # 2)) batch_events
      ∧ batches_of batch_events = map (batch_of receivers batch_size) (seq k m)
      ∧ length batch_events = m.
Proof.
  induction m as [|m IH]; intros k email_index d d' Hk Hloop.
  - apply pair_eq in Hloop as [<- _]. simpl. split.
    + destruct progress_callback; by rewrite app_nil_r.
    + exists []. simpl. by rewrite app_nil_r.
  - simpl seq in *. rewrite batch_loop_cons in Hloop.
    destruct (answered _ _ _ _ _ _ _ _ k email_index d) as [d3 st] eqn:Ha.
    pose proof (answered_trace _ _ _ _ _ Ha) as Htrace.
    apply answered_spec in Ha as (_ & _ & _ & Hw & Hreq & _); [|done].
    pose proof (batch_requests_loop_spec receivers sender subject html atts progress_callback
                  (Z.of_nat k * batch_size) (batch_of receivers batch_size k) 0
                  email_index [] d) as Hb.
    pose proof (batch_requests_loop_messages (Z.of_nat k * batch_size)
                  (batch_of receivers batch_size k) 0 email_index [] d) as Hpm.
    unfold built in *.
    destruct (batch_requests_loop _ _ _ _ _ _ _ _ _ _ _ _) as [[requests ei] d1].
    destruct Hb as (_ & _ & Hei & _). destruct Hpm as (_ & _ & Hprog).
    cbn [fst snd] in *.
    assert (progress_of (d_trace d3) =
            progress_of (d_trace d)
            ++ (if progress_callback
                then numbered (length receivers) (S email_index)
                       (batch_of receivers batch_size k) else [])) as Hp3.
    { rewrite Htrace, progress_of_app, Hprog. simpl. by rewrite app_nil_r. }
    destruct st as [e|]; [done|]. cbn zeta in Hloop.
    set (B := EvBatch batch_endpoint requests) in *.
    assert (batches_of [B] = [batch_of receivers batch_size k]) as HB.
    { unfold B. simpl. fold (request_receivers requests). by rewrite Hreq. }
    assert (∀ d4, progress_of (d_trace d4) = progress_of (d_trace d3) →
              bloop (seq (S k) m) ei d4 = (d', None) →
              progress_of (d_trace d') =
                progress_of (d_trace d)
                ++ (if progress_callback
                    then numbered (length receivers) (S email_index)
                           (batch_of receivers batch_size k
                            ++ concat (map (batch_of receivers batch_size) (seq (S k) m)))
                    else [])
              ∧ ∃ evs, wire (d_trace d') = wire (d_trace d4) ++ intersperse (EvSleep (1 # 2)) evs
                       ∧ batches_of evs = map (batch_of receivers batch_size) (seq (S k) m)
                       ∧ length evs = m) as Hnext.
    { intros d4 E Hrest.
      destruct (IH (S k) ei d4 d' ltac:(lia) Hrest) as [Hp (evs & He1 & He2 & He3)].
      split; [|by exists evs].
      rewrite Hp, E, Hp3, <- app_assoc. f_equal.
      destruct progress_callback; [|done].
      rewrite numbered_app. do 2 f_equal. lia. }
    destruct (Z.ltb_spec (Z.of_nat k) (batches_needed receivers batch_size - 1)).
    + destruct (Hnext (emit (EvSleep (1 # 2)) d3)) as [Hp (evs & He1 & He2 & He3)];
        [simpl; by rewrite progress_of_app, app_nil_r | done |].
      split; [done|]. exists (B :: evs).
      split; [|split; [change (B :: evs) with ([B] ++ evs);
                        by rewrite batches_of_app, HB, He2 | simpl; lia]].
      rewrite He1. simpl d_trace. rewrite wire_app, Hw. simpl.
      rewrite <- !app_assoc. simpl.
      destruct evs as [|ev evs]; [simpl in He3; lia | done].
    + destruct (Hnext d3) as [Hp (evs & He1 & He2 & He3)]; [done | done |].
      split; [done|]. exists (B :: evs).
      split; [|split; [change (B :: evs) with ([B] ++ evs);
                        by rewrite batches_of_app, HB, He2 | simpl; lia]].
      assert (m = 0)%nat as -> by lia.
      destruct evs; [|done]. simpl in *.
      apply pair_eq in Hloop as [<- _]. by rewrite Hw.
Qed.

End Loops.
End Messages.

(** *** The dispatchers: messages, callbacks, pauses, unusable answers *)

Section DispatchTraces.
Import GraphMail.
Context `{R : PyRuntime}.

Lemma carried_messages (P : message → Prop) (trace : list event) :
  Forall (λ ev, Forall P (messages_of ev)) trace →
  Forall P (flat_map messages_of trace).
Proof.
  induction 1 as [|ev trace Hev _ IH]; simpl; [constructor|].
  apply Forall_app. by split.
Qed.

(** The message of the call for one receiver: subject, assembled HTML and
    attachments of the call, the receiver as the only addressee, no copies. *)
Definition sent_alone (w : world) (receivers : list pystr) (subject content_text : pystr)
    (content_html : option pystr) (attachments : option (list pystr))
    (inline_images : bool) (m : message) : Prop :=
  ∃ html atts r,
    assemble w content_text content_html attachments inline_images = Ok (html, atts)
    ∧ r ∈ receivers
    ∧ m = {| msg_subject := subject; msg_body := html; msg_toRecipients := [r];
             msg_ccRecipients := None; msg_bccRecipients := None;
             msg_attachments := if_nonempty atts |}.

(** Every message [send_mail_graph_bulk] posts, and every message inside a
    batch request of [send_mail_graph_batch], is addressed to exactly one
    receiver of the list, without copy or blind copy, and carries the
    subject of the call and the HTML and attachments assembled once for the
    call: no receiver sees another receiver's address. This holds for every
    delay and every batch size, and also for the requests made before a
    call raises. *)
Theorem dispatch_messages_individual (w : world) receivers subject content_text content_html
    attachments inline_images progress_callback (delay : Q) (batch_size : Z) :
  Forall (sent_alone w receivers subject content_text content_html attachments inline_images)
    (flat_map messages_of
       (send_mail_graph_bulk w receivers subject content_text content_html attachments
          inline_images progress_callback delay).2)
  ∧ Forall (sent_alone w receivers subject content_text content_html attachments
              inline_images)
      (flat_map messages_of
         (send_mail_graph_batch w receivers subject content_text content_html attachments
            inline_images progress_callback batch_size).2).
Proof.
  split.
  - destruct (bulk_run w receivers subject content_text content_html attachments
                inline_images progress_callback delay)
      as [(error & _ & ->) | [(e & _ & ->) | (config & html & atts & d & stopped
                                               & _ & Hasm & Hloop & ->)]];
      [constructor | constructor |]. cbn [snd].
    apply carried_messages.
    eapply Forall_impl;
      [eapply (bulk_loop_messages w receivers _ subject html atts); eauto; constructor|].
    intros ev Hev. eapply Forall_impl; [exact Hev|].
    intros m (r & Hr & ->). by exists html, atts, r.
  - unfold send_mail_graph_batch.
    destruct receivers as [|r0 rest]; [constructor|].
    destruct (get_graph_config w) as [config|]; [|constructor].
    destruct (truthy (get_access_token w)); simpl negb; cbv iota; [|constructor].
    destruct (assemble w content_text content_html attachments inline_images)
      as [[html atts]|e] eqn:Hasm; [|constructor].
    destruct (batch_size =? 0)%Z; [constructor|].
    fold (batches_needed (r0 :: rest) batch_size).
    destruct (batch_loop _ _ _ _ _ _ _ _ _ _ _ _) as [d stopped] eqn:Hloop.
    assert (Forall (carries_individual (r0 :: rest) subject html atts) (d_trace d)) as Hd.
    { eapply batch_loop_messages; [exact Hloop | constructor]. }
    assert (Forall (sent_alone w (r0 :: rest) subject content_text content_html attachments
                      inline_images) (flat_map messages_of (d_trace d))) as Hall.
    { apply carried_messages. eapply Forall_impl; [exact Hd|].
      intros ev Hev. eapply Forall_impl; [exact Hev|].
      intros m (r & Hr & ->). by exists html, atts, r. }
    by destruct stopped.
Qed.

(** Whenever a dispatcher that could start returns a result, the progress
    callback has been called once per receiver, in the order of the list,
    with the 1-based position of the receiver and the length of the list;
    in [send_mail_graph_batch] the count runs on across the batches. Without
    a callback nothing is called. *)
Theorem dispatch_progress_calls (w : world) receivers subject content_text content_html
    attachments inline_images (progress_callback : bool) :
  ready w →
  let expected :=
    if progress_callback then numbered (length receivers) 1%nat receivers else [] in
  (∀ (delay : Q) r,
     let run := send_mail_graph_bulk w receivers subject content_text content_html
                  attachments inline_images progress_callback delay in
     run.1 = Ok r → progress_of run.2 = expected)
  ∧ (∀ (batch_size : Z) r,
       let run := send_mail_graph_batch w receivers subject content_text content_html
                    attachments inline_images progress_callback batch_size in
       (0 < batch_size)%Z → run.1 = Ok r → progress_of run.2 = expected).
Proof.
  intros Hready expected. subst expected. split.
  - intros delay r run. subst run.
    destruct (bulk_run w receivers subject content_text content_html attachments
                inline_images progress_callback delay)
      as [(error & Hwhy & ->) | [(e & _ & ->) | (config & html & atts & d & stopped
                                                  & _ & Hasm & Hloop & ->)]];
      cbn [fst snd].
    + destruct Hwhy as [-> | Hnot]; [by destruct progress_callback | done].
    + done.
    + destruct stopped as [e|]; [done|]. intros _.
      by rewrite (bulk_loop_progress _ _ _ _ _ _ _ _ _ _ _ _ Hloop).
  - intros batch_size r run Hbs. subst run.
    destruct (batch_run w receivers subject content_text content_html attachments
                inline_images progress_callback batch_size Hbs)
      as [(error & Hwhy & ->) | [(e & _ & ->) | (config & html & atts & d & stopped
                                                  & _ & Hasm & Hloop & ->)]];
      cbn [fst snd].
    + destruct Hwhy as [-> | Hnot]; [by destruct progress_callback | done].
    + done.
    + destruct stopped as [e|]; [done|]. intros _.
      destruct (batch_loop_complete w receivers (sender_email config) subject html atts
                  progress_callback batch_size Hbs _ 0 0 d_start d eq_refl Hloop)
        as [Hp _].
      rewrite Hp. simpl.
      fold (batch_plan receivers batch_size).
      by rewrite (batch_plan_concat _ receivers batch_size Hbs).
Qed.

(** When [send_mail_graph_batch] returns a result, what went out is one
    batch request per planned batch, in order, with a sleep of half a second
    between two consecutive batch requests and none after the last. *)
Theorem batch_pauses (w : world) receivers subject content_text content_html
    attachments inline_images progress_callback (batch_size : Z) r :
  (0 < batch_size)%Z → ready w →
  let run := send_mail_graph_batch w receivers subject content_text content_html
               attachments inline_images progress_callback batch_size in
  run.1 = Ok r →
  ∃ batch_events,
    wire run.2 = intersperse (EvSleep (1 # 2)) batch_events
    ∧ batches_of batch_events = batch_plan receivers batch_size
    ∧ length batch_events = length (batch_plan receivers batch_size).
Proof.
  intros Hbs Hready run. subst run.
  destruct (batch_run w receivers subject content_text content_html attachments
              inline_images progress_callback batch_size Hbs)
    as [(error & Hwhy & ->) | [(e & _ & ->) | (config & html & atts & d & stopped
                                                & _ & Hasm & Hloop & ->)]];
    cbn [fst snd].
  - destruct Hwhy as [-> | Hnot]; [|done]. intros _. exists [].
    assert (batch_plan (@nil pystr) batch_size = []) as ->; [|done].
    unfold batch_plan, batches_needed. simpl length.
    rewrite Z.div_small by lia. done.
  - done.
  - destruct stopped as [e|]; [done|]. intros _.
    destruct (batch_loop_complete w receivers (sender_email config) subject html atts
                progress_callback batch_size Hbs _ 0 0 d_start d eq_refl Hloop)
      as [_ (batch_events & Hw & Hb & Hl)].
    exists batch_events. split; [done|]. split; [done|].
    by rewrite batch_plan_length.
Qed.

(** An answer with status 200 to the first batch that lists an [id] which is
    missing, or no number, or beyond the receiver list, makes
    [send_mail_graph_batch] raise: no result comes back and no later batch
    is requested, whatever the later answers would have been. *)
Theorem batch_unusable_answer_raises (w : world) receivers subject content_text
    content_html attachments inline_images progress_callback (batch_size : Z)
    html atts text responses :
  (0 < batch_size)%Z → ready w → receivers ≠ [] →
  assemble w content_text content_html attachments inline_images = Ok (html, atts) →
  http w 0 = Response 200 text (Some responses) →
  Exists (λ resp, resolve receivers resp = None) responses →
  let run := send_mail_graph_batch w receivers subject content_text content_html
               attachments inline_images progress_callback batch_size in
  (∃ e, run.1 = Raise e) ∧ batches_of run.2 = [batch_of receivers batch_size 0].
Proof.
  intros Hbs Hready Hne Hasm Hhttp Hex run. subst run.
  destruct (batch_run w receivers subject content_text content_html attachments
              inline_images progress_callback batch_size Hbs)
    as [(error & Hwhy & ->) | [(e & He & ->) | (config & html' & atts' & d & stopped
                                                 & _ & Hasm' & Hloop & ->)]];
    cbn [fst snd].
  - by destruct Hwhy.
  - congruence.
  - rewrite Hasm in Hasm'. injection Hasm' as <- <-.
    destruct (batches_needed_ceiling _ receivers batch_size Hbs) as [Hle _].
    assert (0 < batches_needed receivers batch_size)%Z as Hn.
    { destruct receivers; [done|]. simpl length in *. nia. }
    destruct (Z.to_nat (batches_needed receivers batch_size)) as [|m] eqn:Em; [lia|].
    simpl seq in Hloop. rewrite batch_loop_cons in Hloop.
    destruct (answered_stops w receivers (sender_email config) subject html atts
                progress_callback batch_size 0 0 d_start text (Some responses) Hhttp Hex)
      as (d3 & e & Ha & _).
    rewrite Ha in Hloop. apply pair_eq in Hloop as [<- <-].
    split; [by exists e|].
    by apply answered_spec in Ha as (_ & -> & _).
Qed.

End DispatchTraces.

(** *** The edge cases and traces on concrete worlds *)

(** Nothing is configured. *)
Definition unconfigured_world : GraphMail.world := {|
  GraphMail.getenv := fun _ => None;
  GraphMail.msal_installed := true;
  GraphMail.token_reply := Some (lit "token");
  GraphMail.fs := GraphMail.fs accepting_world;
  GraphMail.http := fun _ => GraphMail.Response 202 [] None
|}.

(** A server whose answer to a batch names a request that was never made. *)
Definition stray_world : GraphMail.world := {|
  GraphMail.getenv := GraphMail.getenv accepting_world;
  GraphMail.msal_installed := true;
  GraphMail.token_reply := Some (lit "token");
  GraphMail.fs := GraphMail.fs accepting_world;
  GraphMail.http := fun _ =>
    GraphMail.Response 200 []
      (Some [ {| GraphMail.item_id := Some 7%Z; GraphMail.item_status := Some 202%Z;
                 GraphMail.item_error_message := None |} ])
|}.

Lemma unconfigured_world_not_ready : ¬ ready unconfigured_world.
Proof. intros [[config Hconfig] _]. discriminate. Qed.

Lemma accepting_world_ready : ready accepting_world.
Proof. split; [by eexists | reflexivity]. Qed.

Lemma stray_world_ready : ready stray_world.
Proof. split; [by eexists | reflexivity]. Qed.

Lemma dispatch_not_ready_witness :
  ¬ ready unconfigured_world
  ∧ @GraphMail.send_mail_graph_bulk ascii_runtime unconfigured_world three_receivers
      (lit "Hola") (lit "texto") None None false true (-1)
    = (Ok (GraphMail.all_failed three_receivers
             (match three_receivers with
              | [] => []
              | _ => not_ready_error unconfigured_world
                       (lit "No se pudo obtener token de acceso")
              end)), [])
  ∧ @GraphMail.send_mail_graph_batch ascii_runtime unconfigured_world three_receivers
      (lit "Hola") (lit "texto") None None false true 0
    = (Ok (GraphMail.all_failed three_receivers
             (match three_receivers with
              | [] => []
              | _ => not_ready_error unconfigured_world (lit "No se pudo obtener token")
              end)), []).
Proof.
  split; [exact unconfigured_world_not_ready|].
  exact (@dispatch_not_ready ascii_runtime unconfigured_world three_receivers
           (lit "Hola") (lit "texto") None None false true (-1) 0%Z
           unconfigured_world_not_ready).
Defined.

Lemma three_receivers_nonempty : three_receivers ≠ [].
Proof. discriminate. Qed.

Lemma plain_html_assembled :
  @GraphMail.assemble ascii_runtime accepting_world (lit "texto") None None false
  = Ok (plain_html, []).
Proof. reflexivity. Qed.

Lemma batch_size_not_positive_witness :
  ready accepting_world ∧ three_receivers ≠ []
  ∧ @GraphMail.send_mail_graph_batch ascii_runtime accepting_world three_receivers
      (lit "Hola") (lit "texto") None None false true (-2)
    = (Ok {| GraphMail.total := 3; GraphMail.successful := 0; GraphMail.failed := 0;
             GraphMail.successful_emails := []; GraphMail.failed_emails := [] |}, []).
Proof.
  split; [exact accepting_world_ready|]. split; [exact three_receivers_nonempty|].
  apply (@batch_size_not_positive ascii_runtime accepting_world three_receivers
           (lit "Hola") (lit "texto") None None false true (-2)%Z plain_html []
           accepting_world_ready three_receivers_nonempty plain_html_assembled);
    [lia | simpl; lia].
Defined.

Lemma seven_batched_in_threes :
  ∃ r, (@GraphMail.send_mail_graph_batch ascii_runtime accepting_world seven_receivers
          (lit "Hola") (lit "texto") None None false true 3).1 = Ok r.
Proof. eexists. reflexivity. Qed.

Lemma dispatch_progress_calls_witness :
  ready accepting_world
  ∧ progress_of
      (@GraphMail.send_mail_graph_batch ascii_runtime accepting_world seven_receivers
         (lit "Hola") (lit "texto") None None false true 3).2
    = numbered 7 1 seven_receivers.
Proof.
  split; [exact accepting_world_ready|].
  destruct seven_batched_in_threes as [r Hr].
  exact (proj2 (@dispatch_progress_calls ascii_runtime accepting_world seven_receivers
                  (lit "Hola") (lit "texto") None None false true accepting_world_ready)
           3%Z r eq_refl Hr).
Defined.

Lemma batch_pauses_witness :
  (0 < 3)%Z ∧ ready accepting_world
  ∧ ∃ batch_events,
      wire (@GraphMail.send_mail_graph_batch ascii_runtime accepting_world seven_receivers
              (lit "Hola") (lit "texto") None None false true 3).2
      = intersperse (GraphMail.EvSleep (1 # 2)) batch_events
      ∧ batches_of batch_events = batch_plan seven_receivers 3
      ∧ length batch_events = length (batch_plan seven_receivers 3).
Proof.
  split; [reflexivity|]. split; [exact accepting_world_ready|].
  destruct seven_batched_in_threes as [r Hr].
  exact (@batch_pauses ascii_runtime accepting_world seven_receivers
           (lit "Hola") (lit "texto") None None false true 3%Z r eq_refl
           accepting_world_ready Hr).
Defined.

Lemma batch_unusable_answer_raises_witness :
  (0 < 2)%Z ∧ ready stray_world
  ∧ (∃ e, (@GraphMail.send_mail_graph_batch ascii_runtime stray_world three_receivers
             (lit "Hola") (lit "texto") None None false false 2).1 = Raise e)
  ∧ batches_of (@GraphMail.send_mail_graph_batch ascii_runtime stray_world three_receivers
                  (lit "Hola") (lit "texto") None None false false 2).2
    = [[lit "ana@example.org"; lit "bea@example.org"]].
Proof.
  split; [reflexivity|]. split; [exact stray_world_ready|].
  apply (@batch_unusable_answer_raises ascii_runtime stray_world three_receivers
           (lit "Hola") (lit "texto") None None false false 2%Z plain_html [] []
           [ {| GraphMail.item_id := Some 7%Z; GraphMail.item_status := Some 202%Z;
                GraphMail.item_error_message := None |} ]
           eq_refl stray_world_ready three_receivers_nonempty eq_refl eq_refl).
  apply Exists_cons_hd. reflexivity.
Defined.

(** *** Attachments, preferences and the assembled HTML *)

Section Attachments.
Import GraphMail.
Context `{R : PyRuntime}.
Variables (fs : files) (inline_images : bool) (img_width : pystr).

(** A file that is there and whose bytes can be read. *)
Definition readable (filepath : pystr) : bool :=
  file_exists fs filepath
  && match file_base64 fs filepath with Some _ => true | None => false end.

(** The image tag of an attachment: one for each attachment with a
    [contentId]. *)
Definition tag_of (a : attachment) : pystr :=
  match att_contentId a with
  | Some cid => img_tag cid (att_name a) img_width
  | None => []
  end.

(** What the type and the inline flag of an attachment must be, given its
    name. *)
Definition typed_by_name (a : attachment) : Prop :=
  att_contentType a = (content_type_of (str_lower (att_name a))).1
  ∧ att_isInline a = inline_images && (content_type_of (str_lower (att_name a))).2
  ∧ (att_isInline a = true ↔ is_Some (att_contentId a)).

Definition inline_count (l : list attachment) : nat :=
  length (List.filter att_isInline l).

Lemma attachments_loop_spec (todo : list pystr) :
  ∀ n processed img_tags,
  ∃ new,
    attachments_loop fs inline_images img_width todo n processed img_tags
    = (processed ++ new, img_tags ++ flat_map tag_of new)
    ∧ map att_name new = map basename (List.filter readable todo)
    ∧ map att_contentBytes new
      = omap (file_base64 fs) (List.filter (file_exists fs) todo)
    ∧ Forall typed_by_name new
    ∧ omap att_contentId new = map (uuid4 fs) (seq n (inline_count new)).
Proof.
  induction todo as [|filepath rest IH]; intros n processed img_tags.
  - exists []. simpl. by rewrite !app_nil_r.
  - cbn [attachments_loop List.filter]. unfold readable at 1.
    destruct (file_exists fs filepath); cbn [negb andb]; [|by apply IH].
    destruct (file_base64 fs filepath) as [content|] eqn:Hread;
      cbn [omap list_omap]; rewrite Hread; [|by apply IH].
    destruct (content_type_of (str_lower (basename filepath)))
      as [content_type is_image] eqn:Htype.
    destruct (inline_images && is_image) eqn:Hinline.
    + destruct (IH (S n)
                  (processed ++ [ {| att_name := basename filepath;
                                     att_contentType := content_type;
                                     att_contentBytes := content; att_isInline := true;
                                     att_contentId := Some (uuid4 fs n) |} ])
                  (img_tags ++ img_tag (uuid4 fs n) (basename filepath) img_width))
        as (new & -> & Hnames & Hbytes & Htyped & Hcids).
      exists ({| att_name := basename filepath; att_contentType := content_type;
                 att_contentBytes := content; att_isInline := true;
                 att_contentId := Some (uuid4 fs n) |} :: new).
      rewrite <- !app_assoc. split; [reflexivity|].
      split; [simpl; by rewrite Hnames|]. split; [simpl; by f_equal|].
      split.
      * constructor; [|done]. unfold typed_by_name. simpl. rewrite Htype. simpl.
        split; [done|]. split; [done|]. split; [by eexists | done].
      * unfold inline_count in *. simpl. first [exact Hcids | f_equal; exact Hcids].
    + destruct (IH n
                  (processed ++ [ {| att_name := basename filepath;
                                     att_contentType := content_type;
                                     att_contentBytes := content; att_isInline := false;
                                     att_contentId := None |} ])
                  img_tags)
        as (new & -> & Hnames & Hbytes & Htyped & Hcids).
      exists ({| att_name := basename filepath; att_contentType := content_type;
                 att_contentBytes := content; att_isInline := false;
                 att_contentId := None |} :: new).
      rewrite <- !app_assoc. split; [reflexivity|].
      split; [simpl; by rewrite Hnames|]. split; [simpl; by f_equal|].
      split.
      * constructor; [|done]. unfold typed_by_name. simpl. rewrite Htype. simpl.
        split; [done|]. split; [done|]. split; [done | by intros ?%is_Some_None].
      * unfold inline_count in *. simpl. first [exact Hcids | f_equal; exact Hcids].
Qed.


(** [build_attachments_payload] attaches the files that exist and can be
    read, in the order given, under their base names and with their bytes;
    files that are missing or unreadable are skipped without an error. The
    content type follows the lower-cased name; an attachment is inline
    exactly when inline images are asked for and the name is that of a JPEG,
    PNG or GIF file, and exactly then it has a content id. The content ids
    are the results of the successive calls of [uuid4], one per inline
    attachment, and the image tags are one tag per inline attachment, in the
    same order, each with the content id and name of its attachment. *)
Theorem build_attachments_payload_spec (attachments : option (list pystr)) :
  let paths := default [] attachments in
  let processed := (build_attachments_payload fs attachments inline_images img_width).1 in
  let img_tags := (build_attachments_payload fs attachments inline_images img_width).2 in
  map att_name processed = map basename (List.filter readable paths)
  ∧ map att_contentBytes processed
    = omap (file_base64 fs) (List.filter (file_exists fs) paths)
  ∧ Forall typed_by_name processed
  ∧ omap att_contentId processed = map (uuid4 fs) (seq 0 (inline_count processed))
  ∧ img_tags = flat_map tag_of processed.
Proof.
  intros paths processed img_tags. subst paths processed img_tags.
  destruct attachments as [[|p rest]|]; [by repeat constructor| |by repeat constructor].
  unfold build_attachments_payload, default.
  destruct (attachments_loop_spec (p :: rest) 0 [] [])
    as (new & -> & Hnames & Hbytes & Htyped & Hcids).
  by cbn [fst snd app].
Qed.



End Attachments.

(** *** Stripping and searching, once more *)

Section StripFacts.
Variable p : N → bool.

Lemma lstrip_by_head (s : pystr) :
  match lstrip_by p s with
  | [] => True
  | c :: _ => p c = false
  end.
Proof.
  induction s as [|c s IH]; simpl; [done|].
  destruct (p c) eqn:E; [exact IH | exact E].
Qed.

Lemma lstrip_by_fixed (s : pystr) :
  match s with [] => True | c :: _ => p c = false end → lstrip_by p s = s.
Proof. destruct s as [|c s]; simpl; [done|]. by intros ->. Qed.

Lemma lstrip_by_idem (s : pystr) : lstrip_by p (lstrip_by p s) = lstrip_by p s.
Proof. apply lstrip_by_fixed, lstrip_by_head. Qed.

Lemma lstrip_by_snoc (s : pystr) (c : N) :
  p c = false → lstrip_by p (s ++ [c]) = lstrip_by p s ++ [c].
Proof.
  intros Hc. induction s as [|x s IH]; simpl; [by rewrite Hc|].
  by destruct (p x).
Qed.

Lemma rstrip_by_idem (s : pystr) : rstrip_by p (rstrip_by p s) = rstrip_by p s.
Proof. unfold rstrip_by. by rewrite rev_involutive, lstrip_by_idem. Qed.

Lemma rstrip_by_head (s : pystr) :
  match s with [] => True | c :: _ => p c = false end →
  match rstrip_by p s with [] => True | c :: _ => p c = false end.
Proof.
  destruct s as [|c s]; [done|]. intros Hc. unfold rstrip_by.
  change (rev (c :: s)) with (rev s ++ [c]).
  rewrite lstrip_by_snoc by done. rewrite rev_app_distr. exact Hc.
Qed.

Lemma strip_by_idem (s : pystr) : strip_by p (strip_by p s) = strip_by p s.
Proof.
  unfold strip_by.
  rewrite (lstrip_by_fixed (rstrip_by p (lstrip_by p s)))
    by apply rstrip_by_head, lstrip_by_head.
  apply rstrip_by_idem.
Qed.

End StripFacts.

Lemma strip_idem (s : pystr) : strip (strip s) = strip s.
Proof. apply strip_by_idem. Qed.

Lemma startswith_app_l (p q s : pystr) :
  startswith (p ++ q) s = true → startswith p s = true.
Proof.
  revert s. induction p as [|a p IH]; intros [|b s]; simpl; try done.
  intros [-> H]%andb_true_iff. by apply IH.
Qed.

Lemma contains_app_sub (p q s : pystr) :
  contains p s = false → contains (p ++ q) s = false.
Proof.
  intros H. apply not_true_is_false. intros Hc. apply not_true_iff_false in H.
  apply H. clear H. induction s as [|c s IH].
  - simpl in *. rewrite orb_false_r in *. by apply startswith_app_l in Hc.
  - rewrite contains_cons in *. apply orb_true_iff in Hc as [Hc | Hc].
    + apply startswith_app_l in Hc. by rewrite Hc.
    + rewrite (IH Hc). apply orb_true_r.
Qed.

Lemma replace_from_shorter (old : pystr) (s : pystr) :
  ∀ skip, (length (replace_from old [] skip s) ≤ length s)%nat.
Proof.
  induction s as [|c s IH]; intros skip; simpl; [done|].
  destruct skip as [|k].
  - destruct (startswith old (c :: s)); simpl.
    + specialize (IH (length old - 1)%nat). lia.
    + specialize (IH 0%nat). lia.
  - specialize (IH k). lia.
Qed.

(** *** [extract_inline_preferences] *)

Section Preferences.
Import GraphMail.
Context `{R : PyRuntime}.

Definition COMMENT_OPEN : pystr := lit "<!--".

Lemma PREF_INLINE_open : PREF_INLINE = COMMENT_OPEN ++ lit " PREF:INLINE_IMAGES -->".
Proof. by vm_compute. Qed.

Lemma search_img_size_unfold (s : pystr) :
  search_img_size s =
  match match_img_size_at s with
  | Some r => Some r
  | None => match s with [] => None | _ :: t => search_img_size t end
  end.
Proof. by destruct s. Qed.

Lemma search_img_size_without_comment (s : pystr) :
  contains COMMENT_OPEN s = false → search_img_size s = None.
Proof.
  induction s as [|c s IH]; intros H; [reflexivity|].
  rewrite search_img_size_unfold.
  - rewrite contains_cons in H. apply orb_false_iff in H as [H1 H2].
    unfold match_img_size_at. change (lit "<!--") with COMMENT_OPEN.
    rewrite H1. by apply IH.
Qed.


(** [extract_inline_preferences] returns a width without white space around
    it; HTML that holds no comment at all comes back as it is, with inline
    images off and the width 100%; the two markers are only ever taken out,
    so the HTML that comes back is never longer; and [None] comes back
    exactly for [None]. *)
Theorem extract_inline_preferences_spec (content_html : option pystr) :
  let html := (extract_inline_preferences content_html).1.1 in
  let inline_images := (extract_inline_preferences content_html).1.2 in
  let img_width := (extract_inline_preferences content_html).2 in
  strip img_width = img_width
  ∧ (∀ h, content_html = Some h → contains COMMENT_OPEN h = false →
          html = Some h ∧ inline_images = false ∧ img_width = lit "100%")
  ∧ (∀ h, content_html = Some h →
          ∃ h', html = Some h' ∧ (length h' ≤ length h)%nat)
  ∧ (html = None ↔ content_html = None).
Proof.
  intros html inline_images img_width. subst html inline_images img_width.
  assert (strip (lit "100%") = lit "100%") as Hdefault by (by vm_compute).
  destruct content_html as [[|c0 h0]|].
  - cbn [extract_inline_preferences fst snd]. split; [done|].
    split; [by intros h [= <-]|]. split; [|done]. intros h [= <-]. by exists [].
  - unfold extract_inline_preferences.
    set (h := c0 :: h0).
    set (cleaned := if contains PREF_INLINE h then replace PREF_INLINE [] h else h).
    assert (length cleaned ≤ length h)%nat as Hshorter.
    { subst cleaned. destruct (contains PREF_INLINE h); [|done].
      apply replace_from_shorter. }
    split; [|split; [|split]].
    + destruct (search_img_size cleaned) as [[g0 g1]|]; cbn [fst snd]; [|done].
      apply strip_idem.
    + intros h' [= <-] Hplain.
      assert (contains PREF_INLINE h = false) as Hpref.
      { rewrite PREF_INLINE_open. by apply contains_app_sub. }
      subst cleaned. rewrite Hpref.
      by rewrite (search_img_size_without_comment h Hplain).
    + intros h' [= <-].
      destruct (search_img_size cleaned) as [[g0 g1]|]; cbn [fst snd].
      * eexists. split; [done|].
        pose proof (replace_from_shorter g0 cleaned 0). unfold replace. lia.
      * by exists cleaned.
    + split; [|done].
      by destruct (search_img_size cleaned) as [[g0 g1]|].
  - cbn [extract_inline_preferences fst snd]. split; [done|].
    split; [done|]. split; done.
Qed.

End Preferences.

(** *** Assembling without inline images *)

Section Assemble.
Import GraphMail.
Context `{R : PyRuntime}.



End Assemble.


(** ** [clean_and_split_phones] and [get_logo_path] *)

Section CleanPhones.
Import Utils UtilsMore.
Context `{D : PyChars}.

(** The numbers the input holds, in the order of the input, repetitions
    included. *)
Definition phones_found (raw_value : pyarg) : list pystr :=
  match raw_value with
  | PyStr raw => cleaned_phones (candidates (prepare raw))
  | _ => []
  end.

Lemma clean_and_split_phones_unfold (raw_value : pyarg) :
  clean_and_split_phones raw_value = unique_loop ∅ [] (phones_found raw_value).
Proof.
  destruct raw_value as [| |raw]; try done.
  unfold clean_and_split_phones, phones_found.
  destruct raw as [|c raw]; [by vm_compute|].
  simpl nonempty. cbv iota.
  destruct (prepare (c :: raw)) as [|d cleaned] eqn:E; [by vm_compute | done].
Qed.

(** [clean_and_split_phones] returns a list without repetition that holds
    exactly the numbers found in the input, in the order in which each was
    first found; every element is non-empty, has no white space at its ends
    and holds at least one digit; inner white space and the case of letters
    are left alone. An argument that is no string, or a string of white
    space, byte-order marks and zero-width spaces only, gives the empty
    list. *)
Theorem clean_and_split_phones_correct (raw_value : pyarg) :
  let result := clean_and_split_phones raw_value in
  NoDup result
  ∧ (∀ x, x ∈ result ↔ x ∈ phones_found raw_value)
  ∧ (∀ x y, before x y result → first_seen_before x y (phones_found raw_value))
  ∧ Forall (λ p, p ≠ [] ∧ strip p = p ∧ existsb str_isdigit p = true) result
  ∧ (blank_input raw_value → result = []).
Proof.
  intros result. subst result. rewrite clean_and_split_phones_unfold.
  destruct (unique_loop_invariant (phones_found raw_value) [] [] ∅)
    as (Hnd & Hel & Hord).
  { constructor. }
  { intros x. rewrite elem_of_empty, elem_of_nil. done. }
  { done. }
  { intros x y Hb. apply sublist_nil_r in Hb. done. }
  simpl in Hel, Hord.
  split; [done|]. split; [done|]. split; [done|]. split.
  - apply Forall_forall. intros p Hp. apply Hel in Hp.
    destruct raw_value as [| |raw]; simpl in Hp; try by apply elem_of_nil in Hp.
    unfold cleaned_phones in Hp.
    rewrite list_elem_of_In, filter_In, <- list_elem_of_In in Hp.
    destruct Hp as [Hin [Hne Hdigit]%andb_true_iff].
    apply list_elem_of_fmap in Hin as (x & -> & _).
    split; [by destruct (clean_phone x)|]. split; [|done].
    unfold clean_phone. apply strip_idem.
  - intros Hblank. destruct raw_value as [| |raw]; try done.
    simpl in Hblank. unfold phones_found.
    rewrite (prepare_blank raw Hblank). by vm_compute.
Qed.

End CleanPhones.

Section LogoPath.
Import UtilsMore.
Context `{R : PyRuntime}.

Definition LANGUAGE_OPEN : pystr := lit " (".

Lemma before_first_unfold (sep s : pystr) :
  before_first sep s =
  if startswith sep s then []
  else match s with [] => [] | c :: t => c :: before_first sep t end.
Proof. by destruct s. Qed.

(** The text before the first [" ("] of a name followed by [" ("] is the
    name, when the name holds no [" ("] itself. *)
Lemma before_first_suffix (name suffix : pystr) :
  contains LANGUAGE_OPEN name = false →
  before_first LANGUAGE_OPEN (name ++ LANGUAGE_OPEN ++ suffix) = name.
Proof.
  induction name as [|c name IH]; intros Hname.
  - reflexivity.
  - rewrite contains_cons in Hname. apply orb_false_iff in Hname as [Hhere Hlater].
    change ((c :: name) ++ LANGUAGE_OPEN ++ suffix)
      with (c :: (name ++ LANGUAGE_OPEN ++ suffix)).
    rewrite before_first_unfold.
    assert (startswith LANGUAGE_OPEN (c :: (name ++ LANGUAGE_OPEN ++ suffix)) = false)
      as ->.
    { destruct name as [|c' name].
      - change (startswith LANGUAGE_OPEN (c :: [] ++ LANGUAGE_OPEN ++ suffix))
          with ((32 =? c) && ((40 =? 32) && true)).
        by rewrite andb_false_r.
      - change (startswith LANGUAGE_OPEN (c :: (c' :: name) ++ LANGUAGE_OPEN ++ suffix))
          with ((32 =? c) && ((40 =? c') && true)).
        exact Hhere. }
    by rewrite IH.
Qed.

(** [get_logo_path] ignores what follows the first [" ("] of the platform
    name: the name with a language in brackets after it has the logo of the
    name alone. *)
Theorem get_logo_path_ignores_language (name language : pystr) :
  contains LANGUAGE_OPEN name = false →
  get_logo_path (name ++ lit " (" ++ language) = get_logo_path name
  ∧ get_logo_path name = lit "assets/logos/" ++ str_lower name ++ lit ".png".
Proof.
  intros Hname. unfold get_logo_path.
  change (lit " (") with LANGUAGE_OPEN.
  rewrite before_first_suffix by done.
  assert (before_first LANGUAGE_OPEN name = name) as ->; [|done].
  clear language. induction name as [|c name IH]; [reflexivity|].
  rewrite contains_cons in Hname. apply orb_false_iff in Hname as [Hhere Hlater].
  rewrite before_first_unfold, Hhere. by rewrite IH.
Qed.

End LogoPath.

Lemma get_logo_path_witness :
  @UtilsMore.get_logo_path ascii_runtime (lit "WhatsApp (Polaco)")
  = lit "assets/logos/whatsapp.png".
Proof.
  assert (contains LANGUAGE_OPEN (lit "WhatsApp") = false) as H by reflexivity.
  destruct (@get_logo_path_ignores_language ascii_runtime (lit "WhatsApp")
              (lit "Polaco)") H) as [H1 H2].
  change (lit "WhatsApp (Polaco)") with (lit "WhatsApp" ++ lit " (" ++ lit "Polaco)").
  rewrite H1, H2. reflexivity.
Defined.

(** ** The collectors of [auto_analytics.py], what they store *)

Section CollectorsStore.
Import AutoAnalytics.







(** *** The follower table *)

Definition days (db : database) : list Z := map fm_date (linkedin_follower_metrics db).







End CollectorsStore.


(** Three days of follower figures on a database that holds the first. *)
Definition three_days : AutoAnalytics.linkedin_api := {|
  AutoAnalytics.api_client := organisation;
  AutoAnalytics.recent_posts_details := [];
  AutoAnalytics.share_server := fun _ => LinkedIn.StatsException;
  AutoAnalytics.follower_growth :=
    Some [(1, Some 5, Some 0, Some 5); (2, Some 1, Some 1, Some 2);
          (3, Some 0, Some 0, Some 0); (2, Some 4, Some 0, Some 4)]%Z
|}.

Example three_days_collected :
  let run := AutoAnalytics.collect_follower_growth quiet_environment three_days
               one_day_stored in
  run.1 = 2%nat ∧ days (AutoAnalytics.stored run.2) = [1; 2; 3]%Z
  ∧ map AutoAnalytics.fm_ganancia_total
      (AutoAnalytics.linkedin_follower_metrics (AutoAnalytics.stored run.2))
    = [5; 4; 0]%Z.
Proof. by vm_compute. Qed.


(** ** [get_post_metrics_advanced], row by row *)

Section Advanced.
Import LinkedIn.

(** No count has been stored but 0. *)
Definition flat (pm : post_metrics) : Prop :=
  map_Forall (λ _ v, v = 0%Z) (pm_counts pm).

Lemma record_metric_post_id aggregation metric_type status_code elements pm :
  pm_post_id (record_metric aggregation metric_type status_code elements pm)
  = pm_post_id pm.
Proof.
  unfold record_metric. destruct (status_code =? 200)%Z; [|done].
  destruct elements as [|first rest]; [done|].
  destruct (_ && _); [|done].
  generalize (first :: rest). clear first rest. intros l. revert pm.
  induction l as [|elem l IH]; intros pm; simpl; [done|]. by rewrite IH.
Qed.

Lemma set_data_flat key v pm : flat pm → flat (set_data key v pm).
Proof. done. Qed.

Lemma record_metric_daily_flat metric_type status_code elements pm :
  metric_type ∈ metrics_types "DAILY" → flat pm →
  flat (record_metric "DAILY" metric_type status_code elements pm).
Proof.
  intros Htype Hflat. unfold record_metric.
  destruct (status_code =? 200)%Z.
  - destruct elements as [|first rest]; [done|].
    assert (String.eqb metric_type "MEMBERS_REACHED" = false) as ->.
    { change (metrics_types "DAILY")
        with ["IMPRESSION"; "REACTION"; "COMMENT"; "RESHARE"; "CLICK_COUNT"]%string
        in Htype.
      repeat (apply elem_of_cons in Htype as [->|Htype]; [done|]).
      by apply elem_of_nil in Htype. }
    cbn [String.eqb Ascii.eqb Bool.eqb andb negb].
    generalize (first :: rest). clear first rest. intros l. revert pm Hflat.
    induction l as [|elem l IH]; intros pm Hflat; simpl; [done|].
    apply IH. by apply set_data_flat.
  - unfold flat, set_count. cbn [pm_counts]. by apply map_Forall_insert_2.
Qed.

Lemma metrics_loop_spec server aggregation (todo : list string) :
  ∀ n pm pm' n', metrics_loop server aggregation todo n pm = Some (pm', n') →
  pm_post_id pm' = pm_post_id pm ∧ n' = (n + length todo)%nat
  ∧ (aggregation = "DAILY"%string →
     (∀ metric_type, metric_type ∈ todo → metric_type ∈ metrics_types "DAILY") →
     flat pm → flat pm').
Proof.
  induction todo as [|metric_type rest IH]; intros n pm pm' n'; cbn [metrics_loop].
  - intros [= <- <-]. split; [done|]. split; [simpl; lia | done].
  - destruct (server n) as [status_code elements|]; [|done].
    intros Hloop. destruct (IH _ _ _ _ Hloop) as (Hid & -> & Hflat).
    rewrite record_metric_post_id in Hid.
    split; [done|]. split; [simpl; lia|].
    intros -> Htypes Hpm. apply Hflat; [done | |].
    + intros mt Hmt. apply Htypes. by right.
    + apply record_metric_daily_flat; [|done]. apply Htypes. by left.
Qed.

Lemma metrics_loop_answers server aggregation (todo : list string) :
  ∀ n pm,
  (∀ i, (n ≤ i < n + length todo)%nat → server i ≠ MetricException) →
  is_Some (metrics_loop server aggregation todo n pm).
Proof.
  induction todo as [|metric_type rest IH]; intros n pm Hserver; cbn [metrics_loop].
  - by eexists.
  - destruct (server n) as [status_code elements|] eqn:Hn.
    + apply IH. intros i Hi. apply Hserver. simpl. lia.
    + exfalso. apply (Hserver n); [simpl; lia | done].
Qed.

Definition post_of (row : advanced_row) : pystr := pm_post_id (adv_metrics row).

Lemma posts_loop_spec server aggregation (todo : list pystr) :
  ∀ n all_metrics,
  (∀ rows, posts_loop server aggregation todo n all_metrics = Some rows →
     map post_of rows = map post_of all_metrics ++ todo
     ∧ (aggregation = "DAILY"%string →
        Forall (λ row, flat (adv_metrics row)) all_metrics →
        Forall (λ row, flat (adv_metrics row)) rows))
  ∧ ((∀ i, (n ≤ i < n + length (metrics_types aggregation) * length todo)%nat →
            server i ≠ MetricException) →
     is_Some (posts_loop server aggregation todo n all_metrics)).
Proof.
  induction todo as [|post_id rest IH]; intros n all_metrics; cbn [posts_loop].
  - split; [|by eexists]. intros rows [= <-]. by rewrite app_nil_r.
  - split.
    + intros rows.
      destruct (metrics_loop server aggregation (metrics_types aggregation) n _)
        as [[pm n']|] eqn:Hloop; [|done].
      apply metrics_loop_spec in Hloop as (Hid & -> & Hflat).
      intros Hrows. destruct (IH (n + length (metrics_types aggregation))%nat
                                (all_metrics ++ [derive pm])) as [Hspec _].
      destruct (Hspec rows Hrows) as [Hposts Hdaily]. split.
      * rewrite Hposts, map_app, <- app_assoc. f_equal.
        cbn [map app]. f_equal. unfold post_of, derive. cbn [adv_metrics].
        by rewrite Hid.
      * intros -> Hall. apply Hdaily; [done|]. apply Forall_app. split; [done|].
        repeat constructor. by apply Hflat.
    + intros Hserver.
      change (length (post_id :: rest)) with (S (length rest)) in Hserver.
      rewrite Nat.mul_succ_r in Hserver.
      destruct (metrics_loop_answers server aggregation (metrics_types aggregation) n
                  {| pm_post_id := post_id; pm_counts := ∅; pm_data := ∅ |})
        as [[pm n'] Hloop].
      { intros i Hi. apply Hserver. lia. }
      rewrite Hloop. apply metrics_loop_spec in Hloop as (_ & -> & _).
      apply IH. intros i Hi. apply Hserver. lia.
Qed.

(** [get_post_metrics_advanced] asks for the first 20 posts only, five
    requests per post and a sixth for the total aggregation. A status other
    than 200 never stops it (the count is 0 then): whenever none of these
    requests raises, it returns one row per post asked for, in order; and
    whatever it returns is one row per post asked for. *)
Theorem advanced_metrics_rows (server : nat → metric_reply) (post_ids : ids_arg)
    (aggregation : string) (ids : list pystr) :
  normalise_ids post_ids = Some ids →
  let asked := take 20 ids in
  let per_post := if String.eqb aggregation "TOTAL" then 6%nat else 5%nat in
  ((∀ i, (i < per_post * length asked)%nat → server i ≠ MetricException) →
   is_Some (get_post_metrics_advanced server post_ids aggregation))
  ∧ (∀ rows, get_post_metrics_advanced server post_ids aggregation = Some rows →
             map post_of rows = asked).
Proof.
  intros Hids asked per_post. unfold get_post_metrics_advanced. rewrite Hids.
  assert (length (metrics_types aggregation) = per_post) as Hper.
  { unfold metrics_types, per_post. by destruct (String.eqb aggregation "TOTAL"). }
  destruct (posts_loop_spec server aggregation asked 0 []) as [Hrows Hsome].
  split.
  - intros Hserver. apply Hsome. intros i Hi. apply Hserver. rewrite <- Hper. lia.
  - intros rows Hr. by destruct (Hrows rows Hr) as [-> _].
Qed.

(** With the daily aggregation the counts of the answers are stored under
    the [_data] keys only, and the derived figures are computed from the
    plain keys: every row [get_post_metrics_advanced] returns for ["DAILY"]
    has a total engagement of 0 and the three rates 0, whatever LinkedIn
    answered. *)
Theorem advanced_daily_is_flat (server : nat → metric_reply) (post_ids : ids_arg)
    (rows : list advanced_row) :
  get_post_metrics_advanced server post_ids "DAILY" = Some rows →
  Forall (λ row, adv_total_engagement row = 0%Z
                 ∧ (adv_ER row == 0)%Q ∧ (adv_reach_rate row == 0)%Q
                 ∧ (adv_virality row == 0)%Q
                 ∧ flat (adv_metrics row)) rows.
Proof.
  unfold get_post_metrics_advanced.
  destruct (normalise_ids post_ids) as [ids|]; [|done].
  intros Hrows.
  destruct (posts_loop_spec server "DAILY" (take 20 ids) 0 []) as [Hspec _].
  destruct (Hspec rows Hrows) as [_ Hflat].
  specialize (Hflat eq_refl ltac:(constructor)).
  apply Forall_forall. intros row Hrow.
  destruct (posts_loop_rows _ _ _ _ _ _ Hrows row Hrow) as [Hin | [pm ->]];
    [by apply elem_of_nil in Hin|].
  rewrite Forall_forall in Hflat. specialize (Hflat _ Hrow).
  change (adv_metrics (derive pm)) with pm in *.
  assert (∀ key, get0 (pm_counts pm) key = 0%Z) as Hzero.
  { intros key. unfold get0. destruct (pm_counts pm !! key) as [v|] eqn:E; [|done].
    by apply (Hflat key v). }
  assert (default (get0 (pm_counts pm) "impression") (pm_counts pm !! "members_reached")
          = 0%Z) as Hreach.
  { destruct (pm_counts pm !! "members_reached") as [v|] eqn:E; [|apply Hzero].
    by apply (Hflat "members_reached"%string v). }
  unfold derive. cbn [adv_total_engagement adv_ER adv_reach_rate adv_virality].
  rewrite Hreach, !Hzero. cbn [Z.ltb Z.compare Z.add].
  split; [done|]. split; [apply round2_zero|]. split; [apply round2_zero|].
  split; [apply round2_zero | done].
Qed.

End Advanced.

(** A server that reports a count of 800 for whatever is asked, and two
    posts to ask about. *)
Definition generous_server : nat → LinkedIn.metric_reply :=
  fun _ => LinkedIn.MetricResponse 200
             [ {| LinkedIn.se_count := Some 800%Z; LinkedIn.se_dateRange := [] |} ].

Definition two_posts : LinkedIn.ids_arg :=
  LinkedIn.IdsList [lit "urn:li:share:1"; lit "urn:li:ugcPost:2"].

Example total_aggregation_counts :
  (λ row, (LinkedIn.adv_total_engagement row, LinkedIn.adv_ER row))
    <$> default [] (LinkedIn.get_post_metrics_advanced generous_server two_posts "TOTAL")
  = [(3200%Z, (40000 # 100)%Q); (3200%Z, (40000 # 100)%Q)].
Proof. by vm_compute. Qed.

Lemma advanced_metrics_rows_witness :
  map post_of
    (default [] (LinkedIn.get_post_metrics_advanced generous_server two_posts "TOTAL"))
  = [lit "urn:li:share:1"; lit "urn:li:ugcPost:2"].
Proof.
  apply (advanced_metrics_rows generous_server two_posts "TOTAL"
           [lit "urn:li:share:1"; lit "urn:li:ugcPost:2"] eq_refl).
  by vm_compute.
Defined.

Lemma advanced_daily_is_flat_witness :
  Forall (λ row, LinkedIn.adv_total_engagement row = 0%Z
                 ∧ (LinkedIn.adv_ER row == 0)%Q ∧ (LinkedIn.adv_reach_rate row == 0)%Q
                 ∧ (LinkedIn.adv_virality row == 0)%Q
                 ∧ flat (LinkedIn.adv_metrics row))
    (default [] (LinkedIn.get_post_metrics_advanced generous_server two_posts "DAILY")).
Proof.
  apply (advanced_daily_is_flat generous_server two_posts). by vm_compute.
Defined.

(** ** [get_follower_growth] *)

Definition sum_Z (l : list Z) : Z := foldr Z.add 0%Z l.

Lemma sum_Z_app (l1 l2 : list Z) : sum_Z (l1 ++ l2) = (sum_Z l1 + sum_Z l2)%Z.
Proof. induction l1 as [|x l1 IH]; simpl; [done|]. rewrite IH. lia. Qed.


Section FollowerGrowthFacts.
Import FollowerGrowth.
Context `{P : Pandas}.









Context `{!PandasLaws P}.


End FollowerGrowthFacts.

(** Pandas stood in for by a merge sort and whole days since the epoch. *)
#[local] Instance date_le_dec {A} (key : A → Z) :
  RelDecision (λ x y : A, (key x ≤ key y)%Z).
Proof. intros x y. apply Z_le_dec. Defined.

Definition merge_pandas : Pandas := {|
  sort_values := λ A key l, merge_sort (λ x y, (key x ≤ key y)%Z) l;
  to_date := λ ms, Some (ms / 86400000)%Z
|}.


Definition week_of_gains : FollowerGrowth.growth_reply :=
  FollowerGrowth.GrowthResponse 200
    [ {| FollowerGrowth.ge_start := Some 172800000%Z;
         FollowerGrowth.ge_organic := Some 3%Z; FollowerGrowth.ge_paid := None |};
      {| FollowerGrowth.ge_start := None;
         FollowerGrowth.ge_organic := Some 50%Z; FollowerGrowth.ge_paid := None |};
      {| FollowerGrowth.ge_start := Some 86400000%Z;
         FollowerGrowth.ge_organic := Some 1%Z; FollowerGrowth.ge_paid := Some 1%Z |} ].

Example week_of_gains_frame :
  (λ r, (FollowerGrowth.fecha (FollowerGrowth.gain r),
         FollowerGrowth.ganancia_total (FollowerGrowth.gain r),
         FollowerGrowth.seguidores_acumulados r))
    <$> default [] (@FollowerGrowth.get_follower_growth merge_pandas week_of_gains)
  = [(1, 2, 2); (2, 3, 5)]%Z.
Proof. by vm_compute. Qed.


(** ** [run_analytics_cycle] *)

Section Cycle.
Import AutoAnalytics AnalyticsCycle.


End Cycle.

(** ** The Gmail branch of [display_posts] *)

Section PublishGmail.
Import GraphMail UIComponents.
Context `{R : PyRuntime}.

(** Whether a post ends up marked as sent. With no contact or one contact
    the post is marked whenever [send_mail_graph] does not raise: also when
    there is no contact at all, when nothing is configured, and when the
    server refuses the message. With more than one contact it is marked
    exactly when [send_mail_graph_batch] returns a result with at least one
    success, so never when nothing is configured. *)
Theorem gmail_publish_marking (w : world) (contacts : list pystr) (asunto text : pystr)
    (content_html : option pystr) (all_attachments : list pystr) (inline_opt : bool) :
  let run := publish_gmail w contacts asunto text content_html all_attachments
               inline_opt in
  (contacts = [] → run = (true, []))
  ∧ (length contacts = 1%nat → ¬ ready w → run = (true, []))
  ∧ (length contacts = 1%nat → ready w →
     ∀ html atts,
       assemble w text content_html (Some all_attachments) inline_opt = Ok (html, atts) →
       run.1 = true ∧ length run.2 = 1%nat)
  ∧ ((1 < length contacts)%nat →
     (run.1 = true ↔
      ∃ result, (send_mail_graph_batch w contacts asunto text content_html
                   (Some all_attachments) inline_opt false 20).1 = Ok result
                ∧ (0 < successful result)%nat)
     ∧ (¬ ready w → run = (false, []))).
Proof.
  intros run. subst run. unfold publish_gmail.
  split; [|split; [|split]].
  - intros ->. cbn [length Nat.ltb Nat.leb]. unfold send_mail_graph.
    by destruct (get_graph_config w).
  - intros Hone Hnot. rewrite Hone. cbn [Nat.ltb Nat.leb].
    unfold send_mail_graph, ready in *.
    destruct (get_graph_config w) as [config|]; [|done].
    destruct contacts as [|c rest]; [done|].
    destruct (truthy (get_access_token w)); [|done].
    destruct Hnot. split; [by eexists | done].
  - intros Hone [[config Hconfig] Htoken] html atts Hasm. rewrite Hone.
    cbn [Nat.ltb Nat.leb]. unfold send_mail_graph.
    rewrite Hconfig, Htoken, Hasm.
    destruct contacts as [|c rest]; [done|]. cbn [negb].
    by destruct (http w 0).
  - intros Hmany. apply Nat.ltb_lt in Hmany. rewrite Hmany. split.
    + destruct (send_mail_graph_batch _ _ _ _ _ _ _ _ _) as [[result|e] trace];
        cbn [fst].
      * rewrite Nat.ltb_lt. split; [by exists result|]. by intros (r & [= <-] & Hr).
      * split; [done|]. by intros (r & ? & _).
    + intros Hnot. unfold send_mail_graph_batch, ready in *.
      destruct contacts as [|c rest]; [done|].
      destruct (get_graph_config w) as [config|]; [|done].
      destruct (truthy (get_access_token w)); [|done].
      destruct Hnot. split; [by eexists | done].
Qed.

End PublishGmail.

(** A server that refuses every message. *)
Definition refusing_world : GraphMail.world := {|
  GraphMail.getenv := GraphMail.getenv accepting_world;
  GraphMail.msal_installed := true;
  GraphMail.token_reply := Some (lit "token");
  GraphMail.fs := GraphMail.fs accepting_world;
  GraphMail.http := fun _ => GraphMail.Response 500 (lit "no") None
|}.

Example refused_but_marked :
  (@UIComponents.publish_gmail ascii_runtime refusing_world [lit "ana@example.org"]
     (lit "Hola") (lit "texto") None [] false).1 = true
  ∧ (@GraphMail.send_mail_graph ascii_runtime refusing_world [lit "ana@example.org"]
       (lit "Hola") (lit "texto") None (Some []) [] [] false).1 = Ok false.
Proof. by vm_compute. Qed.

(** ** Inline images and a footer that is already there *)

Lemma startswith_split (p s : pystr) :
  startswith p s = true ↔ ∃ t, s = p ++ t.
Proof.
  revert s. induction p as [|a p IH]; intros s.
  - split; [by exists s | done].
  - destruct s as [|b s]; simpl.
    + split; [done | by intros [t ?]].
    + rewrite andb_true_iff, N.eqb_eq, IH. split.
      * intros [-> [t ->]]. by exists t.
      * intros [t [= -> ->]]. split; [done | by exists t].
Qed.

Lemma replace_first_spec (old new s : pystr) :
  old ≠ [] → contains old s = true →
  ∃ pre post,
    s = pre ++ old ++ post
    ∧ (∀ pre' post', s = pre' ++ old ++ post' → length pre ≤ length pre')%nat
    ∧ replace_first old new s = pre ++ new ++ post.
Proof.
  intros Hold. induction s as [|c s IH].
  - simpl. rewrite orb_false_r. intros [t Ht]%startswith_split.
    destruct old; [done | discriminate].
  - rewrite contains_cons. cbn [replace_first].
    destruct (startswith old (c :: s)) eqn:Hhere.
    + intros _. apply startswith_split in Hhere as [t Ht].
      exists [], t. split; [done|]. split; [simpl; lia|].
      rewrite Ht, drop_app_length. done.
    + simpl. intros Hlater. destruct (IH Hlater) as (pre & post & -> & Hmin & ->).
      exists (c :: pre), post. split; [done|]. split; [|done].
      intros [|c' pre'] post' Heq.
      * apply not_true_iff_false in Hhere. destruct Hhere.
        apply startswith_split. by exists post'.
      * injection Heq as <- Heq. simpl. apply Hmin in Heq. lia.
Qed.

Section InlineImages.
Import GraphMail.
Context `{R : PyRuntime}.

Lemma FOOTER_MARKER_HTML_nonempty : FOOTER_MARKER_HTML ≠ [].
Proof. by vm_compute. Qed.

Lemma FOOTER_MARKER_HTML_has_text :
  contains FOOTER_MARKER_TEXT FOOTER_MARKER_HTML = true.
Proof. by vm_compute. Qed.

(** When the HTML already holds the footer marker, the image tags are put
    immediately before its first occurrence and nothing else changes; this
    cannot raise, and [ensure_footer_once] then leaves the result as it is:
    the images end up above the one footer. *)
Theorem inline_images_before_existing_footer (html img_tags : pystr) :
  img_tags ≠ [] → contains FOOTER_MARKER_HTML html = true →
  ∃ pre post,
    html = pre ++ FOOTER_MARKER_HTML ++ post
    ∧ (∀ pre' post', html = pre' ++ FOOTER_MARKER_HTML ++ post' →
                     length pre ≤ length pre')%nat
    ∧ insert_inline_images_before_footer html img_tags
      = Ok (pre ++ img_tags ++ FOOTER_MARKER_HTML ++ post)
    ∧ ensure_footer_once (pre ++ img_tags ++ FOOTER_MARKER_HTML ++ post)
      = pre ++ img_tags ++ FOOTER_MARKER_HTML ++ post.
Proof.
  intros Htags Hmarker.
  destruct (replace_first_spec FOOTER_MARKER_HTML (img_tags ++ FOOTER_MARKER_HTML) html
              FOOTER_MARKER_HTML_nonempty Hmarker) as (pre & post & Hhtml & Hmin & Hrep).
  exists pre, post. split; [done|]. split; [done|]. split.
  - unfold insert_inline_images_before_footer. rewrite Hmarker, Hrep.
    destruct img_tags; [done|]. cbn [nonempty negb]. by rewrite <- app_assoc.
  - apply ensure_footer_once_present.
    apply contains_app_r, contains_app_r, contains_app_l.
    apply FOOTER_MARKER_HTML_has_text.
Qed.

End InlineImages.

Lemma inline_images_before_existing_footer_witness :
  ∃ pre post,
    lit "<p>Hola</p><!-- PIES-DE-EMAIL --><p>pie</p>"
    = pre ++ GraphMail.FOOTER_MARKER_HTML ++ post
    ∧ @GraphMail.insert_inline_images_before_footer ascii_runtime
        (lit "<p>Hola</p><!-- PIES-DE-EMAIL --><p>pie</p>") (lit "<img>")
      = Ok (pre ++ lit "<img>" ++ GraphMail.FOOTER_MARKER_HTML ++ post).
Proof.
  destruct (@inline_images_before_existing_footer ascii_runtime
              (lit "<p>Hola</p><!-- PIES-DE-EMAIL --><p>pie</p>") (lit "<img>"))
    as (pre & post & Hhtml & _ & Hinsert & _); [discriminate | reflexivity |].
  exists pre, post. split; [exact Hhtml | exact Hinsert].
Defined.

(** ** From [get_follower_growth] to the follower table *)

Section FollowerPipeline.
Import FollowerGrowth AutoAnalytics.
Context `{P : Pandas}.

(** The rows of the data frame as [collect_follower_growth] reads them with
    [iterrows]: the date and the three integer cells. *)
Definition frame_rows (rows : list growth_row)
    : list (Z * option Z * option Z * option Z) :=
  map (λ r, (fecha (gain r), Some (ganancia_organica (gain r)),
             Some (ganancia_pagada (gain r)), Some (ganancia_total (gain r)))) rows.



End FollowerPipeline.

Definition week_api : AutoAnalytics.linkedin_api := {|
  AutoAnalytics.api_client := organisation;
  AutoAnalytics.recent_posts_details := [];
  AutoAnalytics.share_server := fun _ => LinkedIn.StatsException;
  AutoAnalytics.follower_growth :=
    @frame_rows <$> @FollowerGrowth.get_follower_growth merge_pandas week_of_gains
|}.

Example week_collected :
  let run := AutoAnalytics.collect_follower_growth quiet_environment week_api
               one_day_stored in
  run.1 = 1%nat ∧ days (AutoAnalytics.stored run.2) = [1; 2]%Z.
Proof. by vm_compute. Qed.

